(** * Mom's Mahjong: board, hold area and session controller

    A shallow embedding of the game core of [src/game/layouts.ts],
    [src/game/Board.ts], [src/game/HoldArea.ts] and
    [src/scenes/GameScene.ts].  Rendering, sound and vibration are left
    out.  The methods are given twice: as the function a call computes when
    it runs to its end with nothing in between ([removeTile], [addTile],
    [onTileSelected]), and cut at their [await]s into the tasks that the
    event loop runs, between which the buttons and the pointer handler act
    ([Session], [step]); [wholeTurn_tapTile] relates the two.

    Conventions.
    - Grid coordinates are the integers of the layout table ([Z]).
    - A tile kind ([tileType]) is an index into [TILE_EMOJIS] ([nat]).
    - A [Tile] object is identified by [tid], its index in [Board.tiles];
      the source's [other === tile] is equality of [tid].
    - [Math.random] is an oracle [rnd : nat -> nat]: the loop at index [i]
      draws [rnd i], reduced into [0, i], which is the range of
      [Math.floor(Math.random() * (i + 1))].
    - A callback field ([onMatch], [onGameOver], [onWin]) called at the end
      of a method is modelled as an event returned by the method; the
      session dispatches it to the handler that [GameScene] registered. *)

From stdpp Require Import gmap list fin_maps strings.

Open Scope Z_scope.
Open Scope nat_scope.

(** ** layouts.ts *)

Module Layouts.

Record TilePosition := { col : Z; row : Z; layer : Z }.

Definition at_ (c r l : Z) : TilePosition := {| col := c; row := r; layer := l |}.

Definition MOBILE_LAYOUT : list TilePosition :=
  [ (* Layer 0: 6 x 5 *)
    at_ 0 0 0; at_ 1 0 0; at_ 2 0 0; at_ 3 0 0; at_ 4 0 0; at_ 5 0 0;
    at_ 0 1 0; at_ 1 1 0; at_ 2 1 0; at_ 3 1 0; at_ 4 1 0; at_ 5 1 0;
    at_ 0 2 0; at_ 1 2 0; at_ 2 2 0; at_ 3 2 0; at_ 4 2 0; at_ 5 2 0;
    at_ 0 3 0; at_ 1 3 0; at_ 2 3 0; at_ 3 3 0; at_ 4 3 0; at_ 5 3 0;
    at_ 0 4 0; at_ 1 4 0; at_ 2 4 0; at_ 3 4 0; at_ 4 4 0; at_ 5 4 0;
    (* Layer 1: 4 x 3 *)
    at_ 1 1 1; at_ 2 1 1; at_ 3 1 1; at_ 4 1 1;
    at_ 1 2 1; at_ 2 2 1; at_ 3 2 1; at_ 4 2 1;
    at_ 1 3 1; at_ 2 3 1; at_ 3 3 1; at_ 4 3 1;
    (* Layer 2: 1 x 2 *)
    at_ 2 2 2; at_ 3 2 2 ]%Z.

Definition TILE_EMOJIS : list string :=
  [ "🌶️"; "🧄"; "🧅"; "🫚"; "🌿"; "🍃";
    "🥔"; "🍅"; "🥕"; "🍆"; "🥒"; "🌽";
    "🥭"; "🍌"; "🍇"; "🍎";
    "🍳"; "🍛"; "🧁"; "☕"; "🍵"; "🥛" ]%string.

Definition getLayout : list TilePosition := MOBILE_LAYOUT.

Definition getTileCount : nat := length MOBILE_LAYOUT.

End Layouts.

(** ** Tile.ts *)

Record TileData := {
  col : Z;
  row : Z;
  layer : Z;
  tileType : nat;
}.

Record Tile := {
  tid : nat;
  tileData : TileData;
  isFree : bool;
  isRemoved : bool;
}.

Definition setFreeState (free : bool) (t : Tile) : Tile :=
  {| tid := tid t; tileData := tileData t; isFree := free; isRemoved := isRemoved t |}.

Definition updateEmoji (newType : nat) (t : Tile) : Tile :=
  {| tid := tid t;
     tileData := {| col := col (tileData t); row := row (tileData t);
                    layer := layer (tileData t); tileType := newType |};
     isFree := isFree t; isRemoved := isRemoved t |}.

(** The state change of [removeWithAnimation]. *)
Definition markRemoved (t : Tile) : Tile :=
  {| tid := tid t; tileData := tileData t; isFree := isFree t; isRemoved := true |}.

Definition kindOf (t : Tile) : nat := tileType (tileData t).

Definition positionOf (t : Tile) : Z * Z * Z :=
  (col (tileData t), row (tileData t), layer (tileData t)).

(** [xs.filter(x => x === k).length] on a list of kinds. *)
Definition countKind (k : nat) (kinds : list nat) : nat :=
  length (filter (λ x, x = k) kinds).

(** ** Board.ts: kind generation *)

(** [[a[i], a[j]] = [a[j], a[i]]]; both indices are in range wherever the
    source swaps. *)
Definition swap (i j : nat) (a : list nat) : list nat :=
  match a !! i, a !! j with
  | Some x, Some y => <[j := x]> (<[i := y]> a)
  | _, _ => a
  end.

(** [for (let i = n; i > 0; i--) { j = floor(random() * (i + 1)); swap }] *)
Fixpoint fisherYatesFrom (rnd : nat → nat) (i : nat) (types : list nat) : list nat :=
  match i with
  | 0 => types
  | S i' => fisherYatesFrom rnd i' (swap i (rnd i mod (i + 1)) types)
  end.

Definition fisherYates (rnd : nat → nat) (types : list nat) : list nat :=
  fisherYatesFrom rnd (length types - 1) types.

(** [for (let i = 0; i < pairCount; i++) types.push(i % P, i % P)] *)
Definition pushPairs (paletteSize pairCount : nat) : list nat :=
  foldl (λ types i, types ++ [i mod paletteSize; i mod paletteSize]) [] (seq 0 pairCount).

(** [while (types.length < count) types.push(0)]; [fuel] bounds the number
    of iterations. *)
Fixpoint padWithZero (fuel count : nat) (types : list nat) : list nat :=
  match fuel with
  | 0 => types
  | S fuel' =>
      if decide (length types < count) then padWithZero fuel' count (types ++ [0])
      else types
  end.

Definition unshuffledTypes (paletteSize count : nat) : list nat :=
  padWithZero count count (pushPairs paletteSize (count / 2)).

Definition generateTileTypesForPairs (paletteSize : nat) (rnd : nat → nat) (count : nat)
  : list nat :=
  fisherYates rnd (unshuffledTypes paletteSize count).

(** ** Board.ts: free-state computation *)

(** Body of the first loop of [checkTileFree]: does [other] make the loop
    return [false]? *)
Definition coversFromAbove (tile other : Tile) : bool :=
  if decide (tid other = tid tile) then false
  else if decide (layer (tileData other) ≤ layer (tileData tile))%Z then false
  else
    let colDiff := Z.abs (col (tileData other) - col (tileData tile)) in
    let rowDiff := Z.abs (row (tileData other) - row (tileData tile)) in
    bool_decide (colDiff < 1 ∧ rowDiff < 1)%Z.

(** Body of the second loop: update of [(leftBlocked, rightBlocked)].  The
    comparison [x < 0.1] on an integer [x] is written [10 * x < 1]. *)
Definition sideStep (tile : Tile) (acc : bool * bool) (other : Tile) : bool * bool :=
  if decide (tid other = tid tile) then acc
  else if decide (layer (tileData other) ≠ layer (tileData tile)) then acc
  else if decide (1 ≤ Z.abs (row (tileData other) - row (tileData tile)))%Z then acc
  else
    let leftBlocked :=
      if decide (10 * Z.abs (col (tileData other) - (col (tileData tile) - 1)) < 1)%Z
      then true else acc.1 in
    let rightBlocked :=
      if decide (10 * Z.abs (col (tileData other) - (col (tileData tile) + 1)) < 1)%Z
      then true else acc.2 in
    (leftBlocked, rightBlocked).

Definition checkTileFree (tile : Tile) (activeTiles : list Tile) : bool :=
  if existsb (coversFromAbove tile) activeTiles then false
  else
    let sides := foldl (sideStep tile) (false, false) activeTiles in
    negb sides.1 || negb sides.2.

(** ** Board.ts: the board *)

(** [onWin] records whether the [onWin] callback field is set. *)
Record Board := {
  tiles : list Tile;
  onWin : bool;
}.

Definition withTiles (ts : list Tile) (b : Board) : Board :=
  {| tiles := ts; onWin := onWin b |}.

Definition setOnWin (b : Board) : Board :=
  {| tiles := tiles b; onWin := true |}.

(** [tiles.filter(t => !t.getIsRemoved())] *)
Definition activeTilesOf (ts : list Tile) : list Tile :=
  filter (λ t, isRemoved t = false) ts.

(** [checkTileFree] reads positions and identities only, so the snapshot
    [activeTiles] taken before the loop stands for the aliased array. *)
Definition updateFreeTiles (ts : list Tile) : list Tile :=
  let activeTiles := activeTilesOf ts in
  (λ t, if isRemoved t then t else setFreeState (checkTileFree t activeTiles) t) <$> ts.

Definition getFreeTiles (b : Board) : list Tile :=
  filter (λ t, isRemoved t = false ∧ isFree t = true) (tiles b).

Definition getRemainingTiles (b : Board) : list Tile := activeTilesOf (tiles b).

Definition getRemainingCount (b : Board) : nat := length (activeTilesOf (tiles b)).

(** The tile built for layout entry [i]; [isFree] starts as [true]. *)
Definition newTile (types : list nat) (i : nat) (pos : Layouts.TilePosition) : Tile :=
  {| tid := i;
     tileData := {| col := Layouts.col pos; row := Layouts.row pos;
                    layer := Layouts.layer pos; tileType := types !!! i |};
     isFree := true; isRemoved := false |}.

Definition createFrom (layout : list Layouts.TilePosition) (rnd : nat → nat) : Board :=
  let tileTypes :=
    generateTileTypesForPairs (length Layouts.TILE_EMOJIS) rnd (length layout) in
  {| tiles := updateFreeTiles (imap (newTile tileTypes) layout); onWin := false |}.

(** [Board.create]: the layout is [getLayout()]. *)
Definition Board_create (rnd : nat → nat) : Board := createFrom Layouts.getLayout rnd.

(** Outcome of [Board.onTileClick]. *)
Inductive ClickOutcome :=
  | ClickIgnored
  | ClickBlocked
  | ClickSelected.

Definition onTileClick (tile : Tile) : ClickOutcome :=
  if isRemoved tile then ClickIgnored
  else if negb (isFree tile) then ClickBlocked
  else ClickSelected.

(** [Board.removeTile]: the second component tells whether [this.onWin()]
    is called (no tile remains and the callback is set). *)
Definition removeTile (tile : Tile) (b : Board) : Board * bool :=
  let marked := (λ t, if decide (tid t = tid tile) then markRemoved t else t) <$> tiles b in
  let ts := updateFreeTiles marked in
  (withTiles ts b, bool_decide (length (activeTilesOf ts) = 0) && onWin b).

Definition findHintTile (holdTypeCounts : gmap nat nat) (b : Board) : option Tile :=
  let freeTiles := getFreeTiles b in
  let remainingTiles := getRemainingTiles b in
  match find (λ tile, bool_decide (1 ≤ default 0 (holdTypeCounts !! kindOf tile))) freeTiles with
  | Some tile => Some tile
  | None =>
    match find (λ tile,
                  match find (λ t, bool_decide (tid t ≠ tid tile ∧ kindOf t = kindOf tile))
                             freeTiles with
                  | Some _ => true
                  | None => false
                  end) freeTiles with
    | Some tile => Some tile
    | None =>
        find (λ tile,
                bool_decide (2 ≤ length (filter (λ t, kindOf t = kindOf tile) remainingTiles)))
             freeTiles
    end
  end.

(** The loop [activeTiles[i].updateEmoji(.., types[i])]: [activeTiles[i]]
    aliases the [i]-th non-removed element of [this.tiles]. *)
Fixpoint assignTypes (ts : list Tile) (types : list nat) : list Tile :=
  match ts with
  | [] => []
  | t :: ts' =>
      if isRemoved t then t :: assignTypes ts' types
      else match types with
           | newType :: types' => updateEmoji newType t :: assignTypes ts' types'
           | [] => t :: ts'
           end
  end.

Definition shuffle (rnd : nat → nat) (b : Board) : Board :=
  let activeTiles := activeTilesOf (tiles b) in
  let types := fisherYates rnd (kindOf <$> activeTiles) in
  withTiles (updateFreeTiles (assignTypes (tiles b) types)) b.

(** ** HoldArea.ts *)

Definition SLOT_COUNT : nat := 4.

(** A slot holds the kind of its hold tile, or nothing. *)
Definition HoldArea_create : list (option nat) := replicate SLOT_COUNT None.

Definition canAddTile (slots : list (option nat)) : bool :=
  existsb (λ slot, bool_decide (slot = None)) slots.

Definition occupiedKinds (slots : list (option nat)) : list nat := omap id slots.

Definition getTileCount (slots : list (option nat)) : nat :=
  length (filter (λ slot : option nat, slot ≠ None) slots).

(** [slots.findIndex(slot => slot.tile === null)] *)
Definition findEmptySlot (slots : list (option nat)) : option nat :=
  fst <$> list_find (λ slot, slot = None) slots.

(** Indices of the slots that [slots.filter(s => s.tile !== null &&
    s.tile.tileData.tileType === tileType)] returns (the slot objects are
    shared with [this.slots]). *)
Definition matchingSlots (tileType : nat) (slots : list (option nat)) : list nat :=
  filter (λ i, slots !! i = Some (Some tileType)) (seq 0 (length slots)).

Definition compactSlots (slots : list (option nat)) : list (option nat) :=
  let tiles := omap id slots in
  let cleared := map (λ _, None) slots in
  foldl (λ acc it, <[it.1 := Some it.2]> acc) cleared (imap pair tiles).

Inductive HoldEvent :=
  | OnMatch (tileType count : nat)
  | OnGameOver.

Global Instance HoldEvent_eq_dec : EqDecision HoldEvent.
Proof. solve_decision. Defined.

Definition handleMatch (matching : list nat) (tileType : nat) (slots : list (option nat))
  : list (option nat) * list HoldEvent :=
  let removed := foldl (λ acc i, <[i := None]> acc) slots matching in
  (compactSlots removed, [OnMatch tileType 2]).

(** The [typeCounts] map built in [addTile] and in [getTypesInHold]. *)
Definition getTypesInHold (slots : list (option nat)) : gmap nat nat :=
  foldl (λ typeCounts slot,
           match slot with
           | Some t => <[t := default 0 (typeCounts !! t) + 1]> typeCounts
           | None => typeCounts
           end) ∅ slots.

Record AddResult := { matched : bool; matchCount : nat }.

Definition addTile (tileType : nat) (slots : list (option nat))
  : list (option nat) * AddResult * list HoldEvent :=
  match findEmptySlot slots with
  | None => (slots, {| matched := false; matchCount := 0 |}, [])
  | Some emptySlotIndex =>
      let slots1 := <[emptySlotIndex := Some tileType]> slots in
      let matching := matchingSlots tileType slots1 in
      if decide (2 ≤ length matching) then
        let '(slots2, events) := handleMatch (take 2 matching) tileType slots1 in
        (slots2, {| matched := true; matchCount := 2 |}, events)
      else if negb (canAddTile slots1) then
        let typeCounts := getTypesInHold slots1 in
        let hasMatch :=
          existsb (λ count, bool_decide (2 ≤ count)) (map snd (map_to_list typeCounts)) in
        (slots1, {| matched := false; matchCount := 0 |},
         if negb hasMatch then [OnGameOver] else [])
      else (slots1, {| matched := false; matchCount := 0 |}, [])
  end.

Definition HoldArea_clear (slots : list (option nat)) : list (option nat) :=
  map (λ _, None) slots.

(** ** GameScene.ts *)

Definition COMBO_TIME_WINDOW : Z := 3000.

(** What the scene shows to the player. *)
Inductive Signal :=
  | ShowWinScreen
  | ShowGameOverScreen
  | HoldFullMessage
  | TileBlocked
  | FloatingScore (points multiplier : Z)
  | HintShown (tileId : nat)
  | NoHintMessage
  | ShuffledMessage.

Global Instance Signal_eq_dec : EqDecision Signal.
Proof. solve_decision. Defined.

(** [localStorage] is the stored high score, if any; [overlayTimers] counts
    the pending [delayedCall(100, ..)] callbacks of [newGame]. *)
Record GameScene := {
  board : Board;
  holdArea : list (option nat);
  score : Z;
  highScore : Z;
  comboCount : Z;
  lastMatchTime : Z;
  isProcessing : bool;
  overlayVisible : bool;
  localStorage : option Z;
  overlayTimers : nat;
}.

Definition setBoard (b : Board) (g : GameScene) : GameScene :=
  {| board := b; holdArea := holdArea g; score := score g; highScore := highScore g;
     comboCount := comboCount g; lastMatchTime := lastMatchTime g;
     isProcessing := isProcessing g; overlayVisible := overlayVisible g;
     localStorage := localStorage g; overlayTimers := overlayTimers g |}.

Definition setHoldArea (slots : list (option nat)) (g : GameScene) : GameScene :=
  {| board := board g; holdArea := slots; score := score g; highScore := highScore g;
     comboCount := comboCount g; lastMatchTime := lastMatchTime g;
     isProcessing := isProcessing g; overlayVisible := overlayVisible g;
     localStorage := localStorage g; overlayTimers := overlayTimers g |}.

Definition setProcessing (p : bool) (g : GameScene) : GameScene :=
  {| board := board g; holdArea := holdArea g; score := score g; highScore := highScore g;
     comboCount := comboCount g; lastMatchTime := lastMatchTime g;
     isProcessing := p; overlayVisible := overlayVisible g;
     localStorage := localStorage g; overlayTimers := overlayTimers g |}.

Definition setOverlay (v : bool) (g : GameScene) : GameScene :=
  {| board := board g; holdArea := holdArea g; score := score g; highScore := highScore g;
     comboCount := comboCount g; lastMatchTime := lastMatchTime g;
     isProcessing := isProcessing g; overlayVisible := v;
     localStorage := localStorage g; overlayTimers := overlayTimers g |}.

(** [GameScene.create]: [stored] is the number that [parseInt] reads from
    the [localStorage] entry, [None] for no entry; the game itself stores
    integer scores only, and an entry that is not a number ([NaN]) is not
    covered.  The three board callbacks and the two hold callbacks are set
    here. *)
Definition GameScene_create (rnd : nat → nat) (stored : option Z) : GameScene :=
  {| board := setOnWin (Board_create rnd);
     holdArea := HoldArea_create;
     score := 0; highScore := default 0%Z stored;
     comboCount := 0; lastMatchTime := 0;
     isProcessing := false; overlayVisible := false;
     localStorage := stored; overlayTimers := 0 |}.

Definition showWinScreen (g : GameScene) : GameScene * list Signal :=
  (setOverlay true g, [ShowWinScreen]).

Definition showGameOverScreen (g : GameScene) : GameScene * list Signal :=
  (setOverlay true g, [ShowGameOverScreen]).

(** [GameScene.onWin], the handler of the board's [onWin]. *)
Definition GameScene_onWin (g : GameScene) : GameScene * list Signal :=
  if decide (getTileCount (holdArea g) = 0) then showWinScreen g else (g, []).

Definition onHoldAreaFull (g : GameScene) : GameScene * list Signal :=
  showGameOverScreen g.

(** [onHoldMatch]; [now] is the value of [Date.now()]. *)
Definition onHoldMatch (now : Z) (g : GameScene) : GameScene * list Signal :=
  let combo :=
    if decide (now - lastMatchTime g < COMBO_TIME_WINDOW)%Z
    then (comboCount g + 1)%Z else 1%Z in
  let baseScore := 100%Z in
  let multiplier := combo in
  let points := (baseScore * multiplier)%Z in
  let newScore := (score g + points)%Z in
  let beaten := bool_decide (newScore > highScore g)%Z in
  ({| board := board g; holdArea := holdArea g;
      score := newScore;
      highScore := if beaten then newScore else highScore g;
      comboCount := combo; lastMatchTime := now;
      isProcessing := isProcessing g; overlayVisible := overlayVisible g;
      localStorage := if beaten then Some newScore else localStorage g;
      overlayTimers := overlayTimers g |},
   [FloatingScore points multiplier]).

(** Delivery of the hold area's callbacks to the handlers set in [create]. *)
Definition dispatchHold (now : Z) (ev : HoldEvent) (g : GameScene) : GameScene * list Signal :=
  match ev with
  | OnMatch _ _ => onHoldMatch now g
  | OnGameOver => onHoldAreaFull g
  end.

Definition dispatchAll (now : Z) (evs : list HoldEvent) (g : GameScene)
  : GameScene * list Signal :=
  foldl (λ acc ev, let r := dispatchHold now ev acc.1 in (r.1, acc.2 ++ r.2)) (g, []) evs.

(** [onTileSelected] run to its end with no other event in between;
    [selectTile] and [resumeTask] below give it task by task. *)
Definition onTileSelected (tile : Tile) (now : Z) (g : GameScene) : GameScene * list Signal :=
  if overlayVisible g then (g, [])
  else if isProcessing g then (g, [])
  else if negb (canAddTile (holdArea g)) then (g, [HoldFullMessage])
  else
    let g1 := setProcessing true g in
    let removal := removeTile tile (board g1) in
    let g2 := setBoard removal.1 g1 in
    let won1 := if removal.2 then GameScene_onWin g2 else (g2, []) in
    let added := addTile (kindOf tile) (holdArea won1.1) in
    let g3 := setHoldArea added.1.1 won1.1 in
    let handled := dispatchAll now added.2 g3 in
    let g4 := handled.1 in
    let boardEmpty := bool_decide (getRemainingCount (board g4) = 0) in
    let holdEmpty := bool_decide (getTileCount (holdArea g4) = 0) in
    let won2 := if boardEmpty && holdEmpty then showWinScreen g4 else (g4, []) in
    (setProcessing false won2.1, won1.2 ++ handled.2 ++ won2.2).

(** A tap on the tile with identity [i]: [Board.onTileClick], then the
    [onTileSelected] / [onTileBlocked] handlers. *)
Definition tapTile (i : nat) (now : Z) (g : GameScene) : GameScene * list Signal :=
  match find (λ t, bool_decide (tid t = i)) (tiles (board g)) with
  | None => (g, [])
  | Some tile =>
      match onTileClick tile with
      | ClickIgnored => (g, [])
      | ClickBlocked => (g, [TileBlocked])
      | ClickSelected => onTileSelected tile now g
      end
  end.

Definition shuffleBoard (rnd : nat → nat) (g : GameScene) : GameScene * list Signal :=
  (setBoard (shuffle rnd (board g)) g, [ShuffledMessage]).

Definition showHint (g : GameScene) : GameScene * list Signal :=
  match findHintTile (getTypesInHold (holdArea g)) (board g) with
  | Some hintTile => (g, [HintShown (tid hintTile)])
  | None => (g, [NoHintMessage])
  end.

(** [newGame]: a fresh board whose [onWin] is left unset, and one more
    pending overlay timer. *)
Definition newGame (rnd : nat → nat) (g : GameScene) : GameScene :=
  {| board := Board_create rnd;
     holdArea := HoldArea_clear (holdArea g);
     score := 0; highScore := highScore g;
     comboCount := 0; lastMatchTime := 0;
     isProcessing := false; overlayVisible := overlayVisible g;
     localStorage := localStorage g; overlayTimers := S (overlayTimers g) |}.

(** The callback of [delayedCall(100, ..)] in [newGame]. *)
Definition overlayTimerFires (g : GameScene) : GameScene :=
  match overlayTimers g with
  | 0 => g
  | S n =>
      {| board := board g; holdArea := holdArea g; score := score g;
         highScore := highScore g; comboCount := comboCount g;
         lastMatchTime := lastMatchTime g; isProcessing := isProcessing g;
         overlayVisible := false; localStorage := localStorage g; overlayTimers := n |}
  end.

(** Hold-area states that arise from [create] by [addTile] and [clear]. *)
Inductive holdReachable : list (option nat) → Prop :=
  | hold_created : holdReachable HoldArea_create
  | hold_added tileType slots :
      holdReachable slots → holdReachable (addTile tileType slots).1.1
  | hold_cleared slots : holdReachable slots → holdReachable (HoldArea_clear slots).

(** Scene states that arise from [create] when every turn runs to its end
    before the next event; [sessionReachable] below has all of them and the
    states in between. *)
Inductive sceneReachable : GameScene → Prop :=
  | scene_created rnd stored : sceneReachable (GameScene_create rnd stored)
  | scene_tap i now g : sceneReachable g → sceneReachable (tapTile i now g).1
  | scene_shuffle rnd g : sceneReachable g → sceneReachable (shuffleBoard rnd g).1
  | scene_newGame rnd g : sceneReachable g → sceneReachable (newGame rnd g)
  | scene_timer g : sceneReachable g → sceneReachable (overlayTimerFires g).

(** ** Specification vocabulary and sample states *)

Arguments countKind : simpl never.

(** [other] sits in the cell [(c, row tile, layer tile)]. *)
Definition inCell (c : Z) (tile other : Tile) : Prop :=
  col (tileData other) = c
  ∧ row (tileData other) = row (tileData tile)
  ∧ layer (tileData other) = layer (tileData tile).

Definition blocksSide (c : Z) (tile other : Tile) : bool :=
  bool_decide (tid other ≠ tid tile
               ∧ layer (tileData other) = layer (tileData tile)
               ∧ (Z.abs (row (tileData other) - row (tileData tile)) < 1)%Z
               ∧ (10 * Z.abs (col (tileData other) - c) < 1)%Z).

Definition tileAt (i : nat) (c r l : Z) (k : nat) : Tile :=
  {| tid := i; tileData := {| col := c; row := r; layer := l; tileType := k |};
     isFree := true; isRemoved := false |}.

(** Case analysis on membership in an explicit list. *)
Ltac each_member H tac :=
  set_unfold in H;
  repeat (let E := fresh "E" in destruct H as [E|H]; [subst; tac|]);
  try done.

Definition dropKind (k : nat) (slot : option nat) : option nat :=
  if decide (slot = Some k) then None else slot.

(** The slots of a hold area with kinds [ks] in its first slots. *)
Definition holdOf (ks : list nat) : list (option nat) :=
  (Some <$> ks) ++ replicate (SLOT_COUNT - length ks) None.

Definition holdNormal (slots : list (option nat)) : Prop :=
  ∃ ks, slots = holdOf ks ∧ length ks ≤ SLOT_COUNT ∧ NoDup ks.


Definition threeKinds : list (option nat) :=
  (addTile 3 (addTile 2 (addTile 1 HoldArea_create).1.1).1.1).1.1.

(** Kinds of the non-removed tiles, in board order. *)
Definition boardKinds (b : Board) : list nat := kindOf <$> activeTilesOf (tiles b).

Definition boardKindCount (k : nat) (b : Board) : nat := countKind k (boardKinds b).

Definition refresh (activeTiles : list Tile) (t : Tile) : Tile :=
  if isRemoved t then t else setFreeState (checkTileFree t activeTiles) t.

(** Marking the tile with a given identity. *)
Definition markIf (i : nat) (t : Tile) : Tile :=
  if decide (tid t = i) then markRemoved t else t.

(** The guards a tap has to pass for the turn to run. *)
Definition turnRuns (tile : Tile) (g : GameScene) : Prop :=
  isRemoved tile = false ∧ isFree tile = true
  ∧ overlayVisible g = false ∧ isProcessing g = false
  ∧ canAddTile (holdArea g) = true.

(** A tap starts a turn when the tapped tile exists and passes the guards. *)
Definition turnStarts (i : nat) (g : GameScene) : Prop :=
  ∃ tile, find (λ t, bool_decide (tid t = i)) (tiles (board g)) = Some tile
          ∧ turnRuns tile g.

Record coreInv (b : Board) (h : list (option nat)) : Prop := {
  inv_tids : NoDup (tid <$> tiles b);
  inv_hold : holdNormal h;
  inv_kinds : ∀ k, Nat.Even (boardKindCount k b + countKind k (occupiedKinds h));
  inv_total : Nat.Even (getRemainingCount b + getTileCount h);
}.

Definition sceneInv (g : GameScene) : Prop := coreInv (board g) (holdArea g).

Definition idleRnd : nat → nat := λ i, i.

Definition freshScene : GameScene := GameScene_create idleRnd None.

(** A session as [create] leaves it, but on a one-position layout. *)
Definition oneTileScene : GameScene :=
  setBoard (setOnWin (createFrom [Layouts.at_ 0 0 0] idleRnd)) freshScene.

Definition tapAll (taps : list nat) (g : GameScene) : GameScene :=
  foldl (λ acc i, (tapTile i 0 acc).1) g taps.

Definition lostScene : GameScene := tapAll [0; 6; 12; 18] freshScene.

(** The fields that [onHoldMatch] reads and writes. *)
Definition scoreState (g : GameScene) : Z * Z * Z * Z * option Z :=
  (score g, highScore g, comboCount g, lastMatchTime g, localStorage g).

Definition afterMatches (times : list Z) : GameScene :=
  foldl (λ g now, (onHoldMatch now g).1) freshScene times.

Definition freeNow (t : Tile) : Prop := isRemoved t = false ∧ isFree t = true.



(** ** Further vocabulary *)

(** The cached free flag of every non-removed tile is the free state
    computed from the tiles as they are. *)
Definition flagsFresh (ts : list Tile) : Prop :=
  ∀ t, t ∈ ts → isRemoved t = false → isFree t = checkTileFree t (activeTilesOf ts).


(** [Tile.updateDepth]: the value passed to [setDepth]. *)
Definition updateDepth (t : Tile) : Z :=
  (layer (tileData t) * 1000 + row (tileData t) * 10 + col (tileData t))%Z.

(** Lexicographic order on (layer, row, column). *)
Definition stackedBelow (t1 t2 : Tile) : Prop :=
  (layer (tileData t1) < layer (tileData t2)
   ∨ (layer (tileData t1) = layer (tileData t2)
      ∧ (row (tileData t1) < row (tileData t2)
         ∨ (row (tileData t1) = row (tileData t2)
            ∧ col (tileData t1) < col (tileData t2)))))%Z.

(** Match times that each follow the previous one by less than the combo
    window. *)
Fixpoint rapid (last : Z) (times : list Z) : Prop :=
  match times with
  | [] => True
  | now :: rest => (now - last < COMBO_TIME_WINDOW)%Z ∧ rapid now rest
  end.

(** The range of columns and rows in which [updateDepth] keeps the three
    coordinates apart. *)
Definition inDepthRange (t : Tile) : Prop :=
  (0 ≤ col (tileData t) < 10 ∧ 0 ≤ row (tileData t) < 100)%Z.

(** [matchingTiles.sort((a, b) => b.tileData.layer - a.tileData.layer)]:
    [Array.prototype.sort] is stable, so a tile is placed after the tiles of
    a strictly higher layer and before the others. *)
Fixpoint insertByLayer (t : Tile) (sorted : list Tile) : list Tile :=
  match sorted with
  | [] => [t]
  | s :: rest =>
      if decide (layer (tileData t) < layer (tileData s))%Z
      then s :: insertByLayer t rest
      else t :: sorted
  end.

Definition sortByLayer (ts : list Tile) : list Tile := foldr insertByLayer [] ts.

(** [Board.findTileAtPosition]; [containsPoint] is the test of the pointer
    position against the tile's rectangle
    ([x >= tileLeft && x <= tileRight && y >= tileTop && y <= tileBottom]). *)
Definition findTileAtPosition (containsPoint : Tile → bool) (ts : list Tile) : option Tile :=
  let matchingTiles :=
    filter (λ t, isRemoved t = false ∧ containsPoint t = true) ts in
  head (sortByLayer matchingTiles).

(** A board of three tiles in one row. *)
Definition threeTiles : Board :=
  {| tiles := [tileAt 0 0 0 0 1; tileAt 1 1 0 0 2; tileAt 2 2 0 0 3]; onWin := false |}.

(** ** The turn as the event loop runs it

    [onTileSelected], [removeTile], [addTile], [handleMatch] and
    [compactSlots] are [async]: each runs until its next [await] of a tween
    or timer and is resumed by a later task of the event loop.  Between two
    such tasks the buttons and the pointer handler run.  Continuations of
    promises that are already resolved run as microtasks, inside the task
    that resolved them. *)

(** [Board.destroy]: [this.tiles = []]; the callback fields stay. *)
Definition Board_destroy (b : Board) : Board := withTiles [] b.

(** The first half of [Board.removeTile]: [removeWithAnimation] sets
    [isRemoved] before the tween starts. *)
Definition beginRemoval (tile : Tile) (b : Board) : Board :=
  withTiles ((λ t, if decide (tid t = tid tile) then markRemoved t else t) <$> tiles b) b.

(** The second half, after the tween: [updateFreeTiles], and whether
    [this.onWin()] is called. *)
Definition finishRemoval (b : Board) : Board * bool :=
  let ts := updateFreeTiles (tiles b) in
  (withTiles ts b, bool_decide (length (activeTilesOf ts) = 0) && onWin b).

(** A suspended call with the locals its continuation reads.  Boards are
    numbered in the order of their creation; a hold slot by its index. *)
Inductive Task :=
  | AwaitRemoval (boardIndex : nat) (tile : Tile)
  | AwaitFlight (tileType : nat)
  | AwaitGlow (matching : list nat) (tileType : nat)
  | AwaitPairRemoval (armed : list nat) (tileType : nat)
  | AwaitCompaction (tileType : nat).

(** The scene, the boards that [newGame] has destroyed (oldest first; the
    board of the scene is the newest one), and the suspended calls. *)
Record Session := {
  scene : GameScene;
  destroyed : list Board;
  pending : list Task;
}.

Definition withScene (g : GameScene) (s : Session) : Session :=
  {| scene := g; destroyed := destroyed s; pending := pending s |}.

Definition suspend (task : Task) (s : Session) : Session :=
  {| scene := scene s; destroyed := destroyed s; pending := pending s ++ [task] |}.

Definition boardAt (boardIndex : nat) (s : Session) : Board :=
  default (board (scene s)) (destroyed s !! boardIndex).

Definition setBoardAt (boardIndex : nat) (b : Board) (s : Session) : Session :=
  if decide (boardIndex < length (destroyed s))
  then {| scene := scene s; destroyed := <[boardIndex := b]> (destroyed s);
          pending := pending s |}
  else withScene (setBoard b (scene s)) s.

(** The end of [onTileSelected], after [await this.holdArea.addTile(tile)]. *)
Definition endTurn (g : GameScene) : GameScene * list Signal :=
  let boardEmpty := bool_decide (getRemainingCount (board g) = 0) in
  let holdEmpty := bool_decide (getTileCount (holdArea g) = 0) in
  let won := if boardEmpty && holdEmpty then showWinScreen g else (g, []) in
  (setProcessing false won.1, won.2).

(** [onTileSelected] up to the tween of [removeWithAnimation]. *)
Definition selectTile (tile : Tile) (s : Session) : Session * list Signal :=
  let g := scene s in
  if overlayVisible g then (s, [])
  else if isProcessing g then (s, [])
  else if negb (canAddTile (holdArea g)) then (s, [HoldFullMessage])
  else
    let g1 := setProcessing true g in
    let g2 := setBoard (beginRemoval tile (board g1)) g1 in
    (suspend (AwaitRemoval (length (destroyed s)) tile) (withScene g2 s), []).

(** [Board.onTileClick] for the tile with identity [i] of the scene's
    board. *)
Definition tap (i : nat) (s : Session) : Session * list Signal :=
  match find (λ t, bool_decide (tid t = i)) (tiles (board (scene s))) with
  | None => (s, [])
  | Some tile =>
      match onTileClick tile with
      | ClickIgnored => (s, [])
      | ClickBlocked => (s, [TileBlocked])
      | ClickSelected => selectTile tile s
      end
  end.

(** After the removal tween: the rest of [removeTile] on the board the call
    was made on, then [addTile] up to the tween that moves the hold tile.
    The kind is read from the tapped tile, which no shuffle changes once it
    is removed. *)
Definition resumeRemoval (boardIndex : nat) (tile : Tile) (s : Session)
  : Session * list Signal :=
  let fin := finishRemoval (boardAt boardIndex s) in
  let s1 := setBoardAt boardIndex fin.1 s in
  let won1 := if fin.2 then GameScene_onWin (scene s1) else (scene s1, []) in
  match findEmptySlot (holdArea won1.1) with
  | None =>
      let ended := endTurn won1.1 in
      (withScene ended.1 s1, won1.2 ++ ended.2)
  | Some emptySlotIndex =>
      let slots := <[emptySlotIndex := Some (kindOf tile)]> (holdArea won1.1) in
      (suspend (AwaitFlight (kindOf tile)) (withScene (setHoldArea slots won1.1) s1),
       won1.2)
  end.

(** After the 200 ms tween of [addTile]: the pair check, or the game-over
    check and the end of the turn. *)
Definition resumeFlight (tileType : nat) (s : Session) : Session * list Signal :=
  let g := scene s in
  let matching := matchingSlots tileType (holdArea g) in
  if decide (2 ≤ length matching) then
    (suspend (AwaitGlow (take 2 matching) tileType) s, [])
  else
    let over :=
      if negb (canAddTile (holdArea g)) then
        let typeCounts := getTypesInHold (holdArea g) in
        let hasMatch :=
          existsb (λ count, bool_decide (2 ≤ count)) (map snd (map_to_list typeCounts)) in
        if negb hasMatch then onHoldAreaFull g else (g, [])
      else (g, []) in
    let ended := endTurn over.1 in
    (withScene ended.1 s, over.2 ++ ended.2).

(** The end of [handleMatch] and of the turn: [onMatch], then the rest of
    [onTileSelected]. *)
Definition finishMatch (now : Z) (s : Session) : Session * list Signal :=
  let scored := onHoldMatch now (scene s) in
  let ended := endTurn scored.1 in
  (withScene ended.1 s, scored.2 ++ ended.2).

(** [compactSlots] up to [await Promise.all(movePromises)]; with no tile
    left there is nothing to wait for. *)
Definition compactThenWait (tileType : nat) (now : Z) (s : Session)
  : Session * list Signal :=
  let slots := compactSlots (holdArea (scene s)) in
  let s1 := withScene (setHoldArea slots (scene s)) s in
  if decide (occupiedKinds slots = []) then finishMatch now s1
  else (suspend (AwaitCompaction tileType) s1, []).

(** After [delayedCall(180)]: the removal tween starts for every matching
    slot that still has a tile ([if (slot.tile)]). *)
Definition resumeGlow (matching : list nat) (tileType : nat) (now : Z) (s : Session)
  : Session * list Signal :=
  let armed := filter (λ i, is_Some (mjoin (holdArea (scene s) !! i))) matching in
  if decide (armed = []) then compactThenWait tileType now s
  else (suspend (AwaitPairRemoval armed tileType) s, []).

(** [slot.tile.destroy(); slot.tile = null] for one slot: on a slot that
    was emptied in the meantime the call throws. *)
Definition releaseSlot (acc : list (option nat) * bool) (i : nat)
  : list (option nat) * bool :=
  match acc.1 !! i with
  | Some (Some _) => (<[i := None]> acc.1, acc.2)
  | _ => (acc.1, true)
  end.

(** After the two removal tweens, which end in the same frame.  When a
    continuation has thrown, [Promise.all] rejects and nothing after the
    [await] runs: [handleMatch], [addTile] and [onTileSelected] end there. *)
Definition resumePairRemoval (armed : list nat) (tileType : nat) (now : Z) (s : Session)
  : Session * list Signal :=
  let released := foldl releaseSlot (holdArea (scene s), false) armed in
  let s1 := withScene (setHoldArea released.1 (scene s)) s in
  if released.2 then (s1, []) else compactThenWait tileType now s1.

Definition resumeTask (task : Task) (now : Z) (s : Session) : Session * list Signal :=
  match task with
  | AwaitRemoval boardIndex tile => resumeRemoval boardIndex tile s
  | AwaitFlight tileType => resumeFlight tileType s
  | AwaitGlow matching tileType => resumeGlow matching tileType now s
  | AwaitPairRemoval armed tileType => resumePairRemoval armed tileType now s
  | AwaitCompaction _ => finishMatch now s
  end.

(** What the event loop runs: a tap on a tile, the end of the tween or
    timer that the [n]-th suspended call waits for ([now] is [Date.now()]
    then), the three buttons, and the timer of [newGame].  Which suspended
    call resumes first is left open; the durations of the tweens allow only
    some of these orders, so the sessions of the code are among the runs of
    [step]. *)
Inductive Event :=
  | Tap (i : nat)
  | Resume (n : nat) (now : Z)
  | Restart (rnd : nat → nat)
  | Shuffle (rnd : nat → nat)
  | Hint
  | OverlayTimer.

Definition step (ev : Event) (s : Session) : Session * list Signal :=
  match ev with
  | Tap i => tap i s
  | Resume n now =>
      match pending s !! n with
      | None => (s, [])
      | Some task =>
          resumeTask task now
            {| scene := scene s; destroyed := destroyed s; pending := delete n (pending s) |}
      end
  | Restart rnd =>
      ({| scene := newGame rnd (scene s);
          destroyed := destroyed s ++ [Board_destroy (board (scene s))];
          pending := pending s |}, [])
  | Shuffle rnd =>
      let r := shuffleBoard rnd (scene s) in (withScene r.1 s, r.2)
  | Hint => let r := showHint (scene s) in (withScene r.1 s, r.2)
  | OverlayTimer => (withScene (overlayTimerFires (scene s)) s, [])
  end.

Definition run (evs : list Event) (s : Session) : Session * list Signal :=
  foldl (λ acc ev, let r := step ev acc.1 in (r.1, acc.2 ++ r.2)) (s, []) evs.

(** The events [evs] after a step with result [r]. *)
Definition andThen (r : Session * list Signal) (evs : list Event)
  : Session * list Signal :=
  ((run evs r.1).1, r.2 ++ (run evs r.1).2).

(** The session after [GameScene.create]. *)
Definition Session_create (rnd : nat → nat) (stored : option Z) : Session :=
  {| scene := GameScene_create rnd stored; destroyed := []; pending := [] |}.

Inductive sessionReachable : Session → Prop :=
  | session_created rnd stored : sessionReachable (Session_create rnd stored)
  | session_step ev s : sessionReachable s → sessionReachable (step ev s).1.

(** A session with no call in flight. *)
Definition idle (g : GameScene) (old : list Board) : Session :=
  {| scene := g; destroyed := old; pending := [] |}.

(** A tap and the tasks of its turn with no other event in between. *)
Definition wholeTurn (i : nat) (now : Z) : list Event :=
  Tap i :: replicate 5 (Resume 0 now).

(** * Properties *)

(** ** Counting kinds *)

Lemma countKind_nil k : countKind k [] = 0.
Proof. reflexivity. Qed.

Lemma countKind_cons k x l :
  countKind k (x :: l) = (if decide (x = k) then 1 else 0) + countKind k l.
Proof. unfold countKind. rewrite filter_cons. by destruct (decide (x = k)). Qed.

Lemma countKind_app k l1 l2 : countKind k (l1 ++ l2) = countKind k l1 + countKind k l2.
Proof. unfold countKind. by rewrite filter_app, length_app. Qed.

Lemma countKind_Permutation k l1 l2 : l1 ≡ₚ l2 → countKind k l1 = countKind k l2.
Proof. intros H. unfold countKind. by rewrite H. Qed.

Lemma countKind_replicate_other k n x : x ≠ k → countKind k (replicate n x) = 0.
Proof.
  intros Hx. induction n as [|n IH]; [done|].
  cbn [replicate]. rewrite countKind_cons, IH. by destruct (decide (x = k)).
Qed.

Lemma countKind_pos_elem k l : 0 < countKind k l ↔ k ∈ l.
Proof.
  induction l as [|x l IH].
  - rewrite countKind_nil. split; [lia|]. by intros ?%elem_of_nil.
  - rewrite countKind_cons, elem_of_cons.
    destruct (decide (x = k)) as [->|Hne]; [split; [by left|lia]|].
    rewrite Nat.add_0_l, IH. split; [by right|]. by intros [?|?].
Qed.

(** ** Kind generation *)

Lemma swap_Permutation i j a : swap i j a ≡ₚ a.
Proof.
  unfold swap. destruct (a !! i) as [x|] eqn:Hi; [|done].
  destruct (a !! j) as [y|] eqn:Hj; [|done].
  by apply Permutation_insert_swap.
Qed.

Lemma fisherYatesFrom_Permutation rnd i types : fisherYatesFrom rnd i types ≡ₚ types.
Proof.
  revert types. induction i as [|i IH]; intros types; [done|].
  cbn [fisherYatesFrom]. rewrite IH. apply swap_Permutation.
Qed.

Lemma fisherYates_Permutation rnd types : fisherYates rnd types ≡ₚ types.
Proof. apply fisherYatesFrom_Permutation. Qed.

Lemma fisherYates_length rnd types : length (fisherYates rnd types) = length types.
Proof. by rewrite fisherYates_Permutation. Qed.

Lemma pushPairs_loop P (acc : list nat) (l : list nat) :
  foldl (λ types i, types ++ [i mod P; i mod P]) acc l
  = acc ++ flat_map (λ i, [i mod P; i mod P]) l.
Proof.
  revert acc. induction l as [|i l IH]; intros acc; cbn [foldl flat_map].
  - by rewrite app_nil_r.
  - rewrite IH. by rewrite <- app_assoc.
Qed.

Lemma pushPairs_flat_map P n :
  pushPairs P n = flat_map (λ i, [i mod P; i mod P]) (seq 0 n).
Proof. unfold pushPairs. by rewrite pushPairs_loop. Qed.

Lemma length_pairs P (l : list nat) :
  length (flat_map (λ i, [i mod P; i mod P]) l) = 2 * length l.
Proof. induction l as [|i l IH]; cbn [flat_map length app]; lia. Qed.

Lemma pushPairs_length P n : length (pushPairs P n) = 2 * n.
Proof. by rewrite pushPairs_flat_map, length_pairs, length_seq. Qed.

Lemma padWithZero_closed fuel count types :
  count - length types ≤ fuel →
  padWithZero fuel count types = types ++ replicate (count - length types) 0.
Proof.
  revert types. induction fuel as [|fuel IH]; intros types Hfuel; cbn [padWithZero].
  - replace (count - length types) with 0 by lia. by rewrite app_nil_r.
  - destruct (decide (length types < count)) as [Hlt|Hge].
    + rewrite IH by (rewrite length_app; cbn; lia).
      rewrite length_app. cbn [length].
      replace (count - length types) with (S (count - (length types + 1))) by lia.
      cbn [replicate]. by rewrite <- app_assoc.
    + replace (count - length types) with 0 by lia. by rewrite app_nil_r.
Qed.

Lemma unshuffledTypes_closed P N :
  unshuffledTypes P N
  = flat_map (λ i, [i mod P; i mod P]) (seq 0 (N / 2)) ++ replicate (N mod 2) 0.
Proof.
  unfold unshuffledTypes. rewrite padWithZero_closed by lia.
  rewrite pushPairs_length, pushPairs_flat_map.
  f_equal. f_equal. pose proof (Nat.div_mod_eq N 2). lia.
Qed.

Lemma countKind_pairs_even P k (l : list nat) :
  Nat.Even (countKind k (flat_map (λ i, [i mod P; i mod P]) l)).
Proof.
  induction l as [|i l [c Hc]]; cbn [flat_map].
  - by exists 0.
  - change ([i mod P; i mod P] ++ ?r) with (i mod P :: i mod P :: r).
    rewrite !countKind_cons, Hc.
    destruct (decide (i mod P = k)); [exists (S c) | exists c]; lia.
Qed.

Lemma unshuffledTypes_below P N : 0 < P → Forall (λ k, k < P) (unshuffledTypes P N).
Proof.
  intros HP. rewrite unshuffledTypes_closed. apply Forall_app. split.
  - apply Forall_forall. intros k Hk.
    apply list_elem_of_In, in_flat_map in Hk as (i & _ & Hi).
    assert (i mod P < P) by (apply Nat.mod_upper_bound; lia).
    destruct Hi as [<-|[<-|[]]]; done.
  - apply Forall_replicate. lia.
Qed.

Lemma generateTileTypesForPairs_Permutation P rnd N :
  generateTileTypesForPairs P rnd N ≡ₚ unshuffledTypes P N.
Proof. apply fisherYates_Permutation. Qed.

Lemma generateTileTypesForPairs_length P rnd N :
  length (generateTileTypesForPairs P rnd N) = N.
Proof.
  rewrite generateTileTypesForPairs_Permutation, unshuffledTypes_closed, length_app,
    length_pairs, length_seq, length_replicate.
  pose proof (Nat.div_mod_eq N 2). lia.
Qed.

Lemma generateTileTypesForPairs_even P rnd N k :
  Nat.Even N → Nat.Even (countKind k (generateTileTypesForPairs P rnd N)).
Proof.
  intros [h Hh].
  rewrite (countKind_Permutation _ _ _ (generateTileTypesForPairs_Permutation P rnd N)).
  rewrite unshuffledTypes_closed.
  assert (N mod 2 = 0) as ->.
  { subst N. rewrite Nat.mul_comm. apply Nat.Div0.mod_mul. }
  cbn [replicate]. rewrite app_nil_r. apply countKind_pairs_even.
Qed.

(** C5. [generateTileTypesForPairs] permutes the list made of
    [floor(N/2)] pairs of kinds [i mod P] followed by one kind 0 when [N]
    is odd: the result has length [N], its kinds lie in [[0, P)], and for
    even [N] every kind occurs an even number of times. *)
Theorem generateTileTypesForPairs_pairs (P N : nat) (rnd : nat → nat) :
  let pairCount := N / 2 in
  let types := generateTileTypesForPairs P rnd N in
  types ≡ₚ flat_map (λ i, [i mod P; i mod P]) (seq 0 pairCount) ++ replicate (N mod 2) 0
  ∧ length types = N
  ∧ (0 < P → Forall (λ k, k < P) types)
  ∧ (Nat.Even N → ∀ k, Nat.Even (countKind k types)).
Proof.
  cbn zeta.
  split; [by rewrite generateTileTypesForPairs_Permutation, unshuffledTypes_closed|].
  split; [apply generateTileTypesForPairs_length|].
  split.
  - intros HP. rewrite generateTileTypesForPairs_Permutation.
    by apply unshuffledTypes_below.
  - intros Heven k. by apply generateTileTypesForPairs_even.
Qed.

Lemma generateTileTypesForPairs_pairs_witness :
  let types := generateTileTypesForPairs 22 (λ i, 7 * i + 3) 44 in
  Forall (λ k, k < 22) types ∧ ∀ k, Nat.Even (countKind k types).
Proof.
  destruct (generateTileTypesForPairs_pairs 22 44 (λ i, 7 * i + 3)) as (_ & _ & Hlt & Hev).
  split; [apply Hlt; lia | apply Hev; by exists 22].
Defined.

(** ** Free-state computation *)

Lemma sideStep_once tile (o : Tile) (l r : bool) :
  sideStep tile (l, r) o
  = (l || blocksSide (col (tileData tile) - 1) tile o,
     r || blocksSide (col (tileData tile) + 1) tile o).
Proof.
  unfold sideStep, blocksSide. cbn [fst snd].
  destruct (decide (tid o = tid tile)) as [Hid|Hid].
  { rewrite !bool_decide_eq_false_2 by (by intros (?&_)). by rewrite !orb_false_r. }
  destruct (decide (layer (tileData o) ≠ layer (tileData tile))) as [Hl|Hl].
  { rewrite !bool_decide_eq_false_2 by (by intros (_&?&_)). by rewrite !orb_false_r. }
  apply dec_stable in Hl.
  destruct (decide (1 ≤ Z.abs (row (tileData o) - row (tileData tile)))%Z) as [Hr|Hr].
  { rewrite !bool_decide_eq_false_2 by (intros (_&_&?&_); lia). by rewrite !orb_false_r. }
  f_equal.
  - case_decide.
    + rewrite bool_decide_eq_true_2 by (repeat split; (done || lia)). by rewrite orb_true_r.
    + rewrite bool_decide_eq_false_2 by (intros (_&_&_&?); lia). by rewrite orb_false_r.
  - case_decide.
    + rewrite bool_decide_eq_true_2 by (repeat split; (done || lia)). by rewrite orb_true_r.
    + rewrite bool_decide_eq_false_2 by (intros (_&_&_&?); lia). by rewrite orb_false_r.
Qed.

Lemma sideStep_fold tile (others : list Tile) (l r : bool) :
  foldl (sideStep tile) (l, r) others
  = (l || existsb (blocksSide (col (tileData tile) - 1) tile) others,
     r || existsb (blocksSide (col (tileData tile) + 1) tile) others).
Proof.
  revert l r. induction others as [|o others IH]; intros l r; cbn [foldl existsb].
  - by rewrite !orb_false_r.
  - rewrite sideStep_once, IH. by rewrite !orb_assoc.
Qed.

Section CheckTileFree.
Variable tile : Tile.
Variable activeTiles : list Tile.
(** Distinct objects have distinct identities. *)
Hypothesis identity : ∀ other, other ∈ activeTiles → tid other = tid tile → other = tile.

Lemma blocksSide_inCell c :
  c ≠ col (tileData tile) →
  existsb (blocksSide c tile) activeTiles = true
  ↔ ∃ other, other ∈ activeTiles ∧ inCell c tile other.
Proof using identity.
  intros Hc. rewrite existsb_exists. split.
  - intros (o & Ho%list_elem_of_In & Hb). exists o. split; [done|].
    unfold blocksSide in Hb. apply bool_decide_eq_true in Hb as (_ & Hl & Hr & Hcol).
    unfold inCell. repeat split; [lia | lia | done].
  - intros (o & Ho & Hcol & Hrow & Hlayer). exists o.
    split; [by apply list_elem_of_In|].
    apply bool_decide_eq_true. repeat split; [|done|lia|lia].
    intros Hid. apply identity in Hid; [|done]. subst o. done.
Qed.

Lemma coversFromAbove_spec :
  existsb (coversFromAbove tile) activeTiles = true
  ↔ ∃ other, other ∈ activeTiles
      ∧ (layer (tileData tile) < layer (tileData other))%Z
      ∧ (Z.abs (col (tileData other) - col (tileData tile)) < 1)%Z
      ∧ (Z.abs (row (tileData other) - row (tileData tile)) < 1)%Z.
Proof using identity.
  rewrite existsb_exists. split.
  - intros (o & Ho%list_elem_of_In & Hc). exists o. split; [done|].
    unfold coversFromAbove in Hc. repeat case_decide; try done.
    apply bool_decide_eq_true in Hc. lia.
  - intros (o & Ho & Hl & Hcol & Hrow). exists o.
    split; [by apply list_elem_of_In|].
    unfold coversFromAbove.
    destruct (decide (tid o = tid tile)) as [Hid|_].
    { apply identity in Hid; [|done]. subst o. lia. }
    destruct (decide (layer (tileData o) ≤ layer (tileData tile))%Z); [lia|].
    by apply bool_decide_eq_true.
Qed.

(** C2. [checkTileFree] returns [false] when some active tile on a
    strictly higher layer is less than one column and less than one row
    away; otherwise it returns [false] exactly when the cells to the left
    and to the right on the same row and layer both hold an active tile;
    in every other case it returns [true]. *)
Theorem checkTileFree_rule :
  let covered :=
    ∃ other, other ∈ activeTiles
      ∧ (layer (tileData tile) < layer (tileData other))%Z
      ∧ (Z.abs (col (tileData other) - col (tileData tile)) < 1)%Z
      ∧ (Z.abs (row (tileData other) - row (tileData tile)) < 1)%Z in
  let leftTaken :=
    ∃ other, other ∈ activeTiles ∧ inCell (col (tileData tile) - 1) tile other in
  let rightTaken :=
    ∃ other, other ∈ activeTiles ∧ inCell (col (tileData tile) + 1) tile other in
  (covered → checkTileFree tile activeTiles = false)
  ∧ (¬ covered → (checkTileFree tile activeTiles = false ↔ leftTaken ∧ rightTaken))
  ∧ (¬ covered → ¬ (leftTaken ∧ rightTaken) → checkTileFree tile activeTiles = true).
Proof using identity.
  cbn zeta. rewrite <- coversFromAbove_spec.
  rewrite <- !blocksSide_inCell by lia.
  unfold checkTileFree. rewrite sideStep_fold. cbn [fst snd orb].
  destruct (existsb (coversFromAbove tile) activeTiles);
    destruct (existsb (blocksSide _ tile) activeTiles);
    destruct (existsb (blocksSide _ tile) activeTiles); cbn; naive_solver.
Qed.
End CheckTileFree.

Lemma checkTileFree_rule_witness :
  checkTileFree (tileAt 1 1 0 0 5) [tileAt 0 0 0 0 4; tileAt 1 1 0 0 5; tileAt 2 2 0 0 6] = false
  ∧ checkTileFree (tileAt 0 0 0 0 4) [tileAt 0 0 0 0 4; tileAt 1 1 0 0 5; tileAt 7 0 0 1 6] = false
  ∧ checkTileFree (tileAt 0 0 0 0 4) [tileAt 0 0 0 0 4; tileAt 1 1 0 0 5] = true.
Proof.
  split; [|split].
  - destruct (checkTileFree_rule (tileAt 1 1 0 0 5)
                [tileAt 0 0 0 0 4; tileAt 1 1 0 0 5; tileAt 2 2 0 0 6]) as (_ & Hboth & _).
    { intros o Ho Hid. each_member Ho ltac:(cbn in Hid; (done || lia)). }
    apply Hboth.
    + intros (o & Ho & Hl & _). each_member Ho ltac:(cbn in Hl; lia).
    + split.
      * exists (tileAt 0 0 0 0 4). split; [set_solver|]. by repeat split.
      * exists (tileAt 2 2 0 0 6). split; [set_solver|]. by repeat split.
  - destruct (checkTileFree_rule (tileAt 0 0 0 0 4)
                [tileAt 0 0 0 0 4; tileAt 1 1 0 0 5; tileAt 7 0 0 1 6]) as (Hcov & _ & _).
    { intros o Ho Hid. each_member Ho ltac:(cbn in Hid; (done || lia)). }
    apply Hcov.
    exists (tileAt 7 0 0 1 6). split; [set_solver|]. cbn. lia.
  - destruct (checkTileFree_rule (tileAt 0 0 0 0 4)
                [tileAt 0 0 0 0 4; tileAt 1 1 0 0 5]) as (_ & _ & Hfree).
    { intros o Ho Hid. each_member Ho ltac:(cbn in Hid; (done || lia)). }
    apply Hfree.
    + intros (o & Ho & Hl & _). each_member Ho ltac:(cbn in Hl; lia).
    + intros [(o & Ho & Hc & _) _]. each_member Ho ltac:(cbn in Hc; lia).
Defined.

(** ** Hold area: slots as arrays *)

Lemma filter_ext_elem {A} (P Q : A → Prop) `{∀ x, Decision (P x)} `{∀ x, Decision (Q x)}
    (l : list A) :
  (∀ x, x ∈ l → P x ↔ Q x) → filter P l = filter Q l.
Proof.
  induction l as [|x l IH]; intros Hext; [done|].
  rewrite !filter_cons.
  assert (P x ↔ Q x) as Hx by (apply Hext; left).
  rewrite IH by (intros y Hy; apply Hext; by right).
  destruct (decide (P x)), (decide (Q x)); naive_solver.
Qed.

Lemma occupiedKinds_app s1 s2 : occupiedKinds (s1 ++ s2) = occupiedKinds s1 ++ occupiedKinds s2.
Proof. apply omap_app. Qed.

Lemma occupiedKinds_Some (ks : list nat) : occupiedKinds (Some <$> ks) = ks.
Proof. induction ks as [|k ks IH]; [done|]. cbn. by f_equal. Qed.

Lemma occupiedKinds_None n : occupiedKinds (replicate n None) = [].
Proof. induction n; [done|]. by cbn. Qed.

Lemma occupiedKinds_length s : length (occupiedKinds s) = getTileCount s.
Proof.
  unfold getTileCount, occupiedKinds. induction s as [|[k|] s IH]; [done|..].
  - rewrite filter_cons_True by done. cbn. by f_equal.
  - rewrite filter_cons_False by (by intros ?). by cbn.
Qed.

Lemma getTileCount_le s : getTileCount s ≤ length s.
Proof. apply length_filter. Qed.

Lemma canAddTile_false s : canAddTile s = false ↔ getTileCount s = length s.
Proof.
  unfold canAddTile, getTileCount. induction s as [|[k|] s IH]; [done|..]; cbn [existsb length].
  - rewrite filter_cons_True by done. rewrite bool_decide_eq_false_2 by done.
    cbn. rewrite IH. lia.
  - rewrite filter_cons_False by (by intros ?). rewrite bool_decide_eq_true_2 by done.
    cbn. pose proof (length_filter (λ slot : option nat, slot ≠ None) s). split; [done|lia].
Qed.

Lemma matchingSlots_snoc k s x :
  matchingSlots k (s ++ [x])
  = matchingSlots k s ++ (if decide (x = Some k) then [length s] else []).
Proof.
  unfold matchingSlots. rewrite length_app. cbn [length].
  rewrite seq_app, filter_app. cbn [seq Nat.add]. f_equal.
  - apply filter_ext_elem. intros i Hi%elem_of_seq.
    by rewrite lookup_app_l by lia.
  - rewrite filter_cons, filter_nil.
    rewrite list_lookup_middle by done.
    destruct (decide (Some x = Some (Some k))), (decide (x = Some k)); naive_solver.
Qed.

Lemma matchingSlots_elem k s i : i ∈ matchingSlots k s ↔ s !! i = Some (Some k).
Proof.
  unfold matchingSlots. rewrite list_elem_of_filter, elem_of_seq.
  split; [by intros [? _]|]. intros Hi. split; [done|].
  apply lookup_lt_Some in Hi. lia.
Qed.

Lemma matchingSlots_length k s : length (matchingSlots k s) = countKind k (occupiedKinds s).
Proof.
  induction s as [|x s IH] using rev_ind; [done|].
  rewrite matchingSlots_snoc, occupiedKinds_app, countKind_app, length_app, IH.
  f_equal. destruct x as [k'|]; cbn.
  - rewrite countKind_cons, countKind_nil.
    destruct (decide (Some k' = Some k)), (decide (k' = k)); naive_solver.
  - by destruct (decide (None = Some k)).
Qed.

(** The kinds recorded in the [typeCounts] map. *)
Lemma getTypesInHold_lookup s k :
  getTypesInHold s !! k
  = if decide (countKind k (occupiedKinds s) = 0) then None
    else Some (countKind k (occupiedKinds s)).
Proof.
  unfold getTypesInHold. induction s as [|x s IH] using rev_ind; [done|].
  rewrite foldl_snoc, occupiedKinds_app, countKind_app.
  destruct x as [t|]; cbn.
  - rewrite countKind_cons, countKind_nil.
    destruct (decide (t = k)) as [->|Hne].
    + rewrite lookup_insert_eq, IH.
      destruct (decide (countKind k (occupiedKinds s) = 0)) as [Hc|Hc]; cbn;
        (destruct (decide _); [lia|]); f_equal; lia.
    + rewrite lookup_insert_ne by done. rewrite IH.
      by rewrite !Nat.add_0_r.
  - by rewrite IH, countKind_nil, Nat.add_0_r.
Qed.

Lemma hasMatch_spec s :
  existsb (λ count, bool_decide (2 ≤ count)) (map snd (map_to_list (getTypesInHold s))) = true
  ↔ ∃ k, 2 ≤ countKind k (occupiedKinds s).
Proof.
  rewrite existsb_exists. split.
  - intros (c & Hc & Hge). apply in_map_iff in Hc as ([k c'] & <- & Hin).
    apply list_elem_of_In, elem_of_map_to_list in Hin.
    rewrite getTypesInHold_lookup in Hin. apply bool_decide_eq_true in Hge.
    exists k. destruct (decide _); [done|]. cbn in *. by simplify_eq.
  - intros (k & Hk). exists (countKind k (occupiedKinds s)).
    split; [|by apply bool_decide_eq_true].
    apply in_map_iff. exists (k, countKind k (occupiedKinds s)). split; [done|].
    apply list_elem_of_In, elem_of_map_to_list. rewrite getTypesInHold_lookup.
    destruct (decide _); [lia|done].
Qed.

Lemma clear_replicate (s : list (option nat)) :
  map (λ _, None) s = replicate (length s) (@None nat).
Proof. induction s as [|x s IH]; [done|]. cbn. by f_equal. Qed.

Lemma refill_closed (ks : list nat) n :
  length ks ≤ n →
  foldl (λ acc (it : nat * nat), <[it.1 := Some it.2]> acc) (replicate n None) (imap pair ks)
  = (Some <$> ks) ++ replicate (n - length ks) None.
Proof.
  induction ks as [|k ks IH] using rev_ind; intros Hn.
  - cbn. by rewrite Nat.sub_0_r.
  - rewrite length_app in Hn. cbn [length] in Hn.
    rewrite imap_app, foldl_app, IH by lia. cbn [imap foldl fst snd].
    rewrite Nat.add_0_r.
    rewrite insert_app_r_alt by (by rewrite length_fmap).
    rewrite length_fmap, Nat.sub_diag, fmap_app, length_app. cbn [length fmap list_fmap].
    replace (n - length ks) with (S (n - (length ks + 1))) by lia.
    cbn [replicate]. by rewrite <- app_assoc.
Qed.

Lemma compactSlots_closed s :
  compactSlots s
  = (Some <$> occupiedKinds s) ++ replicate (length s - getTileCount s) None.
Proof.
  unfold compactSlots. rewrite clear_replicate.
  change (omap id s) with (occupiedKinds s).
  rewrite refill_closed by (rewrite occupiedKinds_length; apply getTileCount_le).
  by rewrite occupiedKinds_length.
Qed.

(** Emptying the slots listed in [idxs]. *)
Lemma clear_lookup (idxs : list nat) (s : list (option nat)) j :
  foldl (λ acc i, <[i := None]> acc) s idxs !! j
  = if decide (j ∈ idxs) then (λ _, None) <$> s !! j else s !! j.
Proof.
  revert s. induction idxs as [|a idxs IH]; intros s; cbn [foldl].
  - destruct (decide (j ∈ [])) as [Hin|_]; [by apply elem_of_nil in Hin|done].
  - rewrite IH, list_lookup_insert.
    assert (∀ x : option (option nat), (λ _, @None nat) <$> ((λ _, @None nat) <$> x)
                                       = (λ _, @None nat) <$> x) as Hidem by (by intros [?|]).
    destruct (decide (j ∈ a :: idxs)) as [Hin|Hnin];
      destruct (decide (j ∈ idxs)) as [Hin'|Hnin'];
      destruct (decide (a = j ∧ a < length s)) as [[-> Hlt]|Hne];
      rewrite ?elem_of_cons in *; try done.
    all: try (by destruct (lookup_lt_is_Some_2 s j Hlt) as [x ->]).
    all: try (exfalso; naive_solver).
    destruct Hin as [->|?]; [|done]. rewrite lookup_ge_None_2; [done|]. lia.
Qed.

Lemma clear_matching k s :
  foldl (λ acc i, <[i := None]> acc) s (matchingSlots k s) = dropKind k <$> s.
Proof.
  apply list_eq. intros j. rewrite clear_lookup, list_lookup_fmap.
  destruct (decide (j ∈ matchingSlots k s)) as [Hin|Hnin].
  - apply matchingSlots_elem in Hin. rewrite Hin. cbn. unfold dropKind.
    by rewrite decide_True.
  - destruct (s !! j) as [x|] eqn:Hj; [|done]. cbn. unfold dropKind.
    destruct (decide (x = Some k)) as [->|_]; [|done].
    by apply matchingSlots_elem in Hj.
Qed.

Lemma occupiedKinds_cons_Some x s : occupiedKinds (Some x :: s) = x :: occupiedKinds s.
Proof. done. Qed.

Lemma occupiedKinds_cons_None s : occupiedKinds (None :: s) = occupiedKinds s.
Proof. done. Qed.

Lemma occupiedKinds_dropKind k s :
  occupiedKinds (dropKind k <$> s) = filter (λ x, x ≠ k) (occupiedKinds s).
Proof.
  induction s as [|[x|] s IH]; [done|..]; rewrite fmap_cons; unfold dropKind at 1.
  - rewrite occupiedKinds_cons_Some.
    destruct (decide (Some x = Some k)) as [[= ->]|Hne].
    + rewrite occupiedKinds_cons_None, filter_cons_False by (by intros ?). done.
    + rewrite occupiedKinds_cons_Some, filter_cons_True by congruence. by rewrite IH.
  - rewrite decide_False by done. by rewrite !occupiedKinds_cons_None.
Qed.

Lemma filter_other_length k (l : list nat) :
  length (filter (λ x, x ≠ k) l) + countKind k l = length l.
Proof.
  induction l as [|x l IH]; [done|].
  rewrite countKind_cons, filter_cons. cbn [length].
  destruct (decide (x = k)), (decide (x ≠ k)); cbn [length]; (done || lia).
Qed.

Lemma countKind_NoDup k (l : list nat) :
  NoDup l → countKind k l = if decide (k ∈ l) then 1 else 0.
Proof.
  induction 1 as [|x l Hx Hnd IH]; [done|].
  rewrite countKind_cons, IH.
  destruct (decide (x = k)) as [->|Hne].
  - rewrite decide_False by done. by rewrite decide_True by (apply elem_of_cons; by left).
  - destruct (decide (k ∈ l)).
    + by rewrite decide_True by (apply elem_of_cons; by right).
    + rewrite decide_False; [done|]. intros [->|?]%elem_of_cons; done.
Qed.

Lemma countKind_NoDup_iff (l : list nat) : NoDup l ↔ ∀ k, countKind k l ≤ 1.
Proof.
  split.
  - intros Hnd k. rewrite countKind_NoDup by done. case_decide; lia.
  - induction l as [|x l IH]; intros Hc; [constructor|].
    constructor.
    + intros Hx%countKind_pos_elem. specialize (Hc x).
      rewrite countKind_cons, decide_True in Hc by done. lia.
    + apply IH. intros k. specialize (Hc k). rewrite countKind_cons in Hc. lia.
Qed.

(** ** Hold area: normal form of the slots *)

Lemma findEmptySlot_full (ks : list nat) : findEmptySlot (Some <$> ks) = None.
Proof.
  unfold findEmptySlot. rewrite (proj2 (list_find_None _ _)); [done|].
  apply Forall_fmap, Forall_forall. by intros.
Qed.

Lemma findEmptySlot_prefix (ks : list nat) m :
  findEmptySlot ((Some <$> ks) ++ replicate (S m) None) = Some (length ks).
Proof.
  unfold findEmptySlot. rewrite list_find_app_r.
  - cbn. rewrite decide_True by done. cbn. by rewrite length_fmap.
  - apply list_find_None, Forall_fmap, Forall_forall. by intros.
Qed.

Lemma insert_prefix (ks : list nat) m k :
  <[length ks := Some k]> ((Some <$> ks) ++ replicate (S m) None)
  = (Some <$> ks ++ [k]) ++ replicate m None.
Proof.
  rewrite insert_app_r_alt by (by rewrite length_fmap).
  rewrite length_fmap, Nat.sub_diag, fmap_app. cbn. by rewrite <- app_assoc.
Qed.

Lemma occupiedKinds_prefix (ks : list nat) m :
  occupiedKinds ((Some <$> ks) ++ replicate m None) = ks.
Proof. by rewrite occupiedKinds_app, occupiedKinds_Some, occupiedKinds_None, app_nil_r. Qed.

Lemma getTileCount_prefix (ks : list nat) m :
  getTileCount ((Some <$> ks) ++ replicate m None) = length ks.
Proof. by rewrite <- occupiedKinds_length, occupiedKinds_prefix. Qed.

(** [addTile] on slots whose occupied part is a prefix without repeated
    kind. *)
Lemma addTile_prefix k (ks : list nat) m :
  NoDup ks →
  addTile k ((Some <$> ks) ++ replicate m None)
  = match m with
    | 0 => ((Some <$> ks) ++ replicate m None, {| matched := false; matchCount := 0 |}, [])
    | S m' =>
        if decide (k ∈ ks)
        then ((Some <$> filter (λ x, x ≠ k) ks) ++ replicate (S m) None,
              {| matched := true; matchCount := 2 |}, [OnMatch k 2])
        else ((Some <$> ks ++ [k]) ++ replicate m' None,
              {| matched := false; matchCount := 0 |},
              if decide (m' = 0) then [OnGameOver] else [])
    end.
Proof.
  intros Hnd. unfold addTile. destruct m as [|m'].
  { cbn [replicate]. rewrite app_nil_r. by rewrite findEmptySlot_full. }
  rewrite findEmptySlot_prefix, insert_prefix.
  set (s1 := (Some <$> ks ++ [k]) ++ replicate m' None).
  assert (occupiedKinds s1 = ks ++ [k]) as Hocc by apply occupiedKinds_prefix.
  assert (length (matchingSlots k s1) = S (countKind k ks)) as Hlen.
  { rewrite matchingSlots_length, Hocc, countKind_app, countKind_cons, countKind_nil.
    rewrite decide_True by done. lia. }
  rewrite Hlen, (countKind_NoDup k ks Hnd).
  destruct (decide (k ∈ ks)) as [Hin|Hnin].
  - rewrite decide_True by lia. unfold handleMatch.
    rewrite take_ge by (rewrite Hlen, (countKind_NoDup k ks Hnd), decide_True by done; lia).
    rewrite clear_matching, compactSlots_closed, occupiedKinds_dropKind, Hocc.
    rewrite <- occupiedKinds_length, occupiedKinds_dropKind, Hocc.
    rewrite filter_app, filter_cons_False, filter_nil, app_nil_r by (by intros ?).
    rewrite length_fmap. subst s1. rewrite length_app, length_fmap, length_app, length_replicate.
    cbn [length].
    pose proof (filter_other_length k ks) as Hf.
    rewrite (countKind_NoDup k ks Hnd), decide_True in Hf by done.
    by replace (length ks + 1 + m' - length (filter (λ x, x ≠ k) ks)) with (S (S m')) by lia.
  - rewrite decide_False by lia.
    destruct (canAddTile s1) eqn:Hcan; cbn [negb].
    + rewrite decide_False; [done|]. intros ->.
      apply not_false_iff_true in Hcan. apply Hcan, canAddTile_false.
      subst s1. cbn [replicate]. rewrite app_nil_r.
      by rewrite <- occupiedKinds_length, occupiedKinds_Some, length_fmap.
    + apply canAddTile_false in Hcan. subst s1.
      rewrite getTileCount_prefix in Hcan.
      repeat (rewrite ?length_app, ?length_fmap, ?length_replicate in Hcan).
      cbn [length] in Hcan. rewrite decide_True by lia.
      set (s1 := (Some <$> ks ++ [k]) ++ replicate m' None) in *.
      destruct (existsb _ _) eqn:Hhas; [|done].
      apply hasMatch_spec in Hhas as (k' & Hk'). rewrite Hocc in Hk'.
      assert (NoDup (ks ++ [k])) as Hnd'.
      { apply NoDup_app. split; [done|]. split; [|apply NoDup_singleton].
        intros x Hx ->%list_elem_of_singleton. done. }
      pose proof (proj1 (countKind_NoDup_iff _) Hnd' k'). lia.
Qed.

Lemma filter_length_le {A} (P : A → Prop) `{∀ x, Decision (P x)} (l : list A) :
  length (filter P l) ≤ length l.
Proof. apply length_filter. Qed.

Lemma addTile_holdOf k (ks : list nat) :
  length ks ≤ SLOT_COUNT → NoDup ks →
  addTile k (holdOf ks)
  = if decide (length ks = SLOT_COUNT)
    then (holdOf ks, {| matched := false; matchCount := 0 |}, [])
    else if decide (k ∈ ks)
    then (holdOf (filter (λ x, x ≠ k) ks), {| matched := true; matchCount := 2 |},
          [OnMatch k 2])
    else (holdOf (ks ++ [k]), {| matched := false; matchCount := 0 |},
          if decide (length ks + 1 = SLOT_COUNT) then [OnGameOver] else []).
Proof.
  intros Hlen Hnd. unfold holdOf. rewrite addTile_prefix by done.
  destruct (decide (length ks = SLOT_COUNT)) as [->|Hne].
  { by rewrite Nat.sub_diag. }
  destruct (SLOT_COUNT - length ks) as [|m'] eqn:Hm; [lia|].
  destruct (decide (k ∈ ks)) as [Hin|Hnin].
  - pose proof (filter_other_length k ks) as Hf.
    rewrite (countKind_NoDup k ks Hnd), decide_True in Hf by done.
    by replace (SLOT_COUNT - length (filter (λ x, x ≠ k) ks)) with (S (S m')) by lia.
  - rewrite length_app. cbn [length].
    replace (SLOT_COUNT - (length ks + 1)) with m' by lia.
    destruct (decide (m' = 0)), (decide (length ks + 1 = SLOT_COUNT)); (done || lia).
Qed.

Lemma holdReachable_normal slots : holdReachable slots → holdNormal slots.
Proof.
  induction 1 as [|k slots _ (ks & -> & Hlen & Hnd)|slots _ (ks & -> & Hlen & Hnd)].
  - exists []. split; [done|]. split; [cbn; lia|constructor].
  - rewrite addTile_holdOf by done.
    destruct (decide (length ks = SLOT_COUNT)); [by exists ks|].
    destruct (decide (k ∈ ks)) as [Hin|Hnin]; cbn [fst].
    + exists (filter (λ x, x ≠ k) ks). split; [done|]. split.
      * pose proof (filter_length_le (λ x, x ≠ k) ks). lia.
      * by apply NoDup_filter.
    + exists (ks ++ [k]). split; [done|]. split.
      * rewrite length_app. cbn [length]. lia.
      * apply NoDup_app. split; [done|]. split; [|apply NoDup_singleton].
        intros x Hx ->%list_elem_of_singleton. done.
  - exists []. split; [|split; [cbn; lia|constructor]].
    unfold HoldArea_clear, holdOf. rewrite clear_replicate, length_app, length_fmap,
      length_replicate. cbn [fmap list_fmap length app]. f_equal. lia.
Qed.

(** ** Hold area: compaction, loss signal, distinct kinds *)


Lemma holdOf_length (ks : list nat) : length ks ≤ SLOT_COUNT → length (holdOf ks) = SLOT_COUNT.
Proof.
  intros Hlen. unfold holdOf. rewrite length_app, length_fmap, length_replicate. lia.
Qed.

Lemma holdReachable_length slots : holdReachable slots → length slots = SLOT_COUNT.
Proof. intros (ks & -> & Hlen & _)%holdReachable_normal. by apply holdOf_length. Qed.


Lemma threeKinds_reachable : holdReachable threeKinds.
Proof. repeat apply hold_added. apply hold_created. Qed.


(** C4. With four slots, [addTile] emits the game-over signal exactly when
    it found an empty slot and, with the kind placed there, all four slots
    are occupied and no kind occurs twice or more; a call that reports a
    match does not emit it. *)
Theorem addTile_game_over_iff (tileType : nat) (slots : list (option nat)) :
  length slots = SLOT_COUNT →
  let r := addTile tileType slots in
  (OnGameOver ∈ r.2 ↔
     ∃ i, findEmptySlot slots = Some i
          ∧ getTileCount (<[i := Some tileType]> slots) = SLOT_COUNT
          ∧ ∀ k, countKind k (occupiedKinds (<[i := Some tileType]> slots)) < 2)
  ∧ (matched r.1.2 = true → OnGameOver ∉ r.2).
Proof.
  intros Hlen. cbn zeta. unfold addTile.
  destruct (findEmptySlot slots) as [i|] eqn:Hfind; cbn [fst snd matched].
  2:{ split; [|by intros _ ?%elem_of_nil]. split; [by intros ?%elem_of_nil|].
      by intros (i & ? & _). }
  set (s1 := <[i := Some tileType]> slots).
  rewrite matchingSlots_length.
  destruct (decide (2 ≤ countKind tileType (occupiedKinds s1))) as [Hpair|Hsingle].
  { unfold handleMatch. cbn [fst snd matched]. split.
    - split.
      + intros Hin%list_elem_of_singleton. done.
      + intros (i' & [= <-] & _ & Hk). specialize (Hk tileType). fold s1 in Hk. lia.
    - intros _ Hin%list_elem_of_singleton. done. }
  split; [|by destruct (negb (canAddTile s1))].
  destruct (canAddTile s1) eqn:Hcan; cbn [negb fst snd].
  - split; [by intros ?%elem_of_nil|].
    intros (i' & [= <-] & Hfull & _). fold s1 in Hfull.
    apply not_false_iff_true in Hcan. exfalso. apply Hcan, canAddTile_false.
    subst s1. by rewrite length_insert, Hlen.
  - apply canAddTile_false in Hcan.
    assert (getTileCount s1 = SLOT_COUNT) as Hfull.
    { rewrite Hcan. subst s1. by rewrite length_insert. }
    destruct (existsb _ _) eqn:Hhas; cbn [negb].
    + apply hasMatch_spec in Hhas as (k & Hk).
      split; [by intros ?%elem_of_nil|].
      intros (i' & [= <-] & _ & Hno). specialize (Hno k). fold s1 in Hno. lia.
    + split; [|intros _; by apply list_elem_of_singleton].
      intros _. exists i. split; [done|]. split; [done|]. intros k. fold s1.
      destruct (decide (2 ≤ countKind k (occupiedKinds s1))) as [Hk|Hk]; [|lia].
      assert (existsb (λ count, bool_decide (2 ≤ count))
                (map snd (map_to_list (getTypesInHold s1))) = true) as Hyes
        by (apply hasMatch_spec; by exists k).
      congruence.
Qed.

Lemma addTile_game_over_iff_witness :
  OnGameOver ∈ (addTile 4 [Some 1; Some 2; Some 3; None]).2
  ∧ OnGameOver ∉ (addTile 2 [Some 1; Some 2; Some 3; None]).2.
Proof.
  destruct (addTile_game_over_iff 4 [Some 1; Some 2; Some 3; None] eq_refl) as [Hiff _].
  destruct (addTile_game_over_iff 2 [Some 1; Some 2; Some 3; None] eq_refl) as [_ Hmatch].
  split.
  - apply Hiff. exists 3. split; [reflexivity|]. split; [reflexivity|].
    intros k. change (countKind k [1; 2; 3; 4] < 2).
    rewrite !countKind_cons, countKind_nil. repeat case_decide; lia.
  - apply Hmatch. reflexivity.
Defined.



(** ** Board: active tiles and their kinds *)

Lemma activeTilesOf_fmap (f : Tile → Tile) ts :
  (∀ t, isRemoved (f t) = isRemoved t) →
  activeTilesOf (f <$> ts) = f <$> activeTilesOf ts.
Proof.
  intros Hf. unfold activeTilesOf. induction ts as [|t ts IH]; [done|].
  rewrite fmap_cons, !filter_cons, IH, Hf.
  by destruct (decide (isRemoved t = false)).
Qed.

Lemma updateFreeTiles_refresh ts : updateFreeTiles ts = refresh (activeTilesOf ts) <$> ts.
Proof. reflexivity. Qed.

Lemma refresh_isRemoved a t : isRemoved (refresh a t) = isRemoved t.
Proof. unfold refresh. by destruct (isRemoved t) eqn:E. Qed.

Lemma refresh_tileData a t : tileData (refresh a t) = tileData t.
Proof. unfold refresh. by destruct (isRemoved t). Qed.

Lemma refresh_tid a t : tid (refresh a t) = tid t.
Proof. unfold refresh. by destruct (isRemoved t). Qed.

Lemma updateFreeTiles_active ts :
  activeTilesOf (updateFreeTiles ts) = refresh (activeTilesOf ts) <$> activeTilesOf ts.
Proof. rewrite updateFreeTiles_refresh. apply activeTilesOf_fmap, refresh_isRemoved. Qed.

Lemma updateFreeTiles_kinds ts :
  kindOf <$> activeTilesOf (updateFreeTiles ts) = kindOf <$> activeTilesOf ts.
Proof.
  rewrite updateFreeTiles_active, <- list_fmap_compose. apply list_fmap_ext.
  intros _ t _. cbn. unfold kindOf. by rewrite refresh_tileData.
Qed.

Lemma updateFreeTiles_tids ts : tid <$> updateFreeTiles ts = tid <$> ts.
Proof.
  rewrite updateFreeTiles_refresh, <- list_fmap_compose. apply list_fmap_ext.
  intros _ t _. apply refresh_tid.
Qed.

Lemma updateFreeTiles_removed ts : isRemoved <$> updateFreeTiles ts = isRemoved <$> ts.
Proof.
  rewrite updateFreeTiles_refresh, <- list_fmap_compose. apply list_fmap_ext.
  intros _ t _. apply refresh_isRemoved.
Qed.

Lemma updateFreeTiles_data ts : tileData <$> updateFreeTiles ts = tileData <$> ts.
Proof.
  rewrite updateFreeTiles_refresh, <- list_fmap_compose. apply list_fmap_ext.
  intros _ t _. apply refresh_tileData.
Qed.

Lemma updateFreeTiles_positions ts : positionOf <$> updateFreeTiles ts = positionOf <$> ts.
Proof.
  rewrite updateFreeTiles_refresh, <- list_fmap_compose. apply list_fmap_ext.
  intros _ t _. cbn. unfold positionOf. by rewrite refresh_tileData.
Qed.

Lemma updateFreeTiles_active_length ts :
  length (activeTilesOf (updateFreeTiles ts)) = length (activeTilesOf ts).
Proof. by rewrite updateFreeTiles_active, length_fmap. Qed.

Lemma markIf_active i ts :
  activeTilesOf (markIf i <$> ts) = filter (λ t, tid t ≠ i) (activeTilesOf ts).
Proof.
  unfold activeTilesOf. induction ts as [|t ts IH]; [done|].
  rewrite fmap_cons. destruct (decide (tid t = i)) as [Heq|Hne].
  - assert (markIf i t = markRemoved t) as -> by (unfold markIf; by rewrite decide_True).
    rewrite filter_cons_False by (by cbn). rewrite IH.
    destruct (decide (isRemoved t = false)).
    + rewrite (filter_cons_True (λ t, isRemoved t = false)) by done.
      by rewrite filter_cons_False by (by intros ?).
    + by rewrite (filter_cons_False (λ t, isRemoved t = false)) by done.
  - assert (markIf i t = t) as -> by (unfold markIf; by rewrite decide_False).
    destruct (decide (isRemoved t = false)).
    + rewrite !(filter_cons_True (λ t, isRemoved t = false)) by done.
      rewrite filter_cons_True by done. by rewrite IH.
    + by rewrite !(filter_cons_False (λ t, isRemoved t = false)) by done.
Qed.

Lemma markIf_tids i (ts : list Tile) : tid <$> (markIf i <$> ts) = tid <$> ts.
Proof.
  rewrite <- list_fmap_compose. apply list_fmap_ext. intros _ t _. cbn.
  unfold markIf. by destruct (decide (tid t = i)).
Qed.

Lemma filter_tid_all i (l : list Tile) :
  i ∉ tid <$> l → filter (λ t, tid t ≠ i) l = l.
Proof.
  induction l as [|x l IH]; intros Hi; [done|].
  rewrite fmap_cons, not_elem_of_cons in Hi. destruct Hi as [Hx Hl].
  rewrite filter_cons_True by done. by rewrite IH.
Qed.

Lemma kinds_without_tile (l : list Tile) tile :
  NoDup (tid <$> l) → tile ∈ l →
  kindOf <$> l ≡ₚ kindOf tile :: (kindOf <$> filter (λ t, tid t ≠ tid tile) l).
Proof.
  induction l as [|x l IH]; intros Hnd Hin; [by apply elem_of_nil in Hin|].
  rewrite fmap_cons in Hnd. apply NoDup_cons in Hnd as [Hx Hnd].
  apply elem_of_cons in Hin as [->|Hin].
  - rewrite filter_cons_False by (by intros ?). by rewrite filter_tid_all.
  - assert (tid x ≠ tid tile) as Hne.
    { intros Heq. apply Hx. rewrite Heq. by apply list_elem_of_fmap_2. }
    rewrite filter_cons_True by done. rewrite !fmap_cons, (IH Hnd Hin).
    apply Permutation_swap.
Qed.

Lemma NoDup_tids_filter (P : Tile → Prop) `{∀ t, Decision (P t)} (l : list Tile) :
  NoDup (tid <$> l) → NoDup (tid <$> filter P l).
Proof.
  intros Hnd. eapply sublist_NoDup; [done|]. apply fmap_sublist, sublist_filter.
Qed.

Lemma removeTile_tiles tile b :
  tiles (removeTile tile b).1 = updateFreeTiles (markIf (tid tile) <$> tiles b).
Proof. reflexivity. Qed.

Lemma removeTile_kinds tile b :
  NoDup (tid <$> tiles b) → tile ∈ tiles b → isRemoved tile = false →
  boardKinds b ≡ₚ kindOf tile :: boardKinds (removeTile tile b).1.
Proof.
  intros Hnd Hin Hact. unfold boardKinds.
  rewrite removeTile_tiles, updateFreeTiles_kinds, markIf_active.
  apply kinds_without_tile.
  - by apply NoDup_tids_filter.
  - by apply list_elem_of_filter.
Qed.

Lemma getRemainingCount_kinds b : getRemainingCount b = length (boardKinds b).
Proof. unfold getRemainingCount, boardKinds. by rewrite length_fmap. Qed.

Lemma removeTile_fires tile b :
  (removeTile tile b).2 = true
  ↔ getRemainingCount (removeTile tile b).1 = 0 ∧ onWin b = true.
Proof.
  unfold removeTile, getRemainingCount. cbn [fst snd tiles withTiles].
  by rewrite andb_true_iff, bool_decide_eq_true.
Qed.

Lemma removeTile_count tile b :
  NoDup (tid <$> tiles b) → tile ∈ tiles b → isRemoved tile = false →
  getRemainingCount b = S (getRemainingCount (removeTile tile b).1).
Proof.
  intros Hnd Hin Hact. rewrite !getRemainingCount_kinds.
  by rewrite (removeTile_kinds tile b Hnd Hin Hact).
Qed.

Lemma removeTile_tids tile b : tid <$> tiles (removeTile tile b).1 = tid <$> tiles b.
Proof. by rewrite removeTile_tiles, updateFreeTiles_tids, markIf_tids. Qed.

(** Shuffle: the new kinds land on the active tiles, in order. *)
Lemma assignTypes_kinds ts types :
  length types = length (activeTilesOf ts) →
  kindOf <$> activeTilesOf (assignTypes ts types) = types.
Proof.
  unfold activeTilesOf. revert types.
  induction ts as [|t ts IH]; intros types Hlen; cbn [assignTypes].
  - by destruct types.
  - rewrite filter_cons in Hlen. destruct (isRemoved t) eqn:Hrem.
    + rewrite decide_False in Hlen by done.
      rewrite filter_cons_False by (by rewrite Hrem). by apply IH.
    + rewrite decide_True in Hlen by done. destruct types as [|ty types]; [done|].
      rewrite filter_cons_True by done. rewrite fmap_cons. cbn in Hlen.
      f_equal. apply IH. lia.
Qed.

Lemma assignTypes_frame ts types :
  tid <$> assignTypes ts types = tid <$> ts
  ∧ isRemoved <$> assignTypes ts types = isRemoved <$> ts
  ∧ positionOf <$> assignTypes ts types = positionOf <$> ts
  ∧ filter (λ t, isRemoved t = true) (assignTypes ts types)
    = filter (λ t, isRemoved t = true) ts.
Proof.
  revert types. induction ts as [|t ts IH]; intros types; cbn [assignTypes]; [done|].
  destruct (isRemoved t) eqn:Hrem.
  - destruct (IH types) as (H1 & H2 & H3 & Hf). rewrite !fmap_cons, H1, H2, H3.
    repeat split. rewrite !filter_cons_True by done. by rewrite Hf.
  - destruct types as [|ty types]; [done|].
    destruct (IH types) as (H1 & H2 & H3 & Hf). rewrite !fmap_cons, H1, H2, H3.
    repeat split. rewrite !filter_cons_False by (cbn; congruence). done.
Qed.

Lemma shuffle_kinds rnd b : boardKinds (shuffle rnd b) ≡ₚ boardKinds b.
Proof.
  unfold boardKinds, shuffle. cbn [tiles withTiles].
  rewrite updateFreeTiles_kinds, assignTypes_kinds.
  - apply fisherYates_Permutation.
  - by rewrite fisherYates_length, length_fmap.
Qed.

Lemma shuffle_tids rnd b : tid <$> tiles (shuffle rnd b) = tid <$> tiles b.
Proof.
  unfold shuffle. cbn [tiles withTiles]. rewrite updateFreeTiles_tids.
  apply assignTypes_frame.
Qed.

(** ** Board creation *)

Lemma newTiles_tids types (layout : list Layouts.TilePosition) :
  tid <$> imap (newTile types) layout = seq 0 (length layout).
Proof.
  rewrite fmap_imap. rewrite (imap_ext _ (λ j _, id j)) by done.
  by rewrite imap_seq_0, list_fmap_id.
Qed.

Lemma filter_all {A} (P : A → Prop) `{∀ x, Decision (P x)} (l : list A) :
  Forall P l → filter P l = l.
Proof.
  induction 1 as [|x l Hx _ IH]; [done|]. rewrite filter_cons_True by done. by rewrite IH.
Qed.

Lemma newTiles_active types (layout : list Layouts.TilePosition) :
  activeTilesOf (imap (newTile types) layout) = imap (newTile types) layout.
Proof.
  apply filter_all, Forall_lookup. intros i t Hi.
  rewrite list_lookup_imap in Hi. destruct (layout !! i); by simplify_eq/=.
Qed.

Lemma newTiles_kinds types (layout : list Layouts.TilePosition) :
  length types = length layout →
  kindOf <$> imap (newTile types) layout = types.
Proof.
  intros Hlen. rewrite fmap_imap.
  rewrite (imap_ext _ (λ j _, types !!! j)) by done.
  rewrite imap_seq_0. apply list_eq. intros i.
  rewrite list_lookup_fmap.
  destruct (decide (i < length layout)) as [Hlt|Hge].
  - rewrite lookup_seq_lt by done. cbn.
    by rewrite list_lookup_lookup_total_lt by lia.
  - rewrite (lookup_ge_None_2 types) by lia.
    rewrite (lookup_ge_None_2 (seq _ _)); [done|]. rewrite length_seq. lia.
Qed.

Lemma createFrom_kinds layout rnd :
  boardKinds (createFrom layout rnd)
  = generateTileTypesForPairs (length Layouts.TILE_EMOJIS) rnd (length layout).
Proof.
  unfold boardKinds, createFrom. cbn [tiles].
  rewrite updateFreeTiles_kinds, newTiles_active.
  apply newTiles_kinds, generateTileTypesForPairs_length.
Qed.

Lemma createFrom_tids layout rnd :
  tid <$> tiles (createFrom layout rnd) = seq 0 (length layout).
Proof. unfold createFrom. cbn [tiles]. by rewrite updateFreeTiles_tids, newTiles_tids. Qed.

Lemma layout_size : length Layouts.getLayout = 44.
Proof. reflexivity. Qed.

Lemma Board_create_even rnd k : Nat.Even (boardKindCount k (Board_create rnd)).
Proof.
  unfold boardKindCount, Board_create. rewrite createFrom_kinds, layout_size.
  apply generateTileTypesForPairs_even. by exists 22.
Qed.

Lemma Board_create_count rnd : getRemainingCount (Board_create rnd) = 44.
Proof.
  rewrite getRemainingCount_kinds. unfold Board_create.
  by rewrite createFrom_kinds, generateTileTypesForPairs_length, layout_size.
Qed.

(** ** Session: anatomy of a turn *)

Lemma dispatchAll_loop now evs g sigs :
  let r := foldl (λ acc ev, let r := dispatchHold now ev acc.1 in (r.1, acc.2 ++ r.2))
                 (g, sigs) evs in
  board r.1 = board g
  ∧ holdArea r.1 = holdArea g
  ∧ isProcessing r.1 = isProcessing g
  ∧ overlayTimers r.1 = overlayTimers g
  ∧ (highScore g ≤ highScore r.1)%Z
  ∧ (ShowWinScreen ∈ r.2 → ShowWinScreen ∈ sigs).
Proof.
  revert g sigs. induction evs as [|ev evs IH]; intros g sigs; cbn [foldl].
  - cbn. split_and!; (done || lia).
  - cbn zeta in IH |- *. cbn [fst snd].
    destruct (IH (dispatchHold now ev g).1 (sigs ++ (dispatchHold now ev g).2))
      as (Hb & Hh & Hp & Ht & Hs & Hw).
    rewrite Hb, Hh, Hp, Ht.
    destruct ev as [k c|]; cbn -[Z.mul Z.add] in *; split_and!; try done.
    + case_bool_decide; lia.
    + intros Hin. apply Hw in Hin. apply elem_of_app in Hin as [?|Hin]; [done|].
      by apply list_elem_of_singleton in Hin.
    + intros Hin. apply Hw in Hin. apply elem_of_app in Hin as [?|Hin]; [done|].
      by apply list_elem_of_singleton in Hin.
Qed.

Lemma dispatchAll_frame now evs g :
  board (dispatchAll now evs g).1 = board g
  ∧ holdArea (dispatchAll now evs g).1 = holdArea g
  ∧ isProcessing (dispatchAll now evs g).1 = isProcessing g
  ∧ overlayTimers (dispatchAll now evs g).1 = overlayTimers g
  ∧ (highScore g ≤ highScore (dispatchAll now evs g).1)%Z
  ∧ ShowWinScreen ∉ (dispatchAll now evs g).2.
Proof.
  destruct (dispatchAll_loop now evs g []) as (Hb & Hh & Hp & Ht & Hs & Hw).
  split_and!; try done. intros Hin. apply Hw in Hin. by apply elem_of_nil in Hin.
Qed.

Lemma onTileSelected_runs tile now g :
  overlayVisible g = false → isProcessing g = false → canAddTile (holdArea g) = true →
  let r := onTileSelected tile now g in
  board r.1 = (removeTile tile (board g)).1
  ∧ holdArea r.1 = (addTile (kindOf tile) (holdArea g)).1.1
  ∧ isProcessing r.1 = false
  ∧ (highScore g ≤ highScore r.1)%Z
  ∧ (ShowWinScreen ∈ r.2 ↔
       ((removeTile tile (board g)).2 = true ∧ getTileCount (holdArea g) = 0)
       ∨ (getRemainingCount (board r.1) = 0 ∧ getTileCount (holdArea r.1) = 0)).
Proof.
  intros Hov Hproc Hcan. cbn zeta. unfold onTileSelected.
  rewrite Hov, Hproc, Hcan. cbn [negb].
  set (removal := removeTile tile (board (setProcessing true g))).
  assert (removal = removeTile tile (board g)) as Hrem by done.
  set (g2 := setBoard removal.1 (setProcessing true g)).
  set (won1 := if removal.2 then GameScene_onWin g2 else (g2, [])).
  assert (board won1.1 = removal.1 ∧ holdArea won1.1 = holdArea g
          ∧ highScore won1.1 = highScore g
          ∧ (ShowWinScreen ∈ won1.2 ↔ removal.2 = true ∧ getTileCount (holdArea g) = 0)
          ∧ ∀ s, s ∈ won1.2 → s = ShowWinScreen) as (Hb1 & Hh1 & Hs1 & Hw1 & Honly).
  { subst won1. destruct removal.2.
    - unfold GameScene_onWin. change (holdArea g2) with (holdArea g).
      destruct (decide (getTileCount (holdArea g) = 0)) as [Hz|Hnz]; cbn; split_and!; try done.
      + split; [done|]. intros _. by apply list_elem_of_singleton.
      + by intros s ?%list_elem_of_singleton.
      + split; [by intros ?%elem_of_nil|]. by intros [_ ?].
      + by intros s ?%elem_of_nil.
    - cbn. split_and!; try done.
      + split; [by intros ?%elem_of_nil|]. by intros [? _].
      + by intros s ?%elem_of_nil. }
  set (added := addTile (kindOf tile) (holdArea won1.1)).
  assert (added = addTile (kindOf tile) (holdArea g)) as Hadd by (subst added; by rewrite Hh1).
  set (g3 := setHoldArea added.1.1 won1.1).
  destruct (dispatchAll_frame now added.2 g3) as (Hb4 & Hh4 & Hp4 & _ & Hs4 & Hw4).
  set (handled := dispatchAll now added.2 g3) in *.
  change (board g3) with (board won1.1) in Hb4. rewrite Hb1 in Hb4.
  change (holdArea g3) with added.1.1 in Hh4.
  change (highScore g3) with (highScore won1.1) in Hs4. rewrite Hs1 in Hs4.
  set (boardEmpty := bool_decide (getRemainingCount (board handled.1) = 0)).
  set (holdEmpty := bool_decide (getTileCount (holdArea handled.1) = 0)).
  set (won2 := if boardEmpty && holdEmpty then showWinScreen handled.1 else (handled.1, [])).
  assert (board won2.1 = board handled.1 ∧ holdArea won2.1 = holdArea handled.1
          ∧ highScore won2.1 = highScore handled.1
          ∧ (ShowWinScreen ∈ won2.2 ↔ boardEmpty && holdEmpty = true))
    as (Hb5 & Hh5 & Hs5 & Hw5).
  { subst won2. destruct (boardEmpty && holdEmpty); cbn; split_and!; try done.
    - split; [done|]. intros _. by apply list_elem_of_singleton.
    - split; [by intros ?%elem_of_nil|done]. }
  cbn [fst snd].
  change (board (setProcessing false won2.1)) with (board won2.1).
  change (holdArea (setProcessing false won2.1)) with (holdArea won2.1).
  change (highScore (setProcessing false won2.1)) with (highScore won2.1).
  rewrite Hb5, Hh5, Hs5, Hb4, Hh4, <- Hrem, <- Hadd.
  split; [done|]. split; [done|]. split; [done|]. split; [done|].
  rewrite !elem_of_app, Hw1, Hw5.
  subst boardEmpty holdEmpty. rewrite andb_true_iff, !bool_decide_eq_true, Hb4, Hh4.
  split.
  - intros [?|[Hin|?]]; [by left|done|by right].
  - intros [?|?]; [by left|by right; right].
Qed.

Lemma tapTile_cases i now g :
  (¬ turnStarts i g ∧ (tapTile i now g).1 = g ∧ ShowWinScreen ∉ (tapTile i now g).2)
  ∨ ∃ tile, find (λ t, bool_decide (tid t = i)) (tiles (board g)) = Some tile
            ∧ tile ∈ tiles (board g) ∧ tid tile = i
            ∧ turnRuns tile g
            ∧ tapTile i now g = onTileSelected tile now g.
Proof.
  unfold tapTile, turnStarts, turnRuns.
  destruct (find _ _) as [tile|] eqn:Hfind.
  2:{ left. split_and!; [by intros (? & ? & _) | done | by intros ?%elem_of_nil]. }
  apply find_some in Hfind as Hsome. destruct Hsome as [Hin%list_elem_of_In Hid].
  apply bool_decide_eq_true in Hid.
  unfold onTileClick. destruct (isRemoved tile) eqn:Hrem.
  { left. split_and!; [|done|by intros ?%elem_of_nil].
    intros (? & [= <-] & ? & _). congruence. }
  destruct (isFree tile) eqn:Hfree; cbn [negb].
  2:{ left. split_and!; [|done|by intros ?%list_elem_of_singleton].
      intros (? & [= <-] & _ & ? & _). congruence. }
  unfold onTileSelected.
  destruct (overlayVisible g) eqn:Hov.
  { left. split_and!; [|done|by intros ?%elem_of_nil].
    intros (? & _ & _ & _ & ? & _). congruence. }
  destruct (isProcessing g) eqn:Hproc.
  { left. split_and!; [|done|by intros ?%elem_of_nil].
    intros (? & _ & _ & _ & _ & ? & _). congruence. }
  destruct (canAddTile (holdArea g)) eqn:Hcan; cbn [negb].
  2:{ left. split_and!; [|done|by intros ?%list_elem_of_singleton].
      intros (? & _ & _ & _ & _ & _ & ?). congruence. }
  right. exists tile. by split_and!.
Qed.

(** ** Session invariant: kinds come in pairs across board and hold *)

Lemma countKind_filter_other k k' (l : list nat) :
  countKind k' (filter (λ x, x ≠ k) l) = if decide (k' = k) then 0 else countKind k' l.
Proof.
  induction l as [|x l IH]; [by destruct (decide (k' = k))|].
  rewrite filter_cons, countKind_cons.
  destruct (decide (x ≠ k)) as [Hne|Heq%dec_stable].
  - rewrite countKind_cons, IH.
    destruct (decide (k' = k)), (decide (x = k')); (done || congruence).
  - rewrite IH. subst x. destruct (decide (k' = k)), (decide (k = k')); (done || congruence).
Qed.

Lemma canAddTile_holdOf (ks : list nat) :
  length ks ≤ SLOT_COUNT → canAddTile (holdOf ks) = true → length ks ≠ SLOT_COUNT.
Proof.
  intros Hlen Hcan Hfull. apply not_false_iff_true in Hcan. apply Hcan, canAddTile_false.
  rewrite holdOf_length by done. unfold holdOf. by rewrite getTileCount_prefix.
Qed.

Lemma coreInv_turn b h tile :
  coreInv b h → tile ∈ tiles b → isRemoved tile = false → canAddTile h = true →
  coreInv (removeTile tile b).1 (addTile (kindOf tile) h).1.1.
Proof.
  intros [Htids (ks & -> & Hlen & Hnd) Hkinds Htotal] Hin Hact Hcan.
  pose proof (removeTile_kinds tile b Htids Hin Hact) as Hperm.
  pose proof (canAddTile_holdOf ks Hlen Hcan) as Hroom.
  assert (∀ k, boardKindCount k b
               = (if decide (kindOf tile = k) then 1 else 0)
                 + boardKindCount k (removeTile tile b).1) as Hcount.
  { intros k. unfold boardKindCount.
    by rewrite (countKind_Permutation _ _ _ Hperm), countKind_cons. }
  assert (getRemainingCount b = S (getRemainingCount (removeTile tile b).1)) as Hrem.
  { rewrite !getRemainingCount_kinds. by rewrite Hperm. }
  unfold holdOf in Hkinds, Htotal.
  setoid_rewrite occupiedKinds_prefix in Hkinds. rewrite getTileCount_prefix in Htotal.
  rewrite addTile_holdOf by done. rewrite decide_False by done.
  destruct (decide (kindOf tile ∈ ks)) as [Hk|Hk]; cbn [fst]; split.
  - by rewrite removeTile_tids.
  - exists (filter (λ x, x ≠ kindOf tile) ks). split; [done|]. split.
    + pose proof (filter_length_le (λ x, x ≠ kindOf tile) ks). lia.
    + by apply NoDup_filter.
  - intros k. unfold holdOf. rewrite occupiedKinds_prefix, countKind_filter_other.
    destruct (Hkinds k) as [m Hm]. rewrite Hcount in Hm.
    destruct (decide (kindOf tile = k)) as [<-|Hne].
    + rewrite decide_True by done.
      rewrite (countKind_NoDup _ _ Hnd), decide_True in Hm by done.
      exists (m - 1). lia.
    + rewrite decide_False by done. exists m. lia.
  - unfold holdOf. rewrite getTileCount_prefix.
    pose proof (filter_other_length (kindOf tile) ks) as Hf.
    rewrite (countKind_NoDup _ _ Hnd), decide_True in Hf by done.
    destruct Htotal as [m Hm]. exists (m - 1). lia.
  - by rewrite removeTile_tids.
  - exists (ks ++ [kindOf tile]). split; [done|]. split.
    + rewrite length_app. cbn [length]. lia.
    + apply NoDup_app. split; [done|]. split; [|apply NoDup_singleton].
      intros x Hx ->%list_elem_of_singleton. done.
  - intros k. unfold holdOf.
    rewrite occupiedKinds_prefix, countKind_app, countKind_cons, countKind_nil.
    destruct (Hkinds k) as [m Hm]. rewrite Hcount in Hm.
    exists m. destruct (decide (kindOf tile = k)); lia.
  - unfold holdOf. rewrite getTileCount_prefix, length_app. cbn [length].
    destruct Htotal as [m Hm]. exists m. lia.
Qed.

Lemma coreInv_shuffle rnd b h : coreInv b h → coreInv (shuffle rnd b) h.
Proof.
  intros [Htids Hhold Hkinds Htotal]. split.
  - by rewrite shuffle_tids.
  - done.
  - intros k. unfold boardKindCount.
    rewrite (countKind_Permutation _ _ _ (shuffle_kinds rnd b)). apply Hkinds.
  - rewrite getRemainingCount_kinds, shuffle_kinds, <- getRemainingCount_kinds. done.
Qed.

Lemma HoldArea_clear_holdOf slots :
  length slots = SLOT_COUNT → HoldArea_clear slots = holdOf [].
Proof. intros Hlen. unfold HoldArea_clear. by rewrite clear_replicate, Hlen. Qed.

Lemma coreInv_fresh rnd : coreInv (Board_create rnd) (holdOf []).
Proof.
  split.
  - unfold Board_create. rewrite createFrom_tids. apply NoDup_seq.
  - exists []. split; [done|]. split; [cbn; lia|constructor].
  - intros k. cbn. rewrite countKind_nil, Nat.add_0_r. apply Board_create_even.
  - rewrite Board_create_count. by exists 22.
Qed.

Lemma coreInv_setOnWin b h : coreInv b h → coreInv (setOnWin b) h.
Proof. intros [Htids Hhold Hkinds Htotal]. by split. Qed.

Lemma sceneReachable_inv g : sceneReachable g → sceneInv g.
Proof.
  induction 1 as [rnd stored|i now g _ IH|rnd g _ IH|rnd g _ IH|g _ IH]; unfold sceneInv in *.
  - apply coreInv_setOnWin, (coreInv_fresh rnd).
  - destruct (tapTile_cases i now g) as [(_ & -> & _)|(tile & _ & Hin & _ & Hruns & ->)]; [done|].
    destruct Hruns as (Hact & _ & Hov & Hproc & Hcan).
    destruct (onTileSelected_runs tile now g Hov Hproc Hcan) as (-> & -> & _).
    by apply coreInv_turn.
  - by apply coreInv_shuffle.
  - cbn [newGame board holdArea]. rewrite HoldArea_clear_holdOf.
    + apply coreInv_fresh.
    + destruct IH as [_ (ks & -> & Hlen & _) _ _]. by apply holdOf_length.
  - unfold overlayTimerFires. by destruct (overlayTimers g).
Qed.

(** ** Win detection *)

Lemma freshScene_reachable : sceneReachable freshScene.
Proof. apply scene_created. Qed.

(** The board's [onWin] callback looks at the hold before the tile is put
    into it: on a layout with one position it shows the win screen with
    the tile still on its way to the hold. *)
Remark onWin_callback_one_tile :
  ShowWinScreen ∈ (tapTile 0 0 oneTileScene).2
  ∧ getRemainingCount (board (tapTile 0 0 oneTileScene).1) = 0
  ∧ getTileCount (holdArea (tapTile 0 0 oneTileScene).1) = 1.
Proof. vm_compute. split; [by left|done]. Qed.

(** ** Kind parity on the board *)

Lemma tapAll_reachable taps g : sceneReachable g → sceneReachable (tapAll taps g).
Proof.
  revert g. induction taps as [|i taps IH]; intros g Hg; [done|].
  apply IH. by apply scene_tap.
Qed.

(** Counterexample to C6 as stated: after the first tile of a fresh game
    has moved to the hold, one tile of its kind is left on the board. *)
Lemma odd_kind_after_removal :
  sceneReachable (tapAll [0] freshScene)
  ∧ boardKindCount 0 (board (tapAll [0] freshScene)) = 1
  ∧ ¬ (∀ k, Nat.Even (boardKindCount k (board (tapAll [0] freshScene)))).
Proof.
  split; [apply tapAll_reachable, freshScene_reachable|].
  assert (boardKindCount 0 (board (tapAll [0] freshScene)) = 1) as Hone
    by (vm_compute; reflexivity).
  split; [done|]. intros Hall. destruct (Hall 0) as [m Hm]. lia.
Qed.

Lemma shuffle_frame rnd b :
  tid <$> tiles (shuffle rnd b) = tid <$> tiles b
  ∧ isRemoved <$> tiles (shuffle rnd b) = isRemoved <$> tiles b
  ∧ positionOf <$> tiles (shuffle rnd b) = positionOf <$> tiles b
  ∧ onWin (shuffle rnd b) = onWin b.
Proof.
  split; [apply shuffle_tids|]. unfold shuffle. cbn [tiles withTiles onWin].
  set (types := fisherYates rnd _).
  destruct (assignTypes_frame (tiles b) types) as (_ & Hrem & Hpos & _).
  split; [by rewrite updateFreeTiles_removed|]. split; [|done].
  by rewrite updateFreeTiles_positions.
Qed.

(** ** The overlay guard *)

(** Counterexample to C7 as stated: four distinct kinds fill the hold, the
    game-over screen is shown, and a shuffle still re-deals the kinds on
    the board. *)
Lemma shuffle_after_game_over :
  sceneReachable lostScene
  ∧ ShowGameOverScreen ∈ (tapTile 18 0 (tapAll [0; 6; 12] freshScene)).2
  ∧ overlayVisible lostScene = true
  ∧ board (shuffleBoard (λ _, 0) lostScene).1 ≠ board lostScene.
Proof.
  split; [apply tapAll_reachable, freshScene_reachable|].
  split; [vm_compute; by left|]. split; [by vm_compute|].
  intros Heq. apply (f_equal boardKinds) in Heq. vm_compute in Heq. discriminate.
Qed.

(** C7 (amended). While the win or game-over overlay is visible a tap on
    any tile leaves the whole session state unchanged.  A shuffle is not
    rejected: it leaves hold, score, combo, high score, overlay, tile
    identities, positions and removed flags unchanged and permutes the
    kinds of the non-removed board tiles. *)
Theorem overlay_blocks_taps (g : GameScene) :
  overlayVisible g = true →
  (∀ i now, (tapTile i now g).1 = g)
  ∧ (∀ rnd,
       let g' := (shuffleBoard rnd g).1 in
       holdArea g' = holdArea g ∧ score g' = score g ∧ highScore g' = highScore g
       ∧ comboCount g' = comboCount g ∧ lastMatchTime g' = lastMatchTime g
       ∧ overlayVisible g' = true ∧ localStorage g' = localStorage g
       ∧ tid <$> tiles (board g') = tid <$> tiles (board g)
       ∧ isRemoved <$> tiles (board g') = isRemoved <$> tiles (board g)
       ∧ positionOf <$> tiles (board g') = positionOf <$> tiles (board g)
       ∧ boardKinds (board g') ≡ₚ boardKinds (board g)).
Proof.
  intros Hov. split.
  - intros i now. unfold tapTile. destruct (find _ _) as [tile|]; [|done].
    destruct (onTileClick tile); try done. unfold onTileSelected. by rewrite Hov.
  - intros rnd. cbn zeta. cbn [shuffleBoard fst setBoard holdArea score highScore comboCount
      lastMatchTime overlayVisible localStorage board].
    destruct (shuffle_frame rnd (board g)) as (Ht & Hr & Hp & _).
    split_and!; try done. apply shuffle_kinds.
Qed.

Lemma overlay_blocks_taps_witness :
  (tapTile 5 0 lostScene).1 = lostScene
  ∧ holdArea (shuffleBoard (λ _, 0) lostScene).1 = holdArea lostScene
  ∧ boardKinds (board (shuffleBoard (λ _, 0) lostScene).1) ≡ₚ boardKinds (board lostScene).
Proof.
  destruct (overlay_blocks_taps lostScene) as [Htap Hshuffle]; [by vm_compute|].
  split; [apply Htap|]. destruct (Hshuffle (λ _, 0)) as (Hh & _ & _ & _ & _ & _ & _ & _ & _ & _ & Hk).
  by split.
Defined.

(** ** Scoring *)

Lemma dispatchHold_scoreState now ev g1 g2 :
  scoreState g1 = scoreState g2 →
  scoreState (dispatchHold now ev g1).1 = scoreState (dispatchHold now ev g2).1.
Proof.
  unfold scoreState. intros [= Hs Hh Hc Ht Hl].
  destruct ev; cbn -[Z.add Z.mul]; by rewrite ?Hs, ?Hh, ?Hc, ?Ht, ?Hl.
Qed.

Lemma dispatchAll_scoreState now evs g1 g2 :
  scoreState g1 = scoreState g2 →
  scoreState (dispatchAll now evs g1).1 = scoreState (dispatchAll now evs g2).1.
Proof.
  unfold dispatchAll. generalize (@nil Signal) at 1 as s1. generalize (@nil Signal) as s2.
  revert g1 g2. induction evs as [|ev evs IH]; intros g1 g2 s2 s1 Heq; [done|].
  cbn [foldl fst snd]. apply IH. by apply dispatchHold_scoreState.
Qed.

Lemma addTile_events tileType slots :
  if matched (addTile tileType slots).1.2
  then (addTile tileType slots).2 = [OnMatch tileType 2]
  else (addTile tileType slots).2 = [] ∨ (addTile tileType slots).2 = [OnGameOver].
Proof.
  unfold addTile. destruct (findEmptySlot slots) as [i|]; [|by left].
  destruct (decide _); [done|]. destruct (negb (canAddTile _)); [|by left].
  cbn. destruct (negb _); [by right|by left].
Qed.

Lemma onTileSelected_scoreState tile now g :
  overlayVisible g = false → isProcessing g = false → canAddTile (holdArea g) = true →
  scoreState (onTileSelected tile now g).1
  = scoreState (dispatchAll now (addTile (kindOf tile) (holdArea g)).2 g).1.
Proof.
  intros Hov Hproc Hcan. unfold onTileSelected. rewrite Hov, Hproc, Hcan. cbn [negb].
  set (removal := removeTile tile (board (setProcessing true g))).
  set (g2 := setBoard removal.1 (setProcessing true g)).
  set (won1 := if removal.2 then GameScene_onWin g2 else (g2, [])).
  assert (holdArea won1.1 = holdArea g ∧ scoreState won1.1 = scoreState g) as [Hh Hs].
  { subst won1. destruct removal.2; [|done]. unfold GameScene_onWin.
    by destruct (decide _). }
  rewrite Hh.
  set (evs := (addTile (kindOf tile) (holdArea g)).2).
  set (g3 := setHoldArea _ won1.1).
  set (handled := dispatchAll now evs g3).
  cbn [fst snd].
  transitivity (scoreState handled.1).
  - by destruct (_ && _).
  - subst handled. by apply dispatchAll_scoreState.
Qed.

(** C8. A match makes the combo multiplier the previous one plus 1 when
    the previous match was less than 3000 ms earlier and 1 otherwise, adds
    100 times that multiplier to the score, and replaces the stored high
    score exactly when the new score exceeds it; a turn scores that way
    when its insertion matches and leaves score, combo and high score
    alone otherwise; no action lowers the high score. *)
Theorem match_scoring (now : Z) (g : GameScene) :
  let g' := (onHoldMatch now g).1 in
  let multiplier :=
    if decide (now - lastMatchTime g < 3000)%Z then (comboCount g + 1)%Z else 1%Z in
  (comboCount g' = multiplier
   ∧ score g' = (score g + 100 * multiplier)%Z
   ∧ lastMatchTime g' = now
   ∧ ((score g' > highScore g)%Z →
        highScore g' = score g' ∧ localStorage g' = Some (score g'))
   ∧ ((score g' ≤ highScore g)%Z →
        highScore g' = highScore g ∧ localStorage g' = localStorage g)
   ∧ (highScore g ≤ highScore g')%Z)
  ∧ (comboCount g = 0%Z → comboCount g' = 1%Z ∧ score g' = (score g + 100)%Z)
  ∧ (∀ tile, overlayVisible g = false → isProcessing g = false →
       canAddTile (holdArea g) = true →
       scoreState (onTileSelected tile now g).1
       = if matched (addTile (kindOf tile) (holdArea g)).1.2
         then scoreState g' else scoreState g)
  ∧ (∀ i, highScore g ≤ highScore (tapTile i now g).1)%Z
  ∧ (∀ rnd, highScore (shuffleBoard rnd g).1 = highScore g)
  ∧ (∀ rnd, highScore (newGame rnd g) = highScore g).
Proof.
  cbn zeta. split.
  { unfold onHoldMatch, COMBO_TIME_WINDOW.
    cbn [fst comboCount score lastMatchTime highScore localStorage].
    split_and!; try done.
    - intros Hgt. by rewrite bool_decide_eq_true_2.
    - intros Hle. rewrite bool_decide_eq_false_2; [done|lia].
    - case_bool_decide; lia. }
  split.
  { intros Hzero. unfold onHoldMatch, COMBO_TIME_WINDOW. cbn [fst comboCount score].
    rewrite Hzero. by destruct (decide _). }
  split.
  { intros tile Hov Hproc Hcan. rewrite onTileSelected_scoreState by done.
    pose proof (addTile_events (kindOf tile) (holdArea g)) as Hev.
    destruct (matched _); [by rewrite Hev|]. by destruct Hev as [-> | ->]. }
  split; [|done].
  intros i. destruct (tapTile_cases i now g) as [(_ & -> & _)|(tile & _ & _ & _ & Hruns & ->)];
    [done|].
  destruct Hruns as (_ & _ & Hov & Hproc & Hcan).
  by destruct (onTileSelected_runs tile now g Hov Hproc Hcan) as (_ & _ & _ & Hhigh & _).
Qed.

Lemma match_scoring_witness :
  score (afterMatches [10000; 12000]%Z) = 300%Z
  ∧ highScore (afterMatches [10000; 12000]%Z) = 300%Z
  ∧ score (afterMatches [10000; 12000; 16000]%Z) = 400%Z
  ∧ scoreState (onTileSelected (tileAt 1 1 0 0 0) 5000 (tapAll [0] freshScene)).1
    = scoreState (onHoldMatch 5000 (tapAll [0] freshScene)).1.
Proof.
  destruct (match_scoring 12000 (afterMatches [10000%Z])) as ((_ & Hs2 & _ & Hhigh & _) & _).
  destruct (match_scoring 16000 (afterMatches [10000; 12000]%Z)) as ((_ & Hs3 & _) & _).
  destruct (match_scoring 5000 (tapAll [0] freshScene)) as (_ & _ & Hturn & _).
  split; [exact Hs2|]. split.
  - destruct Hhigh as [Hh _]; [by vm_compute|]. exact (eq_trans Hh Hs2).
  - split; [exact Hs3|].
    apply (Hturn (tileAt 1 1 0 0 0)); reflexivity.
Defined.

(** ** Hint search *)




Lemma filter_kind_length k (l : list Tile) :
  length (filter (λ t, kindOf t = k) l) = countKind k (kindOf <$> l).
Proof.
  induction l as [|t l IH]; [done|].
  rewrite fmap_cons, countKind_cons, filter_cons.
  destruct (decide (kindOf t = k)); cbn [length]; lia.
Qed.


(** [checkTileFree] reads identities and tile data only. *)
Lemma checkTileFree_ext t t' (l l' : list Tile) :
  tid t = tid t' → tileData t = tileData t' →
  Forall2 (λ o o', tid o = tid o' ∧ tileData o = tileData o') l l' →
  checkTileFree t l = checkTileFree t' l'.
Proof.
  intros Hid Hdata Hall. unfold checkTileFree.
  assert (existsb (coversFromAbove t) l = existsb (coversFromAbove t') l') as ->.
  { induction Hall as [|o o' l l' [Ho Hd] _ IH]; [done|]. cbn [existsb]. rewrite IH.
    f_equal. unfold coversFromAbove. by rewrite Ho, Hd, Hid, Hdata. }
  assert (∀ acc, foldl (sideStep t) acc l = foldl (sideStep t') acc l') as ->; [|done].
  induction Hall as [|o o' l l' [Ho Hd] _ IH]; intros acc; [done|]. cbn [foldl].
  rewrite IH. f_equal. unfold sideStep. by rewrite Ho, Hd, Hid, Hdata.
Qed.

Lemma updateFreeTiles_fresh ts t :
  t ∈ updateFreeTiles ts → isRemoved t = false →
  isFree t = checkTileFree t (activeTilesOf (updateFreeTiles ts)).
Proof.
  rewrite updateFreeTiles_active, updateFreeTiles_refresh.
  intros (t0 & -> & Hin)%list_elem_of_fmap Hact.
  rewrite refresh_isRemoved in Hact.
  transitivity (checkTileFree t0 (activeTilesOf ts)).
  { unfold refresh. by rewrite Hact. }
  apply checkTileFree_ext.
  - by rewrite refresh_tid.
  - by rewrite refresh_tileData.
  - apply Forall2_fmap_r, Forall_Forall2_diag, Forall_forall. intros o _.
    split; symmetry; [apply refresh_tid|apply refresh_tileData].
Qed.



(** * Further properties of the code *)

(** * Further properties *)

(** ** Hold area *)

Lemma countKind_slots k (slots : list (option nat)) :
  countKind k (occupiedKinds slots) = length (filter (λ slot, slot = Some k) slots).
Proof.
  induction slots as [|[x|] slots IH]; [done|..].
  - rewrite occupiedKinds_cons_Some, countKind_cons, filter_cons, IH.
    destruct (decide (x = k)) as [->|Hne].
    + by rewrite decide_True.
    + rewrite decide_False by congruence. done.
  - rewrite occupiedKinds_cons_None, filter_cons_False by done. done.
Qed.

Lemma occupiedKinds_elem k (slots : list (option nat)) :
  k ∈ occupiedKinds slots ↔ Some k ∈ slots.
Proof.
  induction slots as [|[x|] slots IH].
  - split; by intros ?%elem_of_nil.
  - rewrite occupiedKinds_cons_Some, !elem_of_cons, IH.
    split; (intros [?|?]; [left; congruence|by right]).
  - rewrite occupiedKinds_cons_None, elem_of_cons, IH.
    split; [by right|]. by intros [?|?].
Qed.

(** X1. [getTypesInHold] has an entry for a kind exactly when some slot
    holds it, the entry is the number of slots holding it, and the lookup
    with default 0 that [findHintTile] performs is that number for every
    kind. *)
Theorem getTypesInHold_counts (slots : list (option nat)) (k : nat) :
  let held := length (filter (λ slot, slot = Some k) slots) in
  (∀ n, getTypesInHold slots !! k = Some n ↔ n = held ∧ 0 < n)
  ∧ (getTypesInHold slots !! k = None ↔ Some k ∉ slots)
  ∧ default 0 (getTypesInHold slots !! k) = held.
Proof.
  cbn zeta. rewrite getTypesInHold_lookup, <- countKind_slots, <- occupiedKinds_elem.
  pose proof (countKind_pos_elem k (occupiedKinds slots)) as Hpos.
  destruct (decide (countKind k (occupiedKinds slots) = 0)) as [Hz|Hnz].
  - split_and!.
    + intros n. split; [done|]. intros [-> ?]. lia.
    + split; [|done]. intros _ Hin%Hpos. lia.
    + by rewrite Hz.
  - split_and!.
    + intros n. split; [intros [= <-]; split; [done|lia]|by intros [-> _]].
    + split; [done|]. intros Hnin. exfalso. apply Hnin, Hpos. lia.
    + done.
Qed.







Lemma clear_getTileCount (slots : list (option nat)) :
  getTileCount (HoldArea_clear slots) = 0.
Proof.
  unfold HoldArea_clear. rewrite clear_replicate.
  rewrite <- occupiedKinds_length, occupiedKinds_None. done.
Qed.

Lemma clear_canAddTile (slots : list (option nat)) :
  slots ≠ [] → canAddTile (HoldArea_clear slots) = true.
Proof.
  unfold HoldArea_clear. rewrite clear_replicate.
  intros Hne. destruct slots; [done|]. by cbn.
Qed.

(** X4. [clear] empties every slot of any hold: no tile is counted, the
    kind map is empty, a new tile can be added when there is a slot at all,
    and a reachable hold is back in the state [create] built. *)
Theorem clear_resets (slots : list (option nat)) :
  length (HoldArea_clear slots) = length slots
  ∧ getTileCount (HoldArea_clear slots) = 0
  ∧ getTypesInHold (HoldArea_clear slots) = ∅
  ∧ (slots ≠ [] → canAddTile (HoldArea_clear slots) = true)
  ∧ (holdReachable slots → HoldArea_clear slots = HoldArea_create).
Proof.
  unfold HoldArea_clear. rewrite clear_replicate.
  split; [by rewrite length_replicate|].
  split.
  { rewrite <- occupiedKinds_length, occupiedKinds_None. done. }
  split.
  { apply map_eq. intros k. rewrite getTypesInHold_lookup, occupiedKinds_None.
    by rewrite lookup_empty. }
  split.
  { intros Hne. destruct slots; [done|]. by cbn. }
  intros Hlen%holdReachable_length. by rewrite Hlen.
Qed.

Lemma clear_resets_witness :
  HoldArea_clear threeKinds = HoldArea_create
  ∧ canAddTile (HoldArea_clear threeKinds) = true.
Proof.
  destruct (clear_resets threeKinds) as (_ & _ & _ & Hcan & Hcreate).
  split; [apply Hcreate, threeKinds_reachable | by apply Hcan].
Defined.

(** ** Free state *)

Lemma checkTileFree_alt t (l : list Tile) :
  checkTileFree t l
  = negb (existsb (coversFromAbove t) l)
    && (negb (existsb (blocksSide (col (tileData t) - 1) t) l)
        || negb (existsb (blocksSide (col (tileData t) + 1) t) l)).
Proof.
  unfold checkTileFree. rewrite sideStep_fold. cbn [fst snd orb].
  by destruct (existsb (coversFromAbove t) l).
Qed.

Lemma existsb_subseteq {A} (f : A → bool) (l' l : list A) :
  l' ⊆ l → existsb f l' = true → existsb f l = true.
Proof.
  intros Hsub (x & Hx%list_elem_of_In & Hf)%existsb_exists.
  apply existsb_exists. exists x. split; [|done]. by apply list_elem_of_In, Hsub.
Qed.

Lemma existsb_subseteq_false {A} (f : A → bool) (l' l : list A) :
  l' ⊆ l → existsb f l = false → existsb f l' = false.
Proof.
  intros Hsub Hf. apply not_true_is_false. intros Ht.
  by rewrite (existsb_subseteq f l' l Hsub Ht) in Hf.
Qed.

Lemma checkTileFree_subseteq t (l' l : list Tile) :
  l' ⊆ l → checkTileFree t l = true → checkTileFree t l' = true.
Proof.
  intros Hsub. rewrite !checkTileFree_alt, !andb_true_iff, !orb_true_iff, !negb_true_iff.
  intros [Hc [Hl|Hr]]; (split; [by eapply existsb_subseteq_false|]).
  - left. by eapply existsb_subseteq_false.
  - right. by eapply existsb_subseteq_false.
Qed.


Lemma setFreeState_same t : setFreeState (isFree t) t = t.
Proof. by destruct t. Qed.

Lemma refresh_fresh a t :
  (isRemoved t = false → isFree t = checkTileFree t a) → refresh a t = t.
Proof.
  intros Hfresh. unfold refresh. destruct (isRemoved t) eqn:Hrem; [done|].
  rewrite <- Hfresh by done. apply setFreeState_same.
Qed.

Lemma updateFreeTiles_flagsFresh ts : flagsFresh (updateFreeTiles ts).
Proof. intros t Hin Hact. by apply updateFreeTiles_fresh. Qed.

Lemma flagsFresh_fixed ts : flagsFresh ts → updateFreeTiles ts = ts.
Proof.
  intros Hfresh. rewrite updateFreeTiles_refresh.
  rewrite <- (list_fmap_id ts) at 3. apply list_fmap_ext.
  intros i t Hi. apply refresh_fresh. apply Hfresh. by eapply list_elem_of_lookup_2.
Qed.

(** X5. [updateFreeTiles] is idempotent: it leaves identities, tile data
    and removed flags as they are, leaves removed tiles untouched, sets the
    free flag of every non-removed tile to [checkTileFree] on the current
    tiles, and a second run changes nothing. *)
Theorem updateFreeTiles_idempotent (ts : list Tile) :
  updateFreeTiles (updateFreeTiles ts) = updateFreeTiles ts
  ∧ tid <$> updateFreeTiles ts = tid <$> ts
  ∧ tileData <$> updateFreeTiles ts = tileData <$> ts
  ∧ isRemoved <$> updateFreeTiles ts = isRemoved <$> ts
  ∧ filter (λ t, isRemoved t = true) (updateFreeTiles ts)
    = filter (λ t, isRemoved t = true) ts
  ∧ flagsFresh (updateFreeTiles ts).
Proof.
  split; [apply flagsFresh_fixed, updateFreeTiles_flagsFresh|].
  split; [apply updateFreeTiles_tids|]. split; [apply updateFreeTiles_data|].
  split; [apply updateFreeTiles_removed|]. split; [|apply updateFreeTiles_flagsFresh].
  rewrite updateFreeTiles_refresh. generalize (activeTilesOf ts) as a. intros a.
  induction ts as [|t ts IH]; [done|]. rewrite fmap_cons, !filter_cons, IH.
  rewrite refresh_isRemoved. destruct (decide (isRemoved t = true)) as [Hrem|]; [|done].
  unfold refresh. by rewrite Hrem.
Qed.

(** X6. Taking tiles away never blocks a tile: a tile that is free among
    some active tiles is free among any part of them; so after
    [removeTile] of another tile a free, non-removed tile is still on the
    board, unchanged. *)
Theorem free_stays_free (b : Board) (u t : Tile) :
  flagsFresh (tiles b) → t ∈ tiles b → freeNow t → tid t ≠ tid u →
  t ∈ tiles (removeTile u b).1
  ∧ checkTileFree t (activeTilesOf (tiles (removeTile u b).1)) = true
  ∧ ∀ part, part ⊆ activeTilesOf (tiles b) → checkTileFree t part = true.
Proof.
  intros Hfresh Hin [Hact Hfree] Hne.
  assert (checkTileFree t (activeTilesOf (tiles b)) = true) as Hnow
    by (by rewrite <- Hfresh).
  assert (∀ part, part ⊆ activeTilesOf (tiles b) → checkTileFree t part = true) as Hmono.
  { intros part Hsub. by apply (checkTileFree_subseteq t part _ Hsub). }
  assert (activeTilesOf (markIf (tid u) <$> tiles b) ⊆ activeTilesOf (tiles b)) as Hsub.
  { rewrite markIf_active. intros x [_ ?]%list_elem_of_filter. done. }
  assert (t ∈ tiles (removeTile u b).1) as Hstill.
  { rewrite removeTile_tiles, updateFreeTiles_refresh.
    apply list_elem_of_fmap. exists t. split.
    - symmetry. apply refresh_fresh. intros _. rewrite Hfree. symmetry. by apply Hmono.
    - apply list_elem_of_fmap. exists t. split; [|done].
      unfold markIf. by rewrite decide_False. }
  split; [done|]. split; [|done].
  rewrite removeTile_tiles in Hstill |- *.
  by rewrite <- (updateFreeTiles_flagsFresh _ t Hstill Hact).
Qed.

Lemma freshScene_flagsFresh : flagsFresh (tiles (board freshScene)).
Proof. apply updateFreeTiles_flagsFresh. Qed.

Lemma free_stays_free_witness :
  tileAt 5 5 0 0 2 ∈ tiles (removeTile (tileAt 0 0 0 0 0) (board freshScene)).1.
Proof.
  apply (free_stays_free (board freshScene) (tileAt 0 0 0 0 0) (tileAt 5 5 0 0 2)).
  - apply freshScene_flagsFresh.
  - apply list_elem_of_In. vm_compute. do 5 right. by left.
  - by split.
  - cbn. lia.
Defined.

Lemma list_argmax (f : Tile → Z) (l : list Tile) :
  l ≠ [] → ∃ x, x ∈ l ∧ ∀ y, y ∈ l → (f y ≤ f x)%Z.
Proof.
  induction l as [|a l IH]; [done|]. intros _.
  destruct l as [|a' l'].
  { exists a. split; [by left|]. intros y ->%list_elem_of_singleton. lia. }
  destruct IH as (x & Hx & Hmax); [done|].
  destruct (decide (f x ≤ f a)%Z).
  - exists a. split; [by left|]. intros y [->|Hy]%elem_of_cons; [lia|].
    specialize (Hmax y Hy). lia.
  - exists x. split; [by right|]. intros y [->|Hy]%elem_of_cons; [lia|].
    by apply Hmax.
Qed.

Lemma some_active_tile_free (l : list Tile) :
  l ≠ [] → ∃ t, t ∈ l ∧ checkTileFree t l = true.
Proof.
  intros Hne.
  destruct (list_argmax (λ t, layer (tileData t)) l Hne) as (top & Htop & Hmax).
  set (sameRow := filter (λ o, layer (tileData o) = layer (tileData top)
                               ∧ row (tileData o) = row (tileData top)) l).
  assert (top ∈ sameRow) as Hin by (by apply list_elem_of_filter).
  destruct (list_argmax (λ t, (- col (tileData t))%Z) sameRow) as (m & Hm & Hmin).
  { intros Hnil. rewrite Hnil in Hin. by apply elem_of_nil in Hin. }
  apply list_elem_of_filter in Hm as [[Hml Hmr] Hm].
  exists m. split; [done|].
  rewrite checkTileFree_alt, andb_true_iff, orb_true_iff, !negb_true_iff. split.
  - apply not_true_is_false. intros (o & Ho%list_elem_of_In & Hc)%existsb_exists.
    unfold coversFromAbove in Hc. repeat case_decide; try done.
    specialize (Hmax o Ho). cbn in Hmax. lia.
  - left. apply not_true_is_false.
    intros (o & Ho%list_elem_of_In & Hb)%existsb_exists.
    apply bool_decide_eq_true in Hb as (_ & Hl & Hr & Hc).
    assert (o ∈ sameRow) as Hos.
    { apply list_elem_of_filter. split; [|done]. split; [congruence|lia]. }
    specialize (Hmin o Hos). cbn in Hmin. lia.
Qed.

(** X7. A board with fresh free flags that still has a tile has a free
    tile: some non-removed tile has nothing on a higher layer over it and an
    open left side. *)
Theorem board_has_free_tile (b : Board) :
  flagsFresh (tiles b) → 0 < getRemainingCount b →
  ∃ t, t ∈ getFreeTiles b ∧ t ∈ tiles b ∧ freeNow t
       ∧ checkTileFree t (activeTilesOf (tiles b)) = true.
Proof.
  intros Hfresh Hpos.
  destruct (some_active_tile_free (activeTilesOf (tiles b))) as (t & Hin & Hfree).
  { intros Hnil. unfold getRemainingCount in Hpos. rewrite Hnil in Hpos. cbn in Hpos. lia. }
  apply list_elem_of_filter in Hin as [Hact Hin].
  assert (isFree t = true) as Hflag by (by rewrite Hfresh).
  exists t. split_and!; try done.
  unfold getFreeTiles. by apply list_elem_of_filter.
Qed.

Lemma board_has_free_tile_witness :
  ∃ t, t ∈ getFreeTiles (board freshScene) ∧ t ∈ tiles (board freshScene) ∧ freeNow t
       ∧ checkTileFree t (activeTilesOf (tiles (board freshScene))) = true.
Proof.
  apply (board_has_free_tile (board freshScene)).
  - apply freshScene_flagsFresh.
  - vm_compute. lia.
Defined.

(** ** Board operations *)

Lemma markIf_removed i (ts : list Tile) :
  isRemoved <$> (markIf i <$> ts)
  = (λ t, if decide (tid t = i) then true else isRemoved t) <$> ts.
Proof.
  rewrite <- list_fmap_compose. apply list_fmap_ext. intros _ t _. cbn.
  unfold markIf. by destruct (decide (tid t = i)).
Qed.

Lemma markIf_data i (ts : list Tile) : tileData <$> (markIf i <$> ts) = tileData <$> ts.
Proof.
  rewrite <- list_fmap_compose. apply list_fmap_ext. intros _ t _. cbn.
  unfold markIf. by destruct (decide (tid t = i)).
Qed.

(** X8. [removeTile] marks the tiles with the given identity as removed and
    nothing else: identities and tile data (position, kind) stay, no removed
    tile comes back, the free flags are fresh again; with distinct
    identities exactly one non-removed tile leaves the count; and [onWin]
    is called exactly when no tile remains and the callback is set. *)
Theorem removeTile_effect (u : Tile) (b : Board) :
  let b' := (removeTile u b).1 in
  tid <$> tiles b' = tid <$> tiles b
  ∧ tileData <$> tiles b' = tileData <$> tiles b
  ∧ isRemoved <$> tiles b'
    = (λ t, if decide (tid t = tid u) then true else isRemoved t) <$> tiles b
  ∧ onWin b' = onWin b
  ∧ flagsFresh (tiles b')
  ∧ (NoDup (tid <$> tiles b) → u ∈ tiles b → isRemoved u = false →
       getRemainingCount b = S (getRemainingCount b'))
  ∧ ((removeTile u b).2 = true ↔ getRemainingCount b' = 0 ∧ onWin b = true).
Proof.
  cbn zeta. rewrite removeTile_tiles.
  split; [by rewrite updateFreeTiles_tids, markIf_tids|].
  split; [by rewrite updateFreeTiles_data, markIf_data|].
  split; [by rewrite updateFreeTiles_removed, markIf_removed|].
  split; [done|]. split; [apply updateFreeTiles_flagsFresh|].
  split; [apply removeTile_count|apply removeTile_fires].
Qed.

Lemma removeTile_effect_witness :
  getRemainingCount (board freshScene)
  = S (getRemainingCount (removeTile (tileAt 0 0 0 0 0) (board freshScene)).1).
Proof.
  destruct (removeTile_effect (tileAt 0 0 0 0 0) (board freshScene))
    as (_ & _ & _ & _ & _ & Hcount & _).
  apply Hcount.
  - change (tiles (board freshScene)) with (tiles (Board_create idleRnd)).
    unfold Board_create. rewrite createFrom_tids. apply NoDup_seq.
  - apply list_elem_of_In. vm_compute. by left.
  - reflexivity.
Defined.






(** ** Board creation and kind generation *)

Lemma newTiles_positions types (layout : list Layouts.TilePosition) :
  positionOf <$> imap (newTile types) layout
  = (λ p, (Layouts.col p, Layouts.row p, Layouts.layer p)) <$> layout.
Proof.
  rewrite fmap_imap.
  rewrite (imap_ext _ (λ _ p, (Layouts.col p, Layouts.row p, Layouts.layer p))) by done.
  apply imap_const.
Qed.

(** X10. [create] builds one tile per layout entry, in layout order: the
    tile of entry [i] has identity [i] and the entry's position, no tile is
    removed, the kinds are those of [generateTileTypesForPairs] for the
    layout size, the free flags are computed, and [onWin] is not set. *)
Theorem createFrom_structure (layout : list Layouts.TilePosition) (rnd : nat → nat) :
  let b := createFrom layout rnd in
  length (tiles b) = length layout
  ∧ tid <$> tiles b = seq 0 (length layout)
  ∧ positionOf <$> tiles b
    = (λ p, (Layouts.col p, Layouts.row p, Layouts.layer p)) <$> layout
  ∧ Forall (λ t, isRemoved t = false) (tiles b)
  ∧ kindOf <$> tiles b
    = generateTileTypesForPairs (length Layouts.TILE_EMOJIS) rnd (length layout)
  ∧ getRemainingCount b = length layout
  ∧ flagsFresh (tiles b)
  ∧ onWin b = false.
Proof.
  cbn zeta.
  assert (activeTilesOf (tiles (createFrom layout rnd)) = tiles (createFrom layout rnd))
    as Hall.
  { unfold createFrom. cbn [tiles].
    rewrite updateFreeTiles_active, updateFreeTiles_refresh, !newTiles_active. done. }
  assert (kindOf <$> tiles (createFrom layout rnd)
          = generateTileTypesForPairs (length Layouts.TILE_EMOJIS) rnd (length layout))
    as Hkinds.
  { rewrite <- Hall. apply createFrom_kinds. }
  split_and!; try done.
  - rewrite <- (length_fmap tid), createFrom_tids. apply length_seq.
  - apply createFrom_tids.
  - unfold createFrom. cbn [tiles]. by rewrite updateFreeTiles_positions, newTiles_positions.
  - rewrite <- Hall. apply Forall_forall. by intros t [? _]%list_elem_of_filter.
  - unfold getRemainingCount. rewrite Hall.
    rewrite <- (length_fmap tid), createFrom_tids. apply length_seq.
  - apply updateFreeTiles_flagsFresh.
Qed.

Lemma countKind_distinct_pairs k n :
  countKind k (flat_map (λ i, [i; i]) (seq 0 n)) = if decide (k < n) then 2 else 0.
Proof.
  induction n as [|n IH]; [done|].
  rewrite seq_S, flat_map_app, countKind_app, IH. cbn [flat_map app Nat.add].
  rewrite !countKind_cons, countKind_nil.
  destruct (decide (k < n)), (decide (n = k)), (decide (k < S n)); lia.
Qed.

Lemma pairs_below P n :
  n ≤ P →
  flat_map (λ i, [i mod P; i mod P]) (seq 0 n) = flat_map (λ i, [i; i]) (seq 0 n).
Proof.
  induction n as [|n IH]; intros Hn; [done|].
  rewrite seq_S, !flat_map_app, IH by lia. cbn [flat_map Nat.add].
  by rewrite Nat.mod_small by lia.
Qed.

(** X11. When the palette has at least as many kinds as there are pairs,
    [generateTileTypesForPairs] for an even size gives each of the first
    [pairCount] kinds exactly two tiles and no tile of any other kind; a
    fresh board therefore has exactly two tiles of each of the 22 kinds. *)
Theorem generateTileTypesForPairs_two_each (P pairCount : nat) (rnd : nat → nat) (k : nat) :
  (pairCount ≤ P →
   countKind k (generateTileTypesForPairs P rnd (2 * pairCount))
   = if decide (k < pairCount) then 2 else 0)
  ∧ boardKindCount k (Board_create rnd) = (if decide (k < 22) then 2 else 0).
Proof.
  assert (∀ P' n, n ≤ P' →
            countKind k (generateTileTypesForPairs P' rnd (2 * n))
            = if decide (k < n) then 2 else 0) as Hcount.
  { intros P' n Hle.
    rewrite (countKind_Permutation _ _ _ (generateTileTypesForPairs_Permutation _ _ _)).
    rewrite unshuffledTypes_closed.
    replace (2 * n / 2) with n by (rewrite Nat.mul_comm; symmetry; apply Nat.div_mul; lia).
    replace (2 * n mod 2) with 0
      by (rewrite Nat.mul_comm; symmetry; apply Nat.Div0.mod_mul).
    cbn [replicate]. rewrite app_nil_r, pairs_below by done.
    apply countKind_distinct_pairs. }
  split; [apply Hcount|].
  unfold boardKindCount, Board_create. rewrite createFrom_kinds, layout_size.
  change (length Layouts.TILE_EMOJIS) with 22. change 44 with (2 * 22).
  by rewrite Hcount.
Qed.

Lemma generateTileTypesForPairs_two_each_witness :
  countKind 7 (generateTileTypesForPairs 30 (λ i, 3 * i + 1) 20) = 2
  ∧ countKind 10 (generateTileTypesForPairs 30 (λ i, 3 * i + 1) 20) = 0.
Proof.
  destruct (generateTileTypesForPairs_two_each 30 10 (λ i, 3 * i + 1) 7) as [H7 _].
  destruct (generateTileTypesForPairs_two_each 30 10 (λ i, 3 * i + 1) 10) as [H10 _].
  split; [apply H7; lia|apply H10; lia].
Defined.

(** X12. For an odd size and a non-empty palette the padding tile makes kind 0 occur an odd number
    of times, while every other kind still occurs an even number of times:
    one tile of kind 0 has no partner. *)
Theorem generateTileTypesForPairs_odd (P N : nat) (rnd : nat → nat) :
  0 < P → Nat.Odd N →
  Nat.Odd (countKind 0 (generateTileTypesForPairs P rnd N))
  ∧ ∀ k, k ≠ 0 → Nat.Even (countKind k (generateTileTypesForPairs P rnd N)).
Proof.
  intros _ [h Hh].
  assert (N mod 2 = 1) as Hmod.
  { subst N. rewrite Nat.add_comm, Nat.mul_comm, Nat.Div0.mod_add. done. }
  assert (∀ k, countKind k (generateTileTypesForPairs P rnd N)
               = countKind k (flat_map (λ i, [i mod P; i mod P]) (seq 0 (N / 2)))
                 + (if decide (k = 0) then 1 else 0)) as Hcount.
  { intros k.
    rewrite (countKind_Permutation _ _ _ (generateTileTypesForPairs_Permutation _ _ _)).
    rewrite unshuffledTypes_closed, Hmod, countKind_app. cbn [replicate].
    rewrite countKind_cons, countKind_nil.
    destruct (decide (0 = k)), (decide (k = 0)); (done || lia). }
  split.
  - rewrite Hcount, decide_True by done.
    destruct (countKind_pairs_even P 0 (seq 0 (N / 2))) as [m ->]. by exists m.
  - intros k Hk. rewrite Hcount, decide_False, Nat.add_0_r by done.
    apply countKind_pairs_even.
Qed.

Lemma generateTileTypesForPairs_odd_witness :
  Nat.Odd (countKind 0 (generateTileTypesForPairs 22 (λ i, i) 5))
  ∧ Nat.Even (countKind 1 (generateTileTypesForPairs 22 (λ i, i) 5)).
Proof.
  destruct (generateTileTypesForPairs_odd 22 5 (λ i, i)) as [H0 Hk]; [lia|by exists 2|].
  split; [exact H0|]. by apply Hk.
Defined.

(** ** The shuffle reaches every arrangement *)

Lemma swap_length i j (a : list nat) : length (swap i j a) = length a.
Proof. by rewrite swap_Permutation. Qed.

Lemma swap_app_l i j (q r : list nat) :
  i < length q → j < length q → swap i j (q ++ r) = swap i j q ++ r.
Proof.
  intros Hi Hj. unfold swap. rewrite !lookup_app_l by done.
  destruct (lookup_lt_is_Some_2 q i Hi) as [x ->].
  destruct (lookup_lt_is_Some_2 q j Hj) as [y ->].
  rewrite insert_app_l by done. rewrite insert_app_l by (by rewrite length_insert). done.
Qed.

Lemma swap_lookup i j (a : list nat) x :
  i < length a → a !! j = Some x → swap i j a !! i = Some x.
Proof.
  intros Hi Hj. unfold swap. destruct (lookup_lt_is_Some_2 a i Hi) as [y Hy].
  rewrite Hy, Hj. destruct (decide (i = j)) as [->|Hne].
  - rewrite list_lookup_insert_eq by (by rewrite length_insert). congruence.
  - rewrite list_lookup_insert_ne by done.
    by rewrite list_lookup_insert_eq.
Qed.

Lemma fisherYatesFrom_app rnd i (q r : list nat) :
  i < length q → fisherYatesFrom rnd i (q ++ r) = fisherYatesFrom rnd i q ++ r.
Proof.
  revert q. induction i as [|i IH]; intros q Hi; [done|]. cbn [fisherYatesFrom].
  assert (rnd (S i) mod (S i + 1) < S i + 1) by (apply Nat.mod_upper_bound; lia).
  rewrite swap_app_l by lia. apply IH. rewrite swap_length. lia.
Qed.

Lemma fisherYatesFrom_ext rnd rnd' i (l : list nat) :
  (∀ j, 1 ≤ j ≤ i → rnd j = rnd' j) →
  fisherYatesFrom rnd i l = fisherYatesFrom rnd' i l.
Proof.
  revert l. induction i as [|i IH]; intros l Hext; [done|]. cbn [fisherYatesFrom].
  rewrite (Hext (S i)) by lia. apply IH. intros j Hj. apply Hext. lia.
Qed.

Lemma last_split (l : list nat) n x :
  length l = S n → l !! n = Some x → l = take n l ++ [x].
Proof.
  intros Hlen Hx. rewrite <- (take_drop n l) at 1. f_equal.
  rewrite (drop_S l x n Hx). rewrite drop_ge by lia. done.
Qed.

Lemma fisherYates_reaches n (l l' : list nat) :
  length l = n → l ≡ₚ l' → ∃ rnd, fisherYates rnd l = l'.
Proof.
  revert l l'. induction n as [|m IH]; intros l l' Hlen Hperm.
  { apply nil_length_inv in Hlen. subst l. apply Permutation_nil_l in Hperm. subst l'.
    by exists (λ _, 0). }
  assert (length l' = S m) as Hlen' by (by rewrite <- Hperm).
  destruct (lookup_lt_is_Some_2 l' m ltac:(lia)) as [x Hx].
  pose proof (last_split l' m x Hlen' Hx) as Hl'.
  set (p' := take m l') in *.
  assert (x ∈ l) as Hin.
  { rewrite Hperm, Hl'. apply elem_of_app. right. by apply list_elem_of_singleton. }
  apply list_elem_of_lookup_1 in Hin as [j Hj].
  assert (j < S m) as Hjm by (rewrite <- Hlen; by eapply lookup_lt_Some).
  set (l1 := swap m j l).
  assert (length l1 = S m) as Hlen1 by (subst l1; by rewrite swap_length).
  assert (l1 !! m = Some x) as H1x by (apply swap_lookup; [lia|done]).
  pose proof (last_split l1 m x Hlen1 H1x) as Hl1.
  set (q := take m l1) in *.
  assert (length q = m) as Hq.
  { assert (length (q ++ [x]) = S m) as Hsum by (by rewrite <- Hl1).
    rewrite length_app in Hsum. cbn in Hsum. lia. }
  assert (q ≡ₚ p') as Hqp.
  { apply (Permutation_app_inv_r [x]).
    rewrite <- Hl1, <- Hl'. subst l1. by rewrite swap_Permutation. }
  destruct (IH q p' Hq Hqp) as [rnd' Hrnd'].
  exists (λ i, if decide (i = m) then j else rnd' i).
  unfold fisherYates. rewrite Hlen. cbn [Nat.sub]. rewrite Nat.sub_0_r.
  destruct m as [|m0].
  { cbn [fisherYatesFrom]. assert (j = 0) as -> by lia.
    assert (l1 = l) as Hsame.
    { unfold l1, swap. rewrite Hj.
      by rewrite (list_insert_id l 0 x Hj), (list_insert_id l 0 x Hj). }
    rewrite <- Hsame, Hl1, Hl'.
    apply nil_length_inv in Hq. rewrite Hq in Hqp |- *.
    apply Permutation_nil_l in Hqp. by rewrite <- Hqp. }
  cbn [fisherYatesFrom]. rewrite decide_True by done.
  rewrite Nat.mod_small by lia. fold l1. rewrite Hl1.
  rewrite fisherYatesFrom_app by lia.
  rewrite Hl'. f_equal. rewrite <- Hrnd'. unfold fisherYates. rewrite Hq.
  cbn [Nat.sub]. rewrite Nat.sub_0_r.
  apply fisherYatesFrom_ext. intros i Hi. by rewrite decide_False by lia.
Qed.

(** X13. The Fisher–Yates loop can produce every arrangement: for each
    permutation of a list of kinds some sequence of draws yields it, and so
    [shuffle] can deal the kinds of the non-removed tiles in any order. *)
Theorem shuffle_reaches_every_order (b : Board) (target : list nat) :
  target ≡ₚ boardKinds b →
  (∃ rnd, fisherYates rnd (boardKinds b) = target)
  ∧ ∃ rnd, boardKinds (shuffle rnd b) = target.
Proof.
  intros Hperm.
  destruct (fisherYates_reaches (length (boardKinds b)) (boardKinds b) target)
    as [rnd Hrnd]; [done|done|].
  split; [by exists rnd|]. exists rnd.
  unfold boardKinds at 1, shuffle. cbn [tiles withTiles].
  rewrite updateFreeTiles_kinds, assignTypes_kinds; [done|].
  by rewrite fisherYates_length, length_fmap.
Qed.

Lemma shuffle_reaches_every_order_witness :
  ∃ rnd, boardKinds (shuffle rnd threeTiles) = [3; 1; 2].
Proof.
  apply (shuffle_reaches_every_order threeTiles [3; 1; 2]).
  change (boardKinds threeTiles) with [1; 2; 3].
  apply (Permutation_cons_append [1; 2] 3).
Defined.

(** ** Session: hints *)

Lemma sceneReachable_fresh g : sceneReachable g → flagsFresh (tiles (board g)).
Proof.
  induction 1 as [rnd stored|i now g _ IH|rnd g _ IH|rnd g _ IH|g _ IH].
  - apply updateFreeTiles_flagsFresh.
  - destruct (tapTile_cases i now g) as [(_ & -> & _)|(tile & _ & _ & _ & Hruns & ->)];
      [done|].
    destruct Hruns as (_ & _ & Hov & Hproc & Hcan).
    destruct (onTileSelected_runs tile now g Hov Hproc Hcan) as (-> & _).
    rewrite removeTile_tiles. apply updateFreeTiles_flagsFresh.
  - apply updateFreeTiles_flagsFresh.
  - apply updateFreeTiles_flagsFresh.
  - unfold overlayTimerFires. by destruct (overlayTimers g).
Qed.

Lemma findHintTile_free counts b t :
  findHintTile counts b = Some t → t ∈ getFreeTiles b.
Proof.
  unfold findHintTile. intros Hhint.
  repeat case_match; simplify_eq;
    match goal with
    | H : find _ _ = Some t |- _ => apply find_some in H as [Hin _]; by apply list_elem_of_In
    end.
Qed.

Lemma findHintTile_None counts b t :
  findHintTile counts b = None → t ∈ getFreeTiles b →
  default 0 (counts !! kindOf t) = 0 ∧ boardKindCount (kindOf t) b < 2.
Proof.
  unfold findHintTile. intros Hnone Hin%list_elem_of_In.
  repeat case_match; simplify_eq.
  repeat match goal with
         | H : find _ _ = None |- _ =>
             apply (λ H', find_none _ _ H' t Hin) in H; cbn beta in H
         end.
  repeat match goal with
         | H : bool_decide _ = false |- _ => apply bool_decide_eq_false in H
         end.
  unfold getRemainingTiles in *. rewrite filter_kind_length in *.
  unfold boardKindCount, boardKinds. lia.
Qed.

Lemma no_active_no_free (ts : list Tile) :
  activeTilesOf ts = [] →
  filter (λ t, isRemoved t = false ∧ isFree t = true) ts = [].
Proof.
  unfold activeTilesOf. induction ts as [|t ts IH]; [done|].
  rewrite filter_cons. destruct (decide (isRemoved t = false)); [done|]. intros Hnil.
  rewrite filter_cons_False by (intros [? _]; congruence). by apply IH.
Qed.

(** ** Session: score bookkeeping *)

Lemma rapid_matches g (times : list Z) :
  rapid (lastMatchTime g) times →
  let g' := foldl (λ acc now, (onHoldMatch now acc).1) g times in
  let n := Z.of_nat (length times) in
  comboCount g' = (comboCount g + n)%Z
  ∧ (2 * (score g' - score g) = 100 * (2 * n * comboCount g + n * (n + 1)))%Z.
Proof.
  revert g. induction times as [|now times IH]; intros g Hrapid; cbn zeta.
  { cbn. lia. }
  destruct Hrapid as [Hgap Hrest]. cbn [foldl].
  set (g1 := (onHoldMatch now g).1).
  assert (comboCount g1 = (comboCount g + 1)%Z ∧ score g1 = (score g + 100 * (comboCount g + 1))%Z
          ∧ lastMatchTime g1 = now) as (Hc & Hs & Ht).
  { subst g1. unfold onHoldMatch. cbn [fst comboCount score lastMatchTime].
    by rewrite decide_True. }
  destruct (IH g1) as [Hcombo Hscore]; [by rewrite Ht|].
  rewrite Hcombo, Hc. cbn [length]. split; [lia|]. rewrite Hc, Hs in Hscore.
  rewrite Nat2Z.inj_succ. nia.
Qed.

(** X16. Matches that each follow the previous one by less than 3000 ms
    raise the multiplier by one each time: after [n] of them the combo
    count has grown by [n] and the score by 100 times the sum of the
    multipliers used; from a new game that is 100, 300, 600, ... *)
Theorem rapid_matches_score (g : GameScene) (times : list Z) :
  rapid (lastMatchTime g) times →
  let g' := foldl (λ acc now, (onHoldMatch now acc).1) g times in
  let n := Z.of_nat (length times) in
  comboCount g' = (comboCount g + n)%Z
  ∧ (2 * (score g' - score g) = 100 * (2 * n * comboCount g + n * (n + 1)))%Z
  ∧ (comboCount g = 0%Z → score g = 0%Z → (2 * score g' = 100 * n * (n + 1))%Z).
Proof.
  intros Hrapid. destruct (rapid_matches g times Hrapid) as [Hc Hs]. cbn zeta in *.
  split; [done|]. split; [done|]. intros Hc0 Hs0. rewrite Hc0, Hs0 in Hs. lia.
Qed.

Lemma rapid_matches_score_witness :
  score (foldl (λ acc now, (onHoldMatch now acc).1) freshScene [1000; 2500; 5000]%Z) = 600%Z.
Proof.
  destruct (rapid_matches_score freshScene [1000; 2500; 5000]%Z) as (_ & _ & Hs).
  { cbn. unfold COMBO_TIME_WINDOW. lia. }
  specialize (Hs eq_refl eq_refl). cbn [length] in Hs.
  change (Z.of_nat 3) with 3%Z in Hs. lia.
Defined.

(** ** Session: how a turn ends *)

Lemma getTileCount_holdOf (ks : list nat) : getTileCount (holdOf ks) = length ks.
Proof. apply getTileCount_prefix. Qed.

Lemma dispatchAll_nil now g : dispatchAll now [] g = (g, []).
Proof. reflexivity. Qed.

Lemma dispatchAll_match now k c g :
  dispatchAll now [OnMatch k c] g = ((onHoldMatch now g).1, (onHoldMatch now g).2).
Proof. reflexivity. Qed.

Lemma dispatchAll_game_over now g :
  dispatchAll now [OnGameOver] g = (setOverlay true g, [ShowGameOverScreen]).
Proof. reflexivity. Qed.

Lemma onHoldMatch_frame now g :
  board (onHoldMatch now g).1 = board g
  ∧ holdArea (onHoldMatch now g).1 = holdArea g
  ∧ overlayVisible (onHoldMatch now g).1 = overlayVisible g
  ∧ ∃ points multiplier, (onHoldMatch now g).2 = [FloatingScore points multiplier].
Proof. unfold onHoldMatch. cbn [fst snd board holdArea overlayVisible]. eauto 6. Qed.

(** The turn on a hold in normal form, when the board's [onWin] callback
    does not show the win screen. *)
Lemma onTileSelected_outcome tile now g (ks : list nat) :
  overlayVisible g = false → isProcessing g = false →
  holdArea g = holdOf ks → length ks < SLOT_COUNT → NoDup ks →
  ((removeTile tile (board g)).2 = true → ks ≠ []) →
  let r := onTileSelected tile now g in
  let cleared := bool_decide (getRemainingCount (removeTile tile (board g)).1 = 0) in
  if decide (kindOf tile ∈ ks) then
    overlayVisible r.1 = cleared && bool_decide (length ks = 1)
    ∧ (ShowGameOverScreen ∉ r.2)
    ∧ (ShowWinScreen ∈ r.2 ↔ cleared && bool_decide (length ks = 1) = true)
  else
    overlayVisible r.1 = bool_decide (length ks = 3)
    ∧ (ShowGameOverScreen ∈ r.2 ↔ length ks = 3)
    ∧ ShowWinScreen ∉ r.2.
Proof.
  intros Hov Hproc Hhold Hlen Hnd Hlegacy. cbn zeta.
  assert (canAddTile (holdArea g) = true) as Hcan.
  { rewrite Hhold. apply not_false_iff_true. intros Hfull%canAddTile_false.
    rewrite holdOf_length in Hfull by lia. unfold holdOf in Hfull.
    rewrite getTileCount_prefix in Hfull. lia. }
  unfold onTileSelected. rewrite Hov, Hproc, Hcan. cbn [negb].
  set (removal := removeTile tile (board (setProcessing true g))).
  change (removeTile tile (board g)) with removal in Hlegacy |- *.
  set (g2 := setBoard removal.1 (setProcessing true g)).
  assert ((if removal.2 then GameScene_onWin g2 else (g2, [])) = (g2, [])) as ->.
  { destruct removal.2; [|done]. unfold GameScene_onWin.
    change (holdArea g2) with (holdArea g). rewrite Hhold. unfold holdOf.
    rewrite getTileCount_prefix. destruct (decide (length ks = 0)) as [Hz|]; [|done].
    apply nil_length_inv in Hz. by destruct Hlegacy. }
  cbn [fst snd]. change (holdArea g2) with (holdArea g). rewrite Hhold.
  assert (length ks ≤ SLOT_COUNT) as Hle by lia.
  rewrite (addTile_holdOf (kindOf tile) ks Hle Hnd).
  rewrite (decide_False (P := length ks = SLOT_COUNT)) by lia.
  destruct (decide (kindOf tile ∈ ks)) as [Hin|Hnin]; cbn [fst snd].
  - pose proof (filter_other_length (kindOf tile) ks) as Hf.
    rewrite (countKind_NoDup _ _ Hnd), decide_True in Hf by done.
    set (g3 := setHoldArea _ g2). rewrite dispatchAll_match.
    destruct (onHoldMatch_frame now g3) as (Hb & Hh & Ho & pts & mult & Hsig).
    cbn [fst snd]. rewrite Hb, Hh, Hsig.
    change (board g3) with removal.1.
    change (holdArea g3) with (holdOf (filter (λ x, x ≠ kindOf tile) ks)).
    rewrite !getTileCount_holdOf.
    assert (bool_decide (length (filter (λ x, x ≠ kindOf tile) ks) = 0)
            = bool_decide (length ks = 1)) as ->.
    { apply bool_decide_ext. lia. }
    destruct (bool_decide (getRemainingCount removal.1 = 0) && bool_decide (length ks = 1))
      eqn:Hwin; cbn [showWinScreen fst snd setProcessing setOverlay overlayVisible app].
    + split_and!; [done| |].
      * intros Hin'. set_unfold in Hin'. naive_solver.
      * split; [done|]. intros _. set_unfold. naive_solver.
    + split_and!; [by rewrite Ho| |].
      * intros Hin'. set_unfold in Hin'. naive_solver.
      * split; [|done]. intros Hin'. set_unfold in Hin'. naive_solver.
  - assert (bool_decide (getTileCount (holdOf (ks ++ [kindOf tile])) = 0) = false) as Hnot.
    { apply bool_decide_eq_false.
      rewrite getTileCount_holdOf, length_app. cbn [length]. lia. }
    set (g3 := setHoldArea _ g2).
    destruct (decide (length ks + 1 = SLOT_COUNT)) as [Hfull|Hroom].
    + assert (length ks = 3) as H3 by (unfold SLOT_COUNT in Hfull; lia).
      rewrite dispatchAll_game_over. cbn [fst snd setOverlay board holdArea].
      change (holdArea g3) with (holdOf (ks ++ [kindOf tile])).
      rewrite Hnot, andb_false_r.
      cbn [fst snd setProcessing setOverlay overlayVisible app].
      rewrite (bool_decide_eq_true_2 (length ks = 3)) by done.
      split_and!; [done| |].
      * split; [done|]. intros _. set_unfold. naive_solver.
      * intros Hin'. set_unfold in Hin'. naive_solver.
    + assert (length ks ≠ 3) as H3 by (unfold SLOT_COUNT in Hroom; lia).
      rewrite dispatchAll_nil. cbn [fst snd].
      change (holdArea g3) with (holdOf (ks ++ [kindOf tile])).
      rewrite Hnot, andb_false_r.
      cbn [fst snd setProcessing setOverlay overlayVisible app].
      rewrite (bool_decide_eq_false_2 (length ks = 3)) by done.
      split_and!; [done| |].
      * split; [|done]. intros Hin'. set_unfold in Hin'. naive_solver.
      * intros Hin'. set_unfold in Hin'. naive_solver.
Qed.

Lemma tapTile_rejected i now g :
  ¬ turnStarts i g → ShowGameOverScreen ∉ (tapTile i now g).2.
Proof.
  intros Hno Hin. apply Hno. unfold tapTile, turnStarts, turnRuns in *.
  destruct (find _ _) as [tile|] eqn:Hfind; [|by apply elem_of_nil in Hin].
  exists tile. split; [done|]. unfold onTileClick in Hin.
  destruct (isRemoved tile); [by apply elem_of_nil in Hin|].
  destruct (isFree tile); cbn [negb] in Hin; [|by apply list_elem_of_singleton in Hin].
  unfold onTileSelected in Hin.
  destruct (overlayVisible g); [by apply elem_of_nil in Hin|].
  destruct (isProcessing g); [by apply elem_of_nil in Hin|].
  destruct (canAddTile (holdArea g)); [done|].
  by apply list_elem_of_singleton in Hin.
Qed.

Lemma tap_blocked_by_overlay g i now : overlayVisible g = true → (tapTile i now g).1 = g.
Proof.
  intros Hov. unfold tapTile. destruct (find _ _) as [tile|]; [|done].
  destruct (onTileClick tile); try done. unfold onTileSelected. by rewrite Hov.
Qed.

(** ** Session: what a turn moves *)

(** ** Session: restart *)

(** X19. [newGame] deals a fresh board of 44 tiles and empties the hold,
    resets score and combo and keeps the high score, but leaves the overlay
    flag as it is: while it is up taps still do nothing; the delayed
    callback lowers it, and then a tap on any free tile starts a turn.  The
    new board's [onWin] callback is not set, so [removeTile] never calls
    it. *)
Theorem newGame_restart (rnd : nat → nat) (g : GameScene) :
  let g' := newGame rnd g in
  getRemainingCount (board g') = 44
  ∧ getTileCount (holdArea g') = 0
  ∧ scoreState g' = (0%Z, highScore g, 0%Z, 0%Z, localStorage g)
  ∧ overlayVisible g' = overlayVisible g
  ∧ (overlayVisible g = true → ∀ i now, (tapTile i now g').1 = g')
  ∧ overlayVisible (overlayTimerFires g') = false
  ∧ (holdArea g ≠ [] → ∀ i tile,
       find (λ t, bool_decide (tid t = i)) (tiles (board g')) = Some tile →
       freeNow tile → turnStarts i (overlayTimerFires g'))
  ∧ (∀ tile, (removeTile tile (board g')).2 = false).
Proof.
  cbn zeta. split; [apply Board_create_count|].
  split; [apply clear_getTileCount|]. split; [done|]. split; [done|].
  split; [intros Hov i now; by apply tap_blocked_by_overlay|]. split; [done|].
  split.
  - intros Hne i tile Hfind [Hact Hfree]. exists tile. split; [done|].
    unfold turnRuns. split_and!; try done. cbn [overlayTimerFires newGame overlayTimers holdArea].
    by apply clear_canAddTile.
  - intros tile. unfold removeTile. cbn [snd newGame board]. apply andb_false_r.
Qed.

Lemma newGame_restart_witness :
  (∀ i now, (tapTile i now (newGame idleRnd lostScene)).1 = newGame idleRnd lostScene)
  ∧ turnStarts 0 (overlayTimerFires (newGame idleRnd lostScene)).
Proof.
  destruct (newGame_restart idleRnd lostScene) as (_ & _ & _ & _ & Hblocked & _ & Hstart & _).
  split.
  - apply Hblocked. by vm_compute.
  - apply (Hstart ltac:(by vm_compute) 0 (tileAt 0 0 0 0 0)); [by vm_compute|by split].
Defined.

(** ** Drawing order and pointer hits *)

Lemma layout_inDepthRange :
  Forall (λ p : Z * Z * Z, (0 ≤ p.1.1 < 10 ∧ 0 ≤ p.1.2 < 100)%Z)
         ((λ p, (Layouts.col p, Layouts.row p, Layouts.layer p)) <$> Layouts.getLayout).
Proof. apply (bool_decide_unpack _). by vm_compute. Qed.

(** X20. For columns in [0, 10) and rows in [0, 100) the depth set by
    [updateDepth] orders tiles by layer first, then row, then column, and
    two tiles get the same depth only at the same position; every tile of a
    created board is in that range. *)
Theorem updateDepth_order (t1 t2 : Tile) :
  inDepthRange t1 → inDepthRange t2 →
  ((updateDepth t1 < updateDepth t2)%Z ↔ stackedBelow t1 t2)
  ∧ (updateDepth t1 = updateDepth t2 ↔ positionOf t1 = positionOf t2)
  ∧ ∀ rnd t, t ∈ tiles (Board_create rnd) → inDepthRange t.
Proof.
  unfold inDepthRange, updateDepth, stackedBelow, positionOf.
  intros [Hc1 Hr1] [Hc2 Hr2]. split; [lia|]. split.
  - split; [|by intros [= -> -> ->]]. intros Heq.
    assert (layer (tileData t1) = layer (tileData t2)) as Hl by lia.
    assert (row (tileData t1) = row (tileData t2)) as Hr by lia.
    assert (col (tileData t1) = col (tileData t2)) as Hc by lia.
    by rewrite Hl, Hr, Hc.
  - intros rnd t Hin.
    assert (positionOf t ∈ positionOf <$> tiles (Board_create rnd)) as Hp
      by (by apply list_elem_of_fmap_2).
    unfold Board_create, createFrom in Hp. cbn [tiles] in Hp.
    rewrite updateFreeTiles_positions, newTiles_positions in Hp.
    by apply (proj1 (Forall_forall _ _) layout_inDepthRange) in Hp.
Qed.

Lemma updateDepth_order_witness :
  (updateDepth (tileAt 5 5 4 0 2) < updateDepth (tileAt 30 1 1 1 7))%Z.
Proof.
  apply (updateDepth_order (tileAt 5 5 4 0 2) (tileAt 30 1 1 1 7)).
  - unfold inDepthRange. cbn. lia.
  - unfold inDepthRange. cbn. lia.
  - left. cbn. lia.
Defined.

Lemma insertByLayer_elem t u (sorted : list Tile) :
  u ∈ insertByLayer t sorted ↔ u = t ∨ u ∈ sorted.
Proof.
  induction sorted as [|s rest IH]; cbn [insertByLayer].
  - rewrite list_elem_of_singleton. split; [by left|]. intros [?|?%elem_of_nil]; done.
  - case_decide; rewrite !elem_of_cons, ?IH; naive_solver.
Qed.

Lemma sortByLayer_elem u (ts : list Tile) : u ∈ sortByLayer ts ↔ u ∈ ts.
Proof.
  induction ts as [|t ts IH]; [done|]. cbn [sortByLayer foldr].
  rewrite insertByLayer_elem, elem_of_cons. fold (sortByLayer ts). by rewrite IH.
Qed.

(** The head of the sorted list: the first tile of the highest layer. *)
Lemma sortByLayer_head (ts : list Tile) :
  match head (sortByLayer ts) with
  | None => ts = []
  | Some m =>
      ∃ before after, ts = before ++ m :: after
        ∧ (∀ o, o ∈ before → (layer (tileData o) < layer (tileData m))%Z)
        ∧ (∀ o, o ∈ after → (layer (tileData o) ≤ layer (tileData m))%Z)
  end.
Proof.
  induction ts as [|t ts IH]; [done|]. cbn [sortByLayer foldr]. fold (sortByLayer ts).
  destruct (sortByLayer ts) as [|s rest] eqn:Hsorted; cbn [head insertByLayer] in *.
  - subst ts. exists [], []. split_and!; try done; by intros o ?%elem_of_nil.
  - destruct IH as (before & after & -> & Hbefore & Hafter).
    destruct (decide (layer (tileData t) < layer (tileData s))%Z) as [Hlt|Hge]; cbn [head].
    + exists (t :: before), after. split_and!; try done.
      intros o [->|Ho]%elem_of_cons; [done|by apply Hbefore].
    + exists [], (before ++ s :: after). split_and!; try done.
      * by intros o ?%elem_of_nil.
      * intros o [Ho|[->|Ho]%elem_of_cons]%elem_of_app.
        -- specialize (Hbefore o Ho). lia.
        -- lia.
        -- specialize (Hafter o Ho). lia.
Qed.

(** X21. [findTileAtPosition] returns nothing exactly when no non-removed
    tile contains the point; otherwise it returns a non-removed tile that
    contains the point and lies on the highest layer among those, the first
    such tile in board order. *)
Theorem findTileAtPosition_topmost (containsPoint : Tile → bool) (ts : list Tile) :
  let hit t := isRemoved t = false ∧ containsPoint t = true in
  match findTileAtPosition containsPoint ts with
  | None => ∀ t, t ∈ ts → ¬ hit t
  | Some m =>
      ∃ before after, ts = before ++ m :: after
        ∧ hit m
        ∧ (∀ o, o ∈ before → hit o → (layer (tileData o) < layer (tileData m))%Z)
        ∧ (∀ o, o ∈ after → hit o → (layer (tileData o) ≤ layer (tileData m))%Z)
  end.
Proof.
  cbn zeta. unfold findTileAtPosition.
  set (hit := λ t, isRemoved t = false ∧ containsPoint t = true).
  pose proof (sortByLayer_head (filter hit ts)) as Hhead.
  destruct (head _) as [m|].
  - destruct Hhead as (fb & fa & Hsplit & Hb & Ha).
    assert (∃ before after, ts = before ++ m :: after
              ∧ filter hit before = fb ∧ filter hit after = fa ∧ hit m)
      as (before & after & -> & <- & <- & Hm).
    { clear Hb Ha. revert fb Hsplit. induction ts as [|t ts IH]; intros fb Hsplit.
      - by destruct fb.
      - rewrite filter_cons in Hsplit. destruct (decide (hit t)) as [Ht|Ht].
        + destruct fb as [|f fb].
          * injection Hsplit as -> Hfa. exists [], ts. by split_and!.
          * injection Hsplit as -> Hrest.
            destruct (IH fb Hrest) as (before & after & -> & Hfb & Hfa & Hm).
            exists (f :: before), after. split_and!; try done.
            by rewrite filter_cons_True, Hfb.
        + destruct (IH fb Hsplit) as (before & after & -> & Hfb & Hfa & Hm).
          exists (t :: before), after. split_and!; try done.
          by rewrite filter_cons_False. }
    exists before, after. split; [done|]. split; [done|]. split.
    + intros o Ho Hhit. apply Hb. by apply list_elem_of_filter.
    + intros o Ho Hhit. apply Ha. by apply list_elem_of_filter.
  - intros t Hin Hhit.
    assert (t ∈ filter hit ts) as Hf by (by apply list_elem_of_filter).
    rewrite Hhead in Hf. by apply elem_of_nil in Hf.
Qed.

(** ** Feedback of a tap that starts no turn *)

Lemma find_tid_NoDup (ts : list Tile) (tile : Tile) :
  NoDup (tid <$> ts) → tile ∈ ts →
  find (λ t, bool_decide (tid t = tid tile)) ts = Some tile.
Proof.
  induction ts as [|a ts IH]; intros Hnd Hin; [by apply elem_of_nil in Hin|].
  rewrite fmap_cons in Hnd. apply NoDup_cons in Hnd as [Hfresh Hnd].
  cbn [find]. apply elem_of_cons in Hin as [->|Hin].
  - by rewrite bool_decide_eq_true_2.
  - rewrite bool_decide_eq_false_2; [by apply IH|].
    intros Heq. apply Hfresh. rewrite Heq. by apply list_elem_of_fmap_2.
Qed.

Lemma onTileSelected_signals tile now g s :
  s ∈ (onTileSelected tile now g).2 →
  s = HoldFullMessage ∨ s = ShowWinScreen ∨ s = ShowGameOverScreen
  ∨ ∃ points multiplier, s = FloatingScore points multiplier.
Proof.
  unfold onTileSelected.
  destruct (overlayVisible g); [by intros ?%elem_of_nil|].
  destruct (isProcessing g); [by intros ?%elem_of_nil|].
  destruct (canAddTile (holdArea g)); cbn [negb];
    [|intros ->%list_elem_of_singleton; by left].
  cbn zeta.
  match goal with
  | |- context [if ?c then GameScene_onWin ?x else (?x, [])] =>
      set (won1 := if c then GameScene_onWin x else (x, []))
  end.
  set (added := addTile (kindOf tile) (holdArea won1.1)).
  set (g3 := setHoldArea added.1.1 won1.1).
  set (handled := dispatchAll now added.2 g3).
  cbn [snd]. rewrite !elem_of_app. intros [Hs|[Hs|Hs]].
  - right. left. subst won1. destruct (_ : bool) in Hs; [|by apply elem_of_nil in Hs].
    unfold GameScene_onWin in Hs. case_decide; [|by apply elem_of_nil in Hs].
    by apply list_elem_of_singleton in Hs.
  - subst handled. pose proof (addTile_events (kindOf tile) (holdArea won1.1)) as Hev.
    fold added in Hev. destruct (matched _).
    + rewrite Hev, dispatchAll_match in Hs. cbn [snd] in Hs.
      destruct (onHoldMatch_frame now g3) as (_ & _ & _ & p & m & Hsig).
      rewrite Hsig in Hs. apply list_elem_of_singleton in Hs. right. right. right. eauto.
    + destruct Hev as [Hev|Hev]; rewrite Hev in Hs.
      * by apply elem_of_nil in Hs.
      * rewrite dispatchAll_game_over in Hs. apply list_elem_of_singleton in Hs. auto.
  - right. left. destruct (_ && _) in Hs; [|by apply elem_of_nil in Hs].
    by apply list_elem_of_singleton in Hs.
Qed.

(** * The session as the event loop runs it *)

(** ** The event loop and the whole turn *)

Lemma removeTile_phases tile b : removeTile tile b = finishRemoval (beginRemoval tile b).
Proof. reflexivity. Qed.

Lemma run_nil s : run [] s = (s, []).
Proof. reflexivity. Qed.

Lemma run_from evs s sigs :
  foldl (λ acc ev, let r := step ev acc.1 in (r.1, acc.2 ++ r.2)) (s, sigs) evs
  = ((run evs s).1, sigs ++ (run evs s).2).
Proof.
  unfold run. revert s sigs. induction evs as [|ev evs IH]; intros s sigs.
  - cbn. by rewrite app_nil_r.
  - cbn [foldl fst snd]. rewrite (IH _ (sigs ++ _)), (IH _ ([] ++ _)).
    cbn [fst snd app]. by rewrite app_assoc.
Qed.

Lemma run_cons ev evs s :
  run (ev :: evs) s = ((run evs (step ev s).1).1, (step ev s).2 ++ (run evs (step ev s).1).2).
Proof. unfold run at 1. cbn [foldl fst snd app]. apply run_from. Qed.

Lemma run_app evs1 evs2 s :
  run (evs1 ++ evs2) s
  = ((run evs2 (run evs1 s).1).1, (run evs1 s).2 ++ (run evs2 (run evs1 s).1).2).
Proof.
  revert s. induction evs1 as [|ev evs1 IH]; intros s.
  - cbn [app]. rewrite run_nil. cbn [fst snd app]. by destruct (run evs2 s).
  - cbn [app]. rewrite !run_cons, IH. cbn [fst snd]. by rewrite app_assoc.
Qed.

Lemma run_resume_idle n now s :
  pending s = [] → run (replicate n (Resume 0 now)) s = (s, []).
Proof.
  intros Hidle. induction n as [|n IH]; [done|].
  cbn [replicate]. rewrite run_cons. cbn [step]. rewrite Hidle.
  change (([] : list Task) !! 0) with (@None Task). cbn [fst snd app]. by rewrite IH.
Qed.

Lemma setHoldArea_same g : setHoldArea (holdArea g) g = g.
Proof. by destruct g. Qed.

Lemma matchingSlots_lookup k slots i :
  i ∈ matchingSlots k slots → slots !! i = Some (Some k).
Proof. unfold matchingSlots. by intros [? _]%list_elem_of_filter. Qed.

Lemma matchingSlots_NoDup k slots : NoDup (matchingSlots k slots).
Proof. unfold matchingSlots. apply NoDup_filter, NoDup_seq. Qed.

Lemma releaseSlot_all (l : list nat) (slots : list (option nat)) :
  NoDup l → (∀ i, i ∈ l → ∃ k, slots !! i = Some (Some k)) →
  foldl releaseSlot (slots, false) l = (foldl (λ acc i, <[i := None]> acc) slots l, false).
Proof.
  revert slots. induction l as [|i l IH]; intros slots Hnd Hall; [done|].
  apply NoDup_cons in Hnd as [Hi Hnd]. cbn [foldl]. unfold releaseSlot at 2. cbn [fst snd].
  destruct (Hall i) as [k ->]; [by left|]. apply IH; [done|].
  intros j Hj. destruct (Hall j) as [k' Hk']; [by right|]. exists k'.
  rewrite list_lookup_insert_ne; [done|]. intros ->. done.
Qed.

Lemma run_andThen ev evs s : run (ev :: evs) s = andThen (step ev s) evs.
Proof. apply run_cons. Qed.

Lemma andThen_silent s evs : andThen (s, []) evs = run evs s.
Proof. unfold andThen. cbn [fst snd app]. by destruct (run evs s). Qed.

Lemma andThen_idle r n now :
  pending r.1 = [] → andThen r (replicate n (Resume 0 now)) = r.
Proof.
  intros Hidle. unfold andThen. rewrite run_resume_idle by done.
  cbn [fst snd]. rewrite app_nil_r. by destruct r.
Qed.

Lemma resume_first task now g old :
  step (Resume 0 now) {| scene := g; destroyed := old; pending := [task] |}
  = resumeTask task now (idle g old).
Proof. reflexivity. Qed.

Lemma finishMatch_pending now s : pending (finishMatch now s).1 = pending s.
Proof. reflexivity. Qed.

(** From the compaction to the end of the turn. *)
Lemma compact_onward kind now g old n :
  andThen (compactThenWait kind now (idle g old)) (replicate (S n) (Resume 0 now))
  = finishMatch now (idle (setHoldArea (compactSlots (holdArea g)) g) old).
Proof.
  unfold compactThenWait. cbn [idle scene].
  set (g' := setHoldArea (compactSlots (holdArea g)) g).
  change (withScene g' (idle g old)) with (idle g' old).
  destruct (decide _) as [Hempty|Hsome].
  - by apply andThen_idle.
  - rewrite andThen_silent. cbn [replicate]. rewrite run_andThen.
    unfold suspend. cbn [idle scene destroyed pending app]. rewrite resume_first.
    cbn [resumeTask]. by apply andThen_idle.
Qed.

(** From the tween of [addTile] to the end of the turn, with nothing in
    between: what [addTile] and the handlers of its callbacks do at once. *)
Lemma flight_onward kind now w old ix :
  findEmptySlot (holdArea w) = Some ix →
  let slots1 := <[ix := Some kind]> (holdArea w) in
  let added := addTile kind (holdArea w) in
  let handled := dispatchAll now added.2 (setHoldArea added.1.1 w) in
  let ended := endTurn handled.1 in
  run (replicate 4 (Resume 0 now))
      {| scene := setHoldArea slots1 w; destroyed := old; pending := [AwaitFlight kind] |}
  = (idle ended.1 old, handled.2 ++ ended.2).
Proof.
  intros Hix. cbn zeta. unfold addTile. rewrite Hix.
  set (slots1 := <[ix := Some kind]> (holdArea w)).
  change (replicate 4 (Resume 0 now)) with (Resume 0 now :: replicate 3 (Resume 0 now)).
  rewrite run_andThen, resume_first. cbn [resumeTask]. unfold resumeFlight.
  change (holdArea (scene (idle (setHoldArea slots1 w) old))) with slots1.
  destruct (decide (2 ≤ length (matchingSlots kind slots1))) as [Hpair|Hnone].
  - (* a pair: glow, removal of the two tiles, compaction, [onMatch] *)
    cbn [fst snd app handleMatch].
    set (matching := take 2 (matchingSlots kind slots1)).
    assert (NoDup matching) as Hnd.
    { eapply sublist_NoDup; [apply matchingSlots_NoDup|apply sublist_take]. }
    assert (∀ i, i ∈ matching → slots1 !! i = Some (Some kind)) as Hall.
    { intros i Hi. apply matchingSlots_lookup. revert Hi. apply subseteq_take. }
    assert (matching ≠ []) as Hne.
    { intros Hnil. apply (f_equal length) in Hnil. unfold matching in Hnil.
      rewrite length_take in Hnil. cbn [length] in Hnil. lia. }
    rewrite andThen_silent.
    change (replicate 3 (Resume 0 now)) with (Resume 0 now :: replicate 2 (Resume 0 now)).
    rewrite run_andThen. unfold suspend. cbn [scene destroyed pending idle app].
    rewrite resume_first. cbn [resumeTask]. unfold resumeGlow.
    change (holdArea (scene (idle (setHoldArea slots1 w) old))) with slots1.
    assert (filter (λ i, is_Some (mjoin (slots1 !! i))) matching = matching) as ->.
    { apply filter_all, Forall_forall. intros i Hi. by rewrite (Hall i Hi). }
    rewrite decide_False by done. rewrite andThen_silent.
    change (replicate 2 (Resume 0 now)) with (Resume 0 now :: replicate 1 (Resume 0 now)).
    rewrite run_andThen. unfold suspend. cbn [scene destroyed pending idle app].
    rewrite resume_first. cbn [resumeTask]. unfold resumePairRemoval.
    change (holdArea (scene (idle (setHoldArea slots1 w) old))) with slots1.
    rewrite releaseSlot_all; [|done|by eauto]. cbn [fst snd].
    set (removed := foldl (λ acc i, <[i := None]> acc) slots1 matching).
    change (withScene (setHoldArea removed _) _) with (idle (setHoldArea removed w) old).
    rewrite compact_onward. done.
  - (* no pair: the game-over check and the end of the turn *)
    rewrite andThen_idle by done.
    change (scene (idle (setHoldArea slots1 w) old)) with (setHoldArea slots1 w).
    change (holdArea (setHoldArea slots1 w)) with slots1.
    destruct (canAddTile slots1); cbn [negb fst snd].
    + done.
    + destruct (existsb _ _); cbn [negb fst snd]; done.
Qed.

(** A tap and the tasks of its turn, run with nothing in between from a
    session with no call in flight, do what [tapTile] does. *)
Lemma wholeTurn_tapTile i now g old :
  run (wholeTurn i now) (idle g old) = (idle (tapTile i now g).1 old, (tapTile i now g).2).
Proof.
  unfold wholeTurn. rewrite run_andThen. cbn [step]. unfold tap, tapTile.
  change (scene (idle g old)) with g.
  destruct (find _ _) as [tile|]; [|by rewrite andThen_idle].
  destruct (onTileClick tile); [by rewrite andThen_idle..|].
  unfold selectTile, onTileSelected. change (scene (idle g old)) with g.
  destruct (overlayVisible g); [by rewrite andThen_idle|].
  destruct (isProcessing g); [by rewrite andThen_idle|].
  destruct (canAddTile (holdArea g)) eqn:Hcan; cbn [negb];
    [|by rewrite andThen_idle].
  cbn zeta. rewrite andThen_silent.
  change (replicate 5 (Resume 0 now)) with (Resume 0 now :: replicate 4 (Resume 0 now)).
  rewrite run_andThen. unfold suspend. cbn [scene destroyed pending idle withScene app].
  rewrite resume_first. cbn [resumeTask]. unfold resumeRemoval.
  set (g1 := setProcessing true g).
  assert (boardAt (length old) (idle (setBoard (beginRemoval tile (board g1)) g1) old)
          = beginRemoval tile (board g1)) as ->.
  { unfold boardAt. cbn [idle destroyed scene]. by rewrite lookup_ge_None_2. }
  rewrite <- removeTile_phases. set (removal := removeTile tile (board g1)).
  assert (setBoardAt (length old) removal.1
            (idle (setBoard (beginRemoval tile (board g1)) g1) old)
          = idle (setBoard removal.1 g1) old) as ->.
  { unfold setBoardAt. cbn [idle destroyed]. rewrite decide_False by lia. done. }
  change (scene (idle (setBoard removal.1 g1) old)) with (setBoard removal.1 g1).
  set (won1 := if removal.2 then GameScene_onWin (setBoard removal.1 g1)
               else (setBoard removal.1 g1, [])).
  destruct (findEmptySlot (holdArea won1.1)) as [ix|] eqn:Hix.
  - unfold andThen. cbn [fst snd]. unfold suspend, withScene.
    cbn [scene destroyed pending idle app].
    rewrite (flight_onward (kindOf tile) now won1.1 old ix Hix). cbn [fst snd]. done.
  - rewrite andThen_idle by done.
    unfold addTile. rewrite Hix. cbn [fst snd]. rewrite setHoldArea_same.
    change (dispatchAll now [] won1.1) with (won1.1, @nil Signal). cbn [fst snd app].
    done.
Qed.

Lemma sessionReachable_run evs s : sessionReachable s → sessionReachable (run evs s).1.
Proof.
  revert s. induction evs as [|ev evs IH]; intros s Hs; [done|].
  rewrite run_cons. cbn [fst]. apply IH. by apply session_step.
Qed.

(** The states of [sceneReachable] are the states of real sessions in which
    every turn has run to its end before the next event. *)
Lemma sceneReachable_session g :
  sceneReachable g → ∃ old, sessionReachable (idle g old).
Proof.
  induction 1 as [rnd stored|i now g _ [old IH]|rnd g _ [old IH]|rnd g _ [old IH]
                  |g _ [old IH]].
  - exists []. apply session_created.
  - exists old. apply (sessionReachable_run (wholeTurn i now)) in IH.
    by rewrite wholeTurn_tapTile in IH.
  - exists old. by apply (session_step (Shuffle rnd)) in IH.
  - exists (old ++ [Board_destroy (board g)]). by apply (session_step (Restart rnd)) in IH.
  - exists old. by apply (session_step OverlayTimer) in IH.
Qed.

(** ** Win detection under a restart *)

(** C1. A restart during the removal tween: tile 0 of a new game is tapped,
    the restart button is pressed while the removal tween of the tile runs,
    and the tween ends.  [removeTile] resumes on the destroyed board, whose
    tile list is empty and whose [onWin] is still set; the hold was cleared
    by [newGame], so the win screen is shown, with 44 tiles on the board.
    The tile then lands in the hold, and the turn ends with 44 tiles on the
    board and one in the hold. *)
Theorem restart_during_removal_shows_win :
  let start := Session_create idleRnd None in
  let tapped := (run [Tap 0; Restart idleRnd] start).1 in
  let resumed := step (Resume 0 0) tapped in
  let ended := step (Resume 0 0) resumed.1 in
  sessionReachable ended.1
  ∧ pending tapped = [AwaitRemoval 0 (tileAt 0 0 0 0 0)]
  ∧ tiles (boardAt 0 tapped) = [] ∧ onWin (boardAt 0 tapped) = true
  ∧ resumed.2 = [ShowWinScreen]
  ∧ getRemainingCount (board (scene resumed.1)) = 44
  ∧ ended.2 = [] ∧ pending ended.1 = []
  ∧ overlayVisible (scene ended.1) = true
  ∧ getRemainingCount (board (scene ended.1)) = 44
  ∧ getTileCount (holdArea (scene ended.1)) = 1.
Proof.
  cbn zeta. split.
  - apply session_step, session_step, sessionReachable_run, session_created.
  - vm_compute. by split_and!.
Qed.

(** ** Kind counts under the board's operations *)

Lemma beginRemoval_kinds tile b :
  boardKinds (beginRemoval tile b) = boardKinds (removeTile tile b).1.
Proof.
  unfold boardKinds. rewrite removeTile_tiles, updateFreeTiles_active.
  unfold beginRemoval. cbn [tiles withTiles].
  change (λ t, if decide (tid t = tid tile) then markRemoved t else t) with (markIf (tid tile)).
  rewrite <- list_fmap_compose. apply list_fmap_ext. intros _ t _. cbn.
  unfold refresh. by destruct (isRemoved t).
Qed.

Lemma finishRemoval_kinds b : boardKinds (finishRemoval b).1 = boardKinds b.
Proof.
  unfold boardKinds, finishRemoval. cbn [fst tiles withTiles].
  rewrite updateFreeTiles_active, <- list_fmap_compose.
  apply list_fmap_ext. intros _ t _. cbn. unfold refresh. by destruct (isRemoved t).
Qed.

(** C6 (amended). For every kind, the number of non-removed board tiles of
    that kind is even after [create] and is left as it is by [shuffle].
    [removeTile] lowers the count of the removed tile's kind by exactly one,
    from the moment the removal starts (the part after the tween changes no
    count), and leaves the count of every other kind as it is: a kind's
    count is odd after one of its tiles has been removed, and even again
    after a second one. *)
Theorem kind_counts_by_operation (b : Board) (k : nat) :
  (∀ rnd, Nat.Even (boardKindCount k (Board_create rnd)))
  ∧ (∀ rnd, boardKindCount k (shuffle rnd b) = boardKindCount k b)
  ∧ boardKindCount k (finishRemoval b).1 = boardKindCount k b
  ∧ (∀ tile, NoDup (tid <$> tiles b) → tile ∈ tiles b → isRemoved tile = false →
       let b1 := (removeTile tile b).1 in
       boardKindCount k b = (if decide (kindOf tile = k) then 1 else 0) + boardKindCount k b1
       ∧ boardKindCount k (beginRemoval tile b) = boardKindCount k b1
       ∧ (Nat.Even (boardKindCount k b) → kindOf tile = k → Nat.Odd (boardKindCount k b1))
       ∧ ∀ partner, partner ∈ tiles b1 → isRemoved partner = false →
           kindOf partner = kindOf tile → Nat.Even (boardKindCount k b) →
           Nat.Even (boardKindCount k (removeTile partner b1).1)).
Proof.
  assert (∀ b' tile, NoDup (tid <$> tiles b') → tile ∈ tiles b' → isRemoved tile = false →
            boardKindCount k b'
            = (if decide (kindOf tile = k) then 1 else 0)
              + boardKindCount k (removeTile tile b').1) as Hone.
  { intros b' tile Htids Hin Hact. unfold boardKindCount.
    by rewrite (countKind_Permutation _ _ _ (removeTile_kinds tile _ Htids Hin Hact)),
      countKind_cons. }
  split; [intros rnd; apply Board_create_even|]. split.
  { intros rnd. unfold boardKindCount.
    by rewrite (countKind_Permutation _ _ _ (shuffle_kinds rnd b)). }
  split; [unfold boardKindCount; by rewrite finishRemoval_kinds|].
  intros tile Htids Hin Hact. cbn zeta.
  pose proof (Hone b tile Htids Hin Hact) as Hfirst.
  split; [done|]. split; [unfold boardKindCount; by rewrite beginRemoval_kinds|]. split.
  - intros [m Hm] Hk. rewrite decide_True in Hfirst by done.
    exists (m - 1). lia.
  - intros partner Hin' Hact' Hkind [m Hm].
    assert (NoDup (tid <$> tiles (removeTile tile b).1)) as Htids'
      by (by rewrite removeTile_tids).
    pose proof (Hone _ partner Htids' Hin' Hact') as Hsecond.
    rewrite Hkind in Hsecond.
    destruct (decide (kindOf tile = k)).
    + exists (m - 1). lia.
    + exists m. lia.
Qed.

Lemma kind_counts_by_operation_witness :
  boardKindCount 0 (board freshScene) = 2
  ∧ boardKindCount 0 (removeTile (tileAt 0 0 0 0 0) (board freshScene)).1 = 1
  ∧ Nat.Odd (boardKindCount 0 (removeTile (tileAt 0 0 0 0 0) (board freshScene)).1)
  ∧ Nat.Even (boardKindCount 0
                (removeTile (tileAt 1 1 0 0 0)
                   (removeTile (tileAt 0 0 0 0 0) (board freshScene)).1).1).
Proof.
  destruct (kind_counts_by_operation (board freshScene) 0) as (Hnew & _ & _ & Hrem).
  destruct (Hrem (tileAt 0 0 0 0 0)) as (Hone & _ & Hodd & Hpair).
  - apply (bool_decide_unpack _). by vm_compute.
  - apply list_elem_of_In. vm_compute. by left.
  - reflexivity.
  - assert (boardKindCount 0 (board freshScene) = 2) as Htwo by (by vm_compute).
    split; [done|]. split; [cbn [kindOf tileAt tileData tileType] in Hone;
                            rewrite decide_True in Hone by done; lia|].
    split; [apply Hodd; [rewrite Htwo; by exists 1|done]|].
    apply Hpair; [|done|done|rewrite Htwo; by exists 1].
    apply list_elem_of_In. vm_compute. right. by left.
Defined.

(** ** The hint button *)

(** X14. When the free flags of the board are up to date and, for every
    kind, the tiles of that kind on the board and in the hold together are
    even in number, the hint button finds a tile whenever the board is not
    empty: it highlights a free, non-removed tile; the "no good moves"
    message then appears only on an empty board.  The state is not
    changed. *)
Theorem hint_always_available (g : GameScene) :
  flagsFresh (tiles (board g)) →
  (∀ k, Nat.Even (boardKindCount k (board g) + countKind k (occupiedKinds (holdArea g)))) →
  (0 < getRemainingCount (board g) →
     ∃ t, t ∈ tiles (board g) ∧ freeNow t ∧ showHint g = (g, [HintShown (tid t)]))
  ∧ (getRemainingCount (board g) = 0 → showHint g = (g, [NoHintMessage])).
Proof.
  intros Hfresh Hkinds. unfold showHint. split.
  - intros Hpos.
    destruct (findHintTile _ _) as [t|] eqn:Hhint.
    { apply findHintTile_free in Hhint. apply list_elem_of_filter in Hhint as [? ?].
      by exists t. }
    exfalso.
    destruct (some_active_tile_free (activeTilesOf (tiles (board g))))
      as (t & Hin & Hnow).
    { intros Hnil. unfold getRemainingCount in Hpos. rewrite Hnil in Hpos.
      cbn in Hpos. lia. }
    apply list_elem_of_filter in Hin as [Hact Hin].
    assert (t ∈ getFreeTiles (board g)) as Hfree.
    { unfold getFreeTiles. apply list_elem_of_filter.
      split; [|done]. split; [done|]. by rewrite Hfresh. }
    destruct (findHintTile_None _ _ t Hhint Hfree) as [Hhold Hboard].
    rewrite getTypesInHold_lookup in Hhold.
    assert (countKind (kindOf t) (occupiedKinds (holdArea g)) = 0) as Hzero.
    { destruct (decide _); [done|]. cbn in Hhold. lia. }
    assert (0 < boardKindCount (kindOf t) (board g)) as Hone.
    { apply countKind_pos_elem. unfold boardKinds. apply list_elem_of_fmap.
      exists t. split; [done|]. by apply list_elem_of_filter. }
    destruct (Hkinds (kindOf t)) as [m Hm]. lia.
  - intros Hzero. unfold findHintTile, getFreeTiles.
    assert (activeTilesOf (tiles (board g)) = []) as Hnil
      by (by apply nil_length_inv).
    by rewrite (no_active_no_free _ Hnil).
Qed.

Lemma hint_always_available_witness :
  ∃ t, t ∈ tiles (board lostScene) ∧ freeNow t
       ∧ showHint lostScene = (lostScene, [HintShown (tid t)]).
Proof.
  assert (sceneReachable lostScene) as Hreach
    by apply tapAll_reachable, freshScene_reachable.
  apply (hint_always_available lostScene).
  - by apply sceneReachable_fresh.
  - by apply sceneReachable_inv in Hreach as [_ _ Hkinds _].
  - vm_compute. lia.
Defined.

(** Without the parity the conclusion fails: on a board whose only tile has
    no partner in the hold, the hint finds nothing. *)
Remark hint_needs_parity :
  let g := {| board := {| tiles := [tileAt 0 0 0 0 5]; onWin := false |};
              holdArea := HoldArea_create; score := 0; highScore := 0;
              comboCount := 0; lastMatchTime := 0; isProcessing := false;
              overlayVisible := false; localStorage := None; overlayTimers := 0 |} in
  flagsFresh (tiles (board g)) ∧ getRemainingCount (board g) = 1
  ∧ showHint g = (g, [NoHintMessage]).
Proof.
  cbn zeta. split; [|by vm_compute].
  intros t ->%list_elem_of_singleton _. by vm_compute.
Qed.

(** ** Score and combo in every session *)

Lemma endTurn_score g :
  score (endTurn g).1 = score g ∧ comboCount (endTurn g).1 = comboCount g.
Proof. unfold endTurn. by destruct (_ && _). Qed.

Lemma onWin_score g :
  score (GameScene_onWin g).1 = score g ∧ comboCount (GameScene_onWin g).1 = comboCount g.
Proof. unfold GameScene_onWin. by case_decide. Qed.

(** What one event does to score and combo: nothing, a reset, or one
    match. *)
Lemma step_score ev s :
  let g := scene s in
  let g' := scene (step ev s).1 in
  (score g' = score g ∧ comboCount g' = comboCount g)
  ∨ (score g' = 0 ∧ comboCount g' = 0)%Z
  ∨ ∃ combo, (combo = comboCount g + 1 ∨ combo = 1)%Z
             ∧ comboCount g' = combo ∧ score g' = (score g + 100 * combo)%Z.
Proof.
  cbn zeta.
  assert (∀ now s0, let g' := scene (finishMatch now s0).1 in
            ∃ combo, (combo = comboCount (scene s0) + 1 ∨ combo = 1)%Z
                     ∧ comboCount g' = combo
                     ∧ score g' = (score (scene s0) + 100 * combo)%Z) as Hmatch.
  { intros now s0. cbn zeta. unfold finishMatch. cbn [fst scene withScene].
    destruct (endTurn_score (onHoldMatch now (scene s0)).1) as [-> ->].
    unfold onHoldMatch. cbn [fst score comboCount]. case_decide; eauto. }
  assert (∀ kind now s0, let g' := scene (compactThenWait kind now s0).1 in
            (score g' = score (scene s0) ∧ comboCount g' = comboCount (scene s0))
            ∨ ∃ combo, (combo = comboCount (scene s0) + 1 ∨ combo = 1)%Z
                       ∧ comboCount g' = combo
                       ∧ score g' = (score (scene s0) + 100 * combo)%Z) as Hcompact.
  { intros kind now s0. cbn zeta. unfold compactThenWait.
    set (s1 := withScene _ s0). case_decide.
    - right. exact (Hmatch now s1).
    - by left. }
  destruct ev as [i|n now|rnd|rnd| |]; cbn [step].
  - left. unfold tap. destruct (find _ _) as [tile|]; [|done].
    destruct (onTileClick tile); try done. unfold selectTile.
    repeat (case_match; try done).
  - destruct (pending s !! n) as [task|]; [|by left].
    set (s0 := {| scene := scene s; destroyed := destroyed s;
                  pending := delete n (pending s) |}).
    change (scene s) with (scene s0).
    destruct task as [boardIndex tile|kind|matching kind|armed kind|kind];
      cbn [resumeTask].
    + left. unfold resumeRemoval.
      set (fin := finishRemoval (boardAt boardIndex s0)).
      set (s1 := setBoardAt boardIndex fin.1 s0).
      assert (score (scene s1) = score (scene s0)
              ∧ comboCount (scene s1) = comboCount (scene s0)) as [Hs Hc].
      { unfold s1, setBoardAt. by case_decide. }
      set (won1 := if fin.2 then GameScene_onWin (scene s1) else (scene s1, [])).
      assert (score won1.1 = score (scene s0) ∧ comboCount won1.1 = comboCount (scene s0))
        as [Hs1 Hc1].
      { unfold won1. destruct fin.2; [|done].
        destruct (onWin_score (scene s1)) as [-> ->]. done. }
      destruct (findEmptySlot _); cbn [fst scene withScene suspend setHoldArea score comboCount].
      * done.
      * by destruct (endTurn_score won1.1) as [-> ->].
    + left. unfold resumeFlight. case_decide; [done|].
      cbn [fst scene withScene].
      match goal with |- context [endTurn ?x] => destruct (endTurn_score x) as [-> ->] end.
      repeat (case_match; try done).
    + unfold resumeGlow. case_decide; [|by left].
      destruct (Hcompact kind now s0) as [?|?]; [by left|by right; right].
    + unfold resumePairRemoval. set (s1 := withScene _ s0).
      destruct (foldl _ _ _).2; [by left|].
      destruct (Hcompact kind now s1) as [?|?]; [by left|by right; right].
    + right. right. apply Hmatch.
  - right. by left.
  - by left.
  - left. cbn [fst scene withScene]. unfold showHint. by case_match.
  - left. cbn [fst scene withScene]. unfold overlayTimerFires. by case_match.
Qed.

(** X15. In every session, whatever is pressed while a turn is in flight,
    the score is a non-negative multiple of 100, the combo count is
    non-negative, the score is at least the value of the current streak
    (100 + 200 + ... + 100 * combo), and the score is 0 exactly when the
    combo count is 0, that is before the first match of a game. *)
Theorem score_bookkeeping (s : Session) :
  sessionReachable s →
  let g := scene s in
  (0 ≤ score g)%Z ∧ (100 | score g)%Z ∧ (0 ≤ comboCount g)%Z
  ∧ (100 * comboCount g * (comboCount g + 1) ≤ 2 * score g)%Z
  ∧ (score g = 0 ↔ comboCount g = 0)%Z.
Proof.
  cbn zeta. induction 1 as [rnd stored|ev s _ (Hnn & Hdiv & Hcombo & Hstreak & Hzero)].
  - cbn. split_and!; try done. apply Z.divide_0_r.
  - destruct (step_score ev s) as [[-> ->]|[[-> ->]|(combo & Hc & -> & ->)]].
    + done.
    + split_and!; try done. apply Z.divide_0_r.
    + assert (0 < combo)%Z by lia. split_and!; try lia.
      apply Z.divide_add_r; [done|]. by apply Z.divide_factor_l.
Qed.

Lemma score_bookkeeping_witness :
  let s := (run (wholeTurn 0 0 ++ [Tap 1; Shuffle idleRnd] ++ replicate 5 (Resume 0 1000))
                (Session_create idleRnd None)).1 in
  score (scene s) = 100%Z ∧ comboCount (scene s) = 1%Z
  ∧ (100 * comboCount (scene s) * (comboCount (scene s) + 1) ≤ 2 * score (scene s))%Z.
Proof.
  cbn zeta.
  destruct (score_bookkeeping
              (run (wholeTurn 0 0 ++ [Tap 1; Shuffle idleRnd] ++ replicate 5 (Resume 0 1000))
                   (Session_create idleRnd None)).1) as (_ & _ & _ & Hstreak & _).
  - apply sessionReachable_run, session_created.
  - split; [by vm_compute|]. split; [by vm_compute|]. exact Hstreak.
Defined.

(** ** The undisturbed turn *)

(** The turn that empties a board whose [onWin] is set, with an empty
    hold: the callback shows the win screen before the tile is in the
    hold. *)
Lemma onTileSelected_legacy tile now g :
  overlayVisible g = false → isProcessing g = false → holdArea g = holdOf [] →
  (removeTile tile (board g)).2 = true →
  let r := onTileSelected tile now g in
  r.2 = [ShowWinScreen] ∧ overlayVisible r.1 = true
  ∧ holdArea r.1 = holdOf [kindOf tile].
Proof.
  intros Hov Hproc Hhold Hfires. cbn zeta.
  assert (canAddTile (holdArea g) = true) as Hcan by (by rewrite Hhold).
  unfold onTileSelected. rewrite Hov, Hproc, Hcan. cbn [negb].
  change (removeTile tile (board (setProcessing true g))) with (removeTile tile (board g)).
  rewrite Hfires. unfold GameScene_onWin.
  set (g2 := setBoard _ _). change (holdArea g2) with (holdArea g). rewrite Hhold.
  change (getTileCount (holdOf [])) with 0. rewrite decide_True by done.
  cbn [showWinScreen fst snd]. change (holdArea (setOverlay true g2)) with (holdArea g).
  rewrite Hhold, (addTile_holdOf (kindOf tile) []); [|cbn; lia|apply NoDup_nil_2].
  rewrite (decide_False (P := length [] = SLOT_COUNT)) by done.
  rewrite decide_False by (by intros ?%elem_of_nil).
  rewrite (decide_False (P := length [] + 1 = SLOT_COUNT)) by done.
  cbn [fst snd app]. rewrite dispatchAll_nil. cbn [fst snd].
  set (g3 := setHoldArea _ _).
  change (holdArea g3) with (holdOf [kindOf tile]).
  rewrite getTileCount_holdOf.
  change (bool_decide (length [kindOf tile] = 0)) with false.
  rewrite andb_false_r. by cbn.
Qed.

(** X17. A turn that runs to its end with no other event in between, from
    a session with no call in flight whose hold has distinct kinds in its
    first slots: the game-over screen is shown exactly when the turn starts
    with three tiles in the hold and a kind that is not among them, and the
    hold is then full and the overlay flag set.  No such turn shows both
    the win and the game-over screen, either screen sets the overlay flag,
    and a turn that shows neither leaves the flag alone.  No call is left in
    flight. *)
Theorem turn_ends (i : nat) (now : Z) (g : GameScene) (old : list Board) (ks : list nat) :
  holdArea g = holdOf ks → NoDup ks → length ks ≤ SLOT_COUNT →
  let r := run (wholeTurn i now) (idle g old) in
  pending r.1 = [] ∧ destroyed r.1 = old
  ∧ (ShowGameOverScreen ∈ r.2 ↔
       turnStarts i g
       ∧ (∀ tile, find (λ t, bool_decide (tid t = i)) (tiles (board g)) = Some tile →
            kindOf tile ∉ ks)
       ∧ length ks = 3)
  ∧ (¬ (ShowWinScreen ∈ r.2 ∧ ShowGameOverScreen ∈ r.2))
  ∧ (ShowGameOverScreen ∈ r.2 →
       getTileCount (holdArea (scene r.1)) = 4 ∧ overlayVisible (scene r.1) = true)
  ∧ (ShowWinScreen ∈ r.2 → overlayVisible (scene r.1) = true)
  ∧ (ShowWinScreen ∉ r.2 → ShowGameOverScreen ∉ r.2 →
       overlayVisible (scene r.1) = overlayVisible g).
Proof.
  intros Hhold Hnd Hlen. cbn zeta. rewrite wholeTurn_tapTile. cbn [fst snd idle scene pending destroyed].
  split; [done|]. split; [done|].
  destruct (tapTile_cases i now g)
    as [(Hno & Hsame & Hquiet)|(tile & Hfind & Hin & Hid & Hruns & Heq)].
  { pose proof (tapTile_rejected i now g Hno) as Hquiet'.
    split_and!; try done.
    - split; [done|]. by intros [? _].
    - by intros [? _].
    - intros _ _. by rewrite Hsame. }
  pose proof Hruns as (Hact & Hfree & Hov & Hproc & Hcan).
  assert (turnStarts i g) as Hstarts by (by exists tile).
  assert (length ks < SLOT_COUNT) as Hroom.
  { rewrite Hhold in Hcan. pose proof (canAddTile_holdOf ks Hlen Hcan). lia. }
  destruct (onTileSelected_runs tile now g Hov Hproc Hcan) as (_ & Hh & _).
  rewrite Heq. set (r := onTileSelected tile now g) in *.
  destruct (decide ((removeTile tile (board g)).2 = true ∧ ks = [])) as [[Hfires ->]|Hquietwin].
  { (* the callback of the board shows the win screen *)
    destruct (onTileSelected_legacy tile now g Hov Hproc Hhold Hfires) as (Hsig & Hovl & _).
    fold r in Hsig, Hovl. rewrite Hsig. split_and!.
    - split; [by intros ?%list_elem_of_singleton|]. by intros (_ & _ & ?).
    - by intros [_ ?%list_elem_of_singleton].
    - by intros ?%list_elem_of_singleton.
    - done.
    - intros Hnot. exfalso. apply Hnot. by apply list_elem_of_singleton. }
  assert ((removeTile tile (board g)).2 = true → ks ≠ []) as Hlegacy.
  { intros Hfires ->. by apply Hquietwin. }
  pose proof (onTileSelected_outcome tile now g ks Hov Hproc Hhold Hroom Hnd Hlegacy)
    as Hout. cbn zeta in Hout. fold r in Hout.
  destruct (decide (kindOf tile ∈ ks)) as [Hk|Hk].
  - destruct Hout as (Hovl & Hnogo & Hwin).
    split_and!.
    + split; [done|]. intros (_ & Hnot & _). exfalso. by apply (Hnot tile).
    + by intros [_ ?].
    + done.
    + intros Hw. apply Hwin in Hw. by rewrite Hovl.
    + intros Hnw _. rewrite Hovl, Hov.
      destruct (_ && _) eqn:E; [|done]. exfalso. by apply Hnw, Hwin.
  - destruct Hout as (Hovl & Hgo & Hnowin).
    assert (ShowGameOverScreen ∈ r.2 → getTileCount (holdArea r.1) = 4) as Hfull.
    { intros H3%Hgo. rewrite Hh, Hhold.
      rewrite (addTile_holdOf _ _ Hlen Hnd).
      rewrite (decide_False (P := length ks = SLOT_COUNT)) by lia.
      rewrite decide_False by done. cbn [fst].
      rewrite getTileCount_holdOf, length_app. cbn [length]. lia. }
    split_and!.
    + rewrite Hgo. split.
      * intros H3. split_and!; try done. intros tile' Hfind'. by simplify_eq.
      * by intros (_ & _ & H3).
    + by intros [? _].
    + intros Hg. split; [by apply Hfull|]. apply Hgo in Hg.
      by rewrite Hovl, bool_decide_eq_true_2.
    + done.
    + intros _ Hng. rewrite Hovl, Hov. apply bool_decide_eq_false_2.
      intros H3. by apply Hng, Hgo.
Qed.

Lemma turn_ends_witness :
  let r := run (wholeTurn 18 0) (idle (tapAll [0; 6; 12] freshScene) []) in
  ShowGameOverScreen ∈ r.2 ∧ overlayVisible (scene r.1) = true ∧ pending r.1 = [].
Proof.
  cbn zeta.
  destruct (turn_ends 18 0 (tapAll [0; 6; 12] freshScene) [] [0; 3; 6])
    as (Hidle & _ & Hiff & _ & Hfull & _).
  - by vm_compute.
  - apply (bool_decide_unpack _). by vm_compute.
  - cbn. unfold SLOT_COUNT. lia.
  - assert (ShowGameOverScreen
              ∈ (run (wholeTurn 18 0) (idle (tapAll [0; 6; 12] freshScene) [])).2) as Hover.
    { apply Hiff. clear Hiff Hfull Hidle. split_and!.
      - exists (tileAt 18 0 3 0 9). split; [by vm_compute|].
        unfold turnRuns. vm_compute. by split_and!.
      - intros tile Hfind. vm_compute in Hfind. injection Hfind as <-.
        cbn. intros Hin%list_elem_of_In. cbn in Hin. naive_solver.
      - done. }
    split; [exact Hover|]. split; [by apply Hfull|exact Hidle].
Defined.

(** X18. A turn that starts and runs to its end with no other event in
    between, on a board with distinct tile identities and a hold with
    distinct kinds in its first slots, takes exactly one tile off the
    board.  Either the hold gains one tile and score, combo and high score
    stay as they are, or the hold loses one tile (a pair matched) and, the
    combo count being non-negative, the score grows by at least 100. *)
Theorem turn_accounting (i : nat) (now : Z) (g : GameScene) (old : list Board)
    (ks : list nat) :
  NoDup (tid <$> tiles (board g)) →
  holdArea g = holdOf ks → NoDup ks → length ks ≤ SLOT_COUNT →
  (0 ≤ comboCount g)%Z →
  turnStarts i g →
  let r := (run (wholeTurn i now) (idle g old)).1 in
  pending r = []
  ∧ getRemainingCount (board g) = S (getRemainingCount (board (scene r)))
  ∧ ((getTileCount (holdArea (scene r)) = getTileCount (holdArea g) + 1
      ∧ scoreState (scene r) = scoreState g)
     ∨ (getTileCount (holdArea (scene r)) + 1 = getTileCount (holdArea g)
        ∧ (score g + 100 ≤ score (scene r))%Z)).
Proof.
  intros Htids Hhold Hnd Hlen Hcombo Hstarts. cbn zeta. rewrite wholeTurn_tapTile.
  cbn [fst idle scene pending]. split; [done|].
  destruct (tapTile_cases i now g)
    as [(Hno & _)|(tile & Hfind & Hin & Hid & Hruns & Heq)]; [done|].
  destruct Hruns as (Hact & Hfree & Hov & Hproc & Hcan).
  destruct (onTileSelected_runs tile now g Hov Hproc Hcan) as (Hb & Hh & _).
  pose proof (onTileSelected_scoreState tile now g Hov Hproc Hcan) as Hscore.
  rewrite Heq, Hb, Hh. split; [by apply removeTile_count|].
  pose proof (addTile_events (kindOf tile) (holdArea g)) as Hev.
  rewrite Hhold in Hcan, Hev, Hscore |- *.
  pose proof (canAddTile_holdOf ks Hlen Hcan) as Hroom.
  rewrite (addTile_holdOf _ _ Hlen Hnd) in Hev, Hscore |- *.
  rewrite (decide_False (P := length ks = SLOT_COUNT)) in Hev, Hscore |- * by done.
  destruct (decide (kindOf tile ∈ ks)) as [Hk|Hk]; cbn [fst snd matched] in *.
  - right. rewrite !getTileCount_holdOf.
    pose proof (filter_other_length (kindOf tile) ks) as Hf.
    rewrite (countKind_NoDup _ _ Hnd), decide_True in Hf by done.
    split; [lia|].
    rewrite dispatchAll_match in Hscore. cbn [fst] in Hscore.
    unfold scoreState in Hscore. injection Hscore as Hs _ _ _ _. rewrite Hs.
    unfold onHoldMatch. cbn [fst score]. case_decide; lia.
  - left. rewrite !getTileCount_holdOf, length_app. split; [done|].
    rewrite Hscore. by destruct (decide (length ks + 1 = SLOT_COUNT)).
Qed.

Lemma turn_accounting_witness :
  let r := (run (wholeTurn 1 500) (idle (tapAll [0] freshScene) [])).1 in
  getRemainingCount (board (scene r)) = 42
  ∧ getTileCount (holdArea (scene r)) = 0
  ∧ (100 ≤ score (scene r))%Z.
Proof.
  cbn zeta.
  destruct (turn_accounting 1 500 (tapAll [0] freshScene) [] [0])
    as (_ & Hcount & [[Hgain _]|[Hpair Hscore]]).
  - apply (bool_decide_unpack _). by vm_compute.
  - by vm_compute.
  - apply NoDup_singleton.
  - cbn. unfold SLOT_COUNT. lia.
  - by vm_compute.
  - exists (tileAt 1 1 0 0 0). split; [by vm_compute|]. unfold turnRuns. vm_compute.
    by split_and!.
  - exfalso. revert Hgain. clear. vm_compute. lia.
  - split; [|split].
    + revert Hcount. clear. intros Hcount.
      assert (getRemainingCount (board (tapAll [0] freshScene)) = 43) as H43
        by (by vm_compute).
      rewrite H43 in Hcount. lia.
    + revert Hpair. clear. intros Hpair.
      assert (getTileCount (holdArea (tapAll [0] freshScene)) = 1) as H1 by (by vm_compute).
      rewrite H1 in Hpair. lia.
    + revert Hscore. clear. intros Hscore.
      assert (score (tapAll [0] freshScene) = 0%Z) as H0 by (by vm_compute).
      rewrite H0 in Hscore. lia.
Defined.

(** ** Feedback of a tap *)

(** X22. A tap is answered with the "blocked" shake exactly when the tapped
    tile is on the board, not removed, and its free flag is off; the session
    is then left as it is.  When the board's identities are distinct and
    its free flags are up to date, that is exactly when the tile is not free
    by [checkTileFree] on the current tiles.  A tap that starts no turn
    leaves the session as it is and signals at most the shake or the
    hold-full message. *)
Theorem tap_feedback (i : nat) (s : Session) :
  let r := step (Tap i) s in
  let ts := tiles (board (scene s)) in
  (TileBlocked ∈ r.2 ↔
     ∃ tile, find (λ t, bool_decide (tid t = i)) ts = Some tile
             ∧ isRemoved tile = false ∧ isFree tile = false)
  ∧ (TileBlocked ∈ r.2 → r = (s, [TileBlocked]))
  ∧ (NoDup (tid <$> ts) → flagsFresh ts →
       (TileBlocked ∈ r.2 ↔
          ∃ tile, tile ∈ ts ∧ tid tile = i ∧ isRemoved tile = false
                  ∧ checkTileFree tile (activeTilesOf ts) = false))
  ∧ (pending r.1 = pending s →
       r.1 = s ∧ ∀ sig, sig ∈ r.2 → sig = TileBlocked ∨ sig = HoldFullMessage).
Proof.
  cbn zeta. cbn [step].
  assert (TileBlocked ∈ (tap i s).2 ↔
          ∃ tile, find (λ t, bool_decide (tid t = i)) (tiles (board (scene s))) = Some tile
                  ∧ isRemoved tile = false ∧ isFree tile = false) as Hiff.
  { unfold tap. destruct (find _ _) as [tile|].
    2:{ split; [by intros ?%elem_of_nil|]. by intros (? & ? & _). }
    unfold onTileClick. destruct (isRemoved tile) eqn:Hrem.
    { split; [by intros ?%elem_of_nil|]. intros (? & [= <-] & ? & _). congruence. }
    destruct (isFree tile) eqn:Hfree; cbn [negb].
    - split; [|intros (? & [= <-] & _ & ?); congruence].
      unfold selectTile. repeat case_match; cbn [snd]; set_solver.
    - split; [|intros _; by apply list_elem_of_singleton]. intros _. by exists tile. }
  split; [done|]. split; [|split].
  - intros (tile & Hfind & Hrem & Hfree)%Hiff. unfold tap. rewrite Hfind.
    unfold onTileClick. by rewrite Hrem, Hfree.
  - intros Hnd Hfresh. rewrite Hiff. split.
    + intros (tile & Hfind & Hrem & Hfree).
      apply find_some in Hfind as [Hin%list_elem_of_In Hid%bool_decide_eq_true].
      exists tile. split_and!; try done. by rewrite <- (Hfresh tile Hin Hrem).
    + intros (tile & Hin & <- & Hrem & Hblocked). exists tile.
      split; [by apply find_tid_NoDup|]. split; [done|].
      by rewrite (Hfresh tile Hin Hrem).
  - unfold tap. destruct (find _ _) as [tile|]; [|by intros _; split; [|set_solver]].
    destruct (onTileClick tile); [by intros _; split; [|set_solver]| |].
    { intros _. split; [done|]. intros sig ->%list_elem_of_singleton. by left. }
    unfold selectTile.
    destruct (overlayVisible _); [by intros _; split; [|set_solver]|].
    destruct (isProcessing _); [by intros _; split; [|set_solver]|].
    destruct (canAddTile _); cbn [negb].
    + cbn [fst suspend withScene pending]. intros Hpend. exfalso.
      apply (f_equal length) in Hpend. rewrite length_app in Hpend. cbn in Hpend. lia.
    + intros _. split; [done|]. intros sig ->%list_elem_of_singleton. by right.
Qed.

Lemma tap_feedback_witness :
  step (Tap 7) (Session_create idleRnd None) = (Session_create idleRnd None, [TileBlocked]).
Proof.
  destruct (tap_feedback 7 (Session_create idleRnd None)) as (_ & Hsame & Hfresh & _).
  apply Hsame, Hfresh; clear Hsame Hfresh.
  - apply (bool_decide_unpack _). by vm_compute.
  - apply updateFreeTiles_flagsFresh.
  - exists (default (tileAt 0 0 0 0 0) (tiles (board freshScene) !! 7)).
    split; [|by vm_compute].
    apply (list_elem_of_lookup_2 _ 7). vm_compute. reflexivity.
Defined.

(** While a removal tween runs the free flags are out of date: the first
    tile of a new game is tapped, then its right neighbour, which is free
    by [checkTileFree] on the tiles as they are now, and the neighbour gets
    the shake. *)
Remark stale_flag_during_removal :
  let s := (step (Tap 0) (Session_create idleRnd None)).1 in
  (step (Tap 1) s).2 = [TileBlocked]
  ∧ ∃ tile, find (λ t, bool_decide (tid t = 1)) (tiles (board (scene s))) = Some tile
            ∧ checkTileFree tile (activeTilesOf (tiles (board (scene s)))) = true.
Proof.
  cbn zeta. split; [by vm_compute|].
  exists {| tid := 1; tileData := {| col := 1; row := 0; layer := 0; tileType := 0 |};
            isFree := false; isRemoved := false |}.
  by vm_compute.
Qed.

(** ** The tasks of a turn and the boards behind them *)

(** X23. The tasks of a turn compose to the turn: from a session with no
    call in flight, a tap followed by the ends of its tweens and timers
    (removal, flight to the slot, glow, removal of the pair, compaction),
    with no other event in between, leaves the scene and shows the signals
    that [Board.onTileClick], [removeTile], [addTile] with its callbacks and
    the end of [onTileSelected] give when computed in sequence; the
    destroyed boards are untouched and no call is left in flight. *)
Theorem whole_turn_in_sequence (i : nat) (now : Z) (g : GameScene) (old : list Board) :
  run (wholeTurn i now) (idle g old) = (idle (tapTile i now g).1 old, (tapTile i now g).2)
  ∧ (∀ tile, onTileClick tile = ClickSelected →
       find (λ t, bool_decide (tid t = i)) (tiles (board g)) = Some tile →
       overlayVisible g = false → isProcessing g = false →
       canAddTile (holdArea g) = true →
       let r := (run (wholeTurn i now) (idle g old)).1 in
       board (scene r) = (removeTile tile (board g)).1
       ∧ holdArea (scene r) = (addTile (kindOf tile) (holdArea g)).1.1
       ∧ isProcessing (scene r) = false).
Proof.
  split; [apply wholeTurn_tapTile|].
  intros tile Hclick Hfind Hov Hproc Hcan. cbn zeta.
  rewrite wholeTurn_tapTile. cbn [fst idle scene]. unfold tapTile. rewrite Hfind, Hclick.
  by destruct (onTileSelected_runs tile now g Hov Hproc Hcan) as (? & ? & ? & _).
Qed.

Lemma whole_turn_in_sequence_witness :
  let r := (run (wholeTurn 0 0) (Session_create idleRnd None)).1 in
  board (scene r) = (removeTile (tileAt 0 0 0 0 0) (board freshScene)).1
  ∧ holdArea (scene r) = [Some 0; None; None; None]
  ∧ pending r = [].
Proof.
  cbn zeta.
  assert (find (λ t, bool_decide (tid t = 0)) (tiles (board freshScene))
          = Some (tileAt 0 0 0 0 0)) as Hfind by (vm_compute; reflexivity).
  assert (canAddTile (holdArea freshScene) = true) as Hcan by reflexivity.
  assert ((addTile 0 (holdArea freshScene)).1.1 = [Some 0; None; None; None]) as Hadd
    by (vm_compute; reflexivity).
  destruct (whole_turn_in_sequence 0 0 freshScene []) as [Hrun Hturn].
  destruct (Hturn (tileAt 0 0 0 0 0) eq_refl Hfind eq_refl eq_refl Hcan) as (Hb & Hh & _).
  clear Hturn Hfind Hcan.
  change (Session_create idleRnd None) with (idle freshScene []).
  split; [exact Hb|]. split; [exact (eq_trans Hh Hadd)|].
  exact (f_equal (λ r, pending r.1) Hrun).
Defined.

Lemma updateFreeTiles_nil : updateFreeTiles [] = [].
Proof. reflexivity. Qed.

Lemma setBoardAt_destroyed ix b s :
  destroyed (setBoardAt ix b s)
  = if decide (ix < length (destroyed s)) then <[ix := b]> (destroyed s) else destroyed s.
Proof. unfold setBoardAt. by case_decide. Qed.

Lemma setBoardAt_board ix b s :
  board (scene (setBoardAt ix b s))
  = if decide (ix < length (destroyed s)) then board (scene s) else b.
Proof. unfold setBoardAt. by case_decide. Qed.

Lemma endTurn_board g : board (endTurn g).1 = board g.
Proof. unfold endTurn. by destruct (_ && _). Qed.

Lemma onWin_board g : board (GameScene_onWin g).1 = board g.
Proof. unfold GameScene_onWin. by case_decide. Qed.

(** The boards a task leaves behind: the destroyed ones change only by a
    resumed removal, which rewrites one of them with [finishRemoval]; the
    callback field of the scene's board stays. *)
Lemma resumeTask_boards task now s :
  let r := (resumeTask task now s).1 in
  onWin (board (scene r)) = onWin (board (scene s))
  ∧ (destroyed r = destroyed s
     ∨ ∃ ix b, destroyed s !! ix = Some b
               ∧ destroyed r = <[ix := (finishRemoval b).1]> (destroyed s)).
Proof.
  cbn zeta.
  assert (∀ s0, onWin (board (scene (finishMatch now s0).1)) = onWin (board (scene s0))
                ∧ destroyed (finishMatch now s0).1 = destroyed s0) as Hmatch.
  { intros s0. unfold finishMatch. cbn [fst scene withScene destroyed].
    by rewrite endTurn_board. }
  assert (∀ kind s0,
            onWin (board (scene (compactThenWait kind now s0).1)) = onWin (board (scene s0))
            ∧ destroyed (compactThenWait kind now s0).1 = destroyed s0) as Hcompact.
  { intros kind s0. unfold compactThenWait. set (s1 := withScene _ s0).
    case_decide; [exact (Hmatch s1)|done]. }
  destruct task as [boardIndex tile|kind|matching kind|armed kind|kind]; cbn [resumeTask].
  - unfold resumeRemoval.
    set (fin := finishRemoval (boardAt boardIndex s)).
    set (s1 := setBoardAt boardIndex fin.1 s).
    set (won1 := if fin.2 then GameScene_onWin (scene s1) else (scene s1, [])).
    assert (board won1.1 = board (scene s1)) as Hb1.
    { unfold won1. destruct fin.2; [apply onWin_board|done]. }
    assert (onWin (board (scene s1)) = onWin (board (scene s))) as Hon.
    { unfold s1. rewrite setBoardAt_board. case_decide; [done|].
      unfold fin, boardAt. by rewrite lookup_ge_None_2 by lia. }
    assert (destroyed s1 = destroyed s
            ∨ ∃ ix b, destroyed s !! ix = Some b
                      ∧ destroyed s1 = <[ix := (finishRemoval b).1]> (destroyed s)) as Hd.
    { unfold s1. rewrite setBoardAt_destroyed. case_decide as Hlt; [|by left].
      right. apply lookup_lt_is_Some in Hlt as [b Hb]. exists boardIndex, b.
      split; [done|]. unfold fin, boardAt. by rewrite Hb. }
    destruct (findEmptySlot _);
      cbn [fst scene withScene suspend destroyed setHoldArea board].
    + by rewrite Hb1, Hon.
    + by rewrite endTurn_board, Hb1, Hon.
  - unfold resumeFlight. case_decide; [by split; [|left]|].
    cbn [fst scene withScene destroyed]. rewrite endTurn_board.
    split; [|by left]. by repeat case_match.
  - unfold resumeGlow. case_decide; [|by split; [|left]].
    destruct (Hcompact kind s) as [-> ->]. by split; [|left].
  - unfold resumePairRemoval. set (s1 := withScene _ s).
    destruct (foldl _ _ _).2; [by split; [|left]|].
    destruct (Hcompact kind s1) as [-> ->]. by split; [|left].
  - destruct (Hmatch s) as [-> ->]. by split; [|left].
Qed.

(** X24. In every session the boards that [newGame] has destroyed have no
    tiles, whatever resumes on them; only the first board, the one of
    [create], has its [onWin] callback set.  So a removal that resumes on a
    destroyed board finds no tile left, and it calls [onWin] exactly when
    that board is the first one. *)
Theorem destroyed_boards_stay_empty (s : Session) :
  sessionReachable s →
  (∀ ix b, destroyed s !! ix = Some b →
     tiles b = [] ∧ (onWin b = true ↔ ix = 0)
     ∧ finishRemoval b = (b, bool_decide (ix = 0)))
  ∧ (onWin (board (scene s)) = true ↔ destroyed s = []).
Proof.
  assert (∀ b, tiles b = [] → finishRemoval b = (b, onWin b)) as Hfin.
  { intros [ts w] Hts. cbn in Hts. subst ts. reflexivity. }
  assert (∀ s0 : Session,
            (∀ ix b, destroyed s0 !! ix = Some b → tiles b = [] ∧ (onWin b = true ↔ ix = 0))
            → ∀ ix b, destroyed s0 !! ix = Some b →
                tiles b = [] ∧ (onWin b = true ↔ ix = 0)
                ∧ finishRemoval b = (b, bool_decide (ix = 0))) as Hwrap.
  { intros s0 Hall ix b Hb. destruct (Hall ix b Hb) as [Hts Hon].
    split; [done|]. split; [done|]. rewrite (Hfin b Hts). f_equal.
    destruct (onWin b); case_bool_decide; naive_solver. }
  intros Hreach.
  enough ((∀ ix b, destroyed s !! ix = Some b → tiles b = [] ∧ (onWin b = true ↔ ix = 0))
          ∧ (onWin (board (scene s)) = true ↔ destroyed s = [])) as [Hall Hcur].
  { split; [by apply Hwrap|done]. }
  induction Hreach as [rnd stored|ev s _ [Hall Hcur]].
  - split; [by intros ix b ?|]. done.
  - assert (∀ s' : Session,
              onWin (board (scene s')) = onWin (board (scene s)) →
              destroyed s' = destroyed s →
              (∀ ix b, destroyed s' !! ix = Some b → tiles b = [] ∧ (onWin b = true ↔ ix = 0))
              ∧ (onWin (board (scene s')) = true ↔ destroyed s' = [])) as Hsame.
    { intros s' -> ->. done. }
    destruct ev as [i|n now|rnd|rnd| |]; cbn [step].
    + apply Hsame.
      * unfold tap. destruct (find _ _) as [tile|]; [|done].
        destruct (onTileClick tile); try done. unfold selectTile.
        by repeat case_match.
      * unfold tap. destruct (find _ _) as [tile|]; [|done].
        destruct (onTileClick tile); try done. unfold selectTile.
        by repeat case_match.
    + destruct (pending s !! n) as [task|]; [|done].
      set (s0 := {| scene := scene s; destroyed := destroyed s;
                    pending := delete n (pending s) |}).
      destruct (resumeTask_boards task now s0) as [Hon [Hd|(ix & b & Hb & Hd)]].
      * by apply Hsame.
      * cbn [fst]. rewrite Hon, Hd. change (destroyed s0) with (destroyed s) in *.
        change (scene s0) with (scene s).
        destruct (Hall ix b Hb) as [Hts Hix]. rewrite (Hfin b Hts). cbn [fst].
        rewrite list_insert_id by done. done.
    + cbn [fst scene destroyed newGame board]. split.
      * intros ix b [Hb|[Hle Hb]]%lookup_app_Some.
        -- by apply Hall.
        -- apply list_lookup_singleton_Some in Hb as [Hz <-].
           split; [done|]. cbn [onWin Board_destroy withTiles]. rewrite Hcur. split.
           ++ intros Hnil. rewrite Hnil in Hle, Hz. cbn [length] in Hz. lia.
           ++ intros ->. apply nil_length_inv. lia.
      * split; [done|]. intros Hnil. by destruct (destroyed s).
    + apply Hsame; [|done]. cbn [fst scene withScene shuffleBoard setBoard board].
      unfold shuffle. done.
    + apply Hsame; [|done]. cbn [fst scene withScene]. unfold showHint. by case_match.
    + apply Hsame; [|done]. cbn [fst scene withScene]. unfold overlayTimerFires.
      by case_match.
Qed.

Lemma destroyed_boards_stay_empty_witness :
  let s := (run [Tap 0; Restart idleRnd; Tap 0; Restart idleRnd]
                (Session_create idleRnd None)).1 in
  length (destroyed s) = 2
  ∧ (∀ b, destroyed s !! 0 = Some b → finishRemoval b = (b, true))
  ∧ (∀ b, destroyed s !! 1 = Some b → finishRemoval b = (b, false)).
Proof.
  cbn zeta.
  destruct (destroyed_boards_stay_empty
              (run [Tap 0; Restart idleRnd; Tap 0; Restart idleRnd]
                   (Session_create idleRnd None)).1) as [Hall _].
  - apply sessionReachable_run, session_created.
  - split; [by vm_compute|]. split.
    + intros b Hb. by destruct (Hall 0 b Hb) as (_ & _ & ->).
    + intros b Hb. by destruct (Hall 1 b Hb) as (_ & _ & ->).
Defined.
